(** * next-geo: signal detection and the markdown resolution pipeline

    A shallow embedding of [src/detect.ts], [src/fs.ts] and [src/handler.ts]
    of next-geo, with the properties of the specification stated against it,
    followed by [src/discovery.ts], [src/middleware.ts], [src/llms-txt.ts],
    [src/config.ts] and [src/convert.ts] with further properties of the
    code.

    JavaScript strings are modelled as [string]: sequences of code units,
    here restricted to the 8-bit range.  The whitespace, line-terminator and
    case tables below are the restrictions of the ECMAScript tables to that
    range. *)

From Stdlib Require Import Bool Arith ZArith QArith Lia List Ascii String.
Import ListNotations.

Local Open Scope string_scope.
Local Open Scope Z_scope.

(* ================================================================== *)
(** * The JavaScript string primitives used by the sources *)
(* ================================================================== *)

Module JS.

(** [s.length], as an integer. *)
Definition len (s : string) : Z := Z.of_nat (String.length s).

(** [s.startsWith(pre)]. *)
Fixpoint startsWith (s pre : string) {struct pre} : bool :=
  match pre, s with
  | EmptyString, _ => true
  | String _ _, EmptyString => false
  | String a pre', String b s' => Ascii.eqb a b && startsWith s' pre'
  end.

(** The suffix of [s] from offset [n] on (all of [s] when [n] is zero, the
    empty string when [n] reaches the end). *)
Fixpoint drop (n : nat) (s : string) : string :=
  match n, s with
  | O, _ => s
  | S _, EmptyString => EmptyString
  | S n', String _ s' => drop n' s'
  end.

(** The first [n] code units of [s]. *)
Fixpoint take (n : nat) (s : string) : string :=
  match n, s with
  | O, _ => EmptyString
  | S _, EmptyString => EmptyString
  | S n', String c s' => String c (take n' s')
  end.

(** [s.endsWith(suf)]: [suf] sits at offset [s.length - suf.length]. *)
Definition endsWith (s suf : string) : bool :=
  (String.length suf <=? String.length s)%nat
  && String.eqb (drop (String.length s - String.length suf) s) suf.

(** Scan for the first offset at which [sub] occurs, counting from [i];
    [-1] when there is none. *)
Fixpoint indexOf_scan (sub s : string) (i : Z) : Z :=
  if startsWith s sub then i
  else match s with
       | EmptyString => -1
       | String _ s' => indexOf_scan sub s' (i + 1)
       end.

(** [s.indexOf(sub, from)]; [from] is clamped to [0 .. s.length]. *)
Definition indexOf (s sub : string) (from : Z) : Z :=
  let k := Z.min (Z.max from 0) (len s) in
  indexOf_scan sub (drop (Z.to_nat k) s) k.

(** [s.includes(sub)]. *)
Definition includes (s sub : string) : bool :=
  negb (indexOf s sub 0 =? -1).

(** Relative index resolution shared by the two forms of [slice]. *)
Definition relIndex (n : Z) (i : Z) : Z :=
  if i <? 0 then Z.max (n + i) 0 else Z.min i n.

(** [s.slice(start, end)], negative indexes counting from the end. *)
Definition slice (s : string) (start stop : Z) : string :=
  let n := len s in
  let from := relIndex n start in
  let to := relIndex n stop in
  take (Z.to_nat (Z.max (to - from) 0)) (drop (Z.to_nat from) s).

(** [s.slice(start)]. *)
Definition sliceFrom (s : string) (start : Z) : string :=
  slice s start (len s).

(** [s.split(sep)] for a one-character separator; never the empty list. *)
Fixpoint split (sep : ascii) (s : string) : list string :=
  match s with
  | EmptyString => [EmptyString]
  | String c s' =>
      if Ascii.eqb c sep then EmptyString :: split sep s'
      else match split sep s' with
           | [] => [String c EmptyString]
           | seg :: segs => String c seg :: segs
           end
  end.

(** [segs.join(sep)]. *)
Fixpoint join (sep : string) (segs : list string) : string :=
  match segs with
  | [] => EmptyString
  | [x] => x
  | x :: rest => x ++ sep ++ join sep rest
  end.

(** WhiteSpace and LineTerminator code units: TAB, LF, VT, FF, CR, SP and
    NBSP.  This is also the class [\s] of regular expressions. *)
Definition isWhiteSpace (c : ascii) : bool :=
  let n := nat_of_ascii c in
  ((9 <=? n) && (n <=? 13) || (n =? 32) || (n =? 160))%nat.

(** LineTerminator code units: LF and CR.  The regular expression [.]
    matches everything else. *)
Definition isLineTerminator (c : ascii) : bool :=
  let n := nat_of_ascii c in ((n =? 10) || (n =? 13))%nat.

Fixpoint trimStart (s : string) : string :=
  match s with
  | EmptyString => EmptyString
  | String c s' => if isWhiteSpace c then trimStart s' else s
  end.

Fixpoint trimEnd (s : string) : string :=
  match s with
  | EmptyString => EmptyString
  | String c s' =>
      match trimEnd s' with
      | EmptyString => if isWhiteSpace c then EmptyString
                       else String c EmptyString
      | t => String c t
      end
  end.

(** [s.trim()]. *)
Definition trim (s : string) : string := trimEnd (trimStart s).

(** Lower-case mapping of one code unit: [A-Z], and the upper-case letters
    of the Latin-1 block (U+00C0 .. U+00DE without the multiplication sign
    U+00D7), move up by 32. *)
Definition lowerChar (c : ascii) : ascii :=
  let n := nat_of_ascii c in
  if ((65 <=? n) && (n <=? 90)
      || (192 <=? n) && (n <=? 222) && negb (n =? 215))%nat
  then ascii_of_nat (n + 32) else c.

(** [s.toLowerCase()]. *)
Fixpoint toLowerCase (s : string) : string :=
  match s with
  | EmptyString => EmptyString
  | String c s' => String (lowerChar c) (toLowerCase s')
  end.

(** Truthiness of a string: every string but the empty one. *)
Definition truthy (s : string) : bool := negb (String.eqb s EmptyString).

(** [xs.find(p)]. *)
Fixpoint find {A : Type} (p : A -> bool) (xs : list A) : option A :=
  match xs with
  | [] => None
  | x :: xs' => if p x then Some x else find p xs'
  end.

(** [xs.some(p)]. *)
Fixpoint some {A : Type} (p : A -> bool) (xs : list A) : bool :=
  match xs with
  | [] => false
  | x :: xs' => p x || some p xs'
  end.

End JS.

(* ================================================================== *)
(** * JavaScript numbers, [parseFloat] and [parseInt] *)
(* ================================================================== *)

Module Num.

(** A Number value: NaN, an infinity, or a finite binary64 value held as the
    reduced fraction it denotes.  The sign of zero is not represented: the
    sources only apply [isNaN] and [>] to these values. *)
Inductive number : Type :=
| NaN
| PosInf
| NegInf
| Fin (q : Q).

Definition ofZ (z : Z) : number := Fin (inject_Z z).

Definition isNaN (x : number) : bool :=
  match x with NaN => true | _ => false end.

Definition Qltb (a b : Q) : bool :=
  (Qnum a * Zpos (Qden b) <? Qnum b * Zpos (Qden a))%Z.

(** [x > y]; false as soon as one side is NaN. *)
Definition gt (x y : number) : bool :=
  match x, y with
  | NaN, _ | _, NaN => false
  | PosInf, PosInf => false
  | PosInf, _ => true
  | _, PosInf => false
  | NegInf, _ => false
  | Fin _, NegInf => true
  | Fin a, Fin b => Qltb b a
  end.

Definition neg (x : number) : number :=
  match x with
  | NaN => NaN
  | PosInf => NegInf
  | NegInf => PosInf
  | Fin q => Fin (Qopp q)
  end.

(** [2^e] as a fraction, for any integer [e]. *)
Definition pow2 (e : Z) : Q :=
  if (0 <=? e)%Z then inject_Z (2 ^ e) else 1 # (Z.to_pos (2 ^ (- e))).

(** Round a positive fraction [n/d] to the nearest binary64 value, ties to
    the even significand; values that round to [2^1024] or more overflow to
    infinity.  [e] is the exponent of the unit in the last place: the value
    scaled by [2^-e] has a 53-bit integer part, or [e] is the subnormal
    exponent -1074. *)
Definition roundPos (n d : positive) : number :=
  let a := Z.log2 (Zpos n) in
  let b := Z.log2 (Zpos d) in
  let l0 := (a - b)%Z in
  let ge := if (0 <=? l0)%Z then (Zpos d * 2 ^ l0 <=? Zpos n)%Z
            else (Zpos d <=? Zpos n * 2 ^ (- l0))%Z in
  let l := if ge then l0 else (l0 - 1)%Z in
  let e := Z.max (l - 52) (-1074) in
  let N := if (0 <=? e)%Z then Zpos n else (Zpos n * 2 ^ (- e))%Z in
  let D := if (0 <=? e)%Z then (Zpos d * 2 ^ e)%Z else Zpos d in
  let m := (N / D)%Z in
  let r := (N mod D)%Z in
  let m' := if (D <? 2 * r)%Z then (m + 1)%Z
            else if (2 * r =? D)%Z && Z.odd m then (m + 1)%Z else m in
  let v := Qred (Qmult (inject_Z m') (pow2 e)) in
  if Qltb v (inject_Z (2 ^ 1024)) then Fin v else PosInf.

(** The Number value for a fraction. *)
Definition round (q : Q) : number :=
  match Qnum q with
  | Z0 => Fin 0
  | Zpos n => roundPos n (Qden q)
  | Zneg n => neg (roundPos n (Qden q))
  end.

Definition isDigit (c : ascii) : bool :=
  let n := nat_of_ascii c in ((48 <=? n) && (n <=? 57))%nat.

(** Split off the longest run of decimal digits. *)
Fixpoint spanDigits (s : string) : string * string :=
  match s with
  | EmptyString => (EmptyString, EmptyString)
  | String c s' =>
      if isDigit c then let (ds, rest) := spanDigits s' in (String c ds, rest)
      else (EmptyString, s)
  end.

(** Value of a run of decimal digits, most significant first. *)
Fixpoint digitsValue (acc : Z) (ds : string) : Z :=
  match ds with
  | EmptyString => acc
  | String c ds' =>
      digitsValue (10 * acc + (Z.of_nat (nat_of_ascii c) - 48))%Z ds'
  end.

(** An optional sign: whether it is a minus, and what follows it. *)
Definition spanSign (s : string) : bool * string :=
  match s with
  | String "+" r => (false, r)
  | String "-" r => (true, r)
  | _ => (false, s)
  end.

(** The ExponentPart of a StrDecimalLiteral when one is present in full
    (indicator, optional sign, at least one digit); otherwise 0, the
    indicator not being part of the literal. *)
Definition exponentPart (s : string) : Z :=
  match s with
  | String c r =>
      if (Ascii.eqb c "e" || Ascii.eqb c "E")%bool then
        let (eneg, r1) := spanSign r in
        let (ed, _) := spanDigits r1 in
        match ed with
        | EmptyString => 0%Z
        | _ => if eneg then (- digitsValue 0 ed)%Z else digitsValue 0 ed
        end
      else 0%Z
  | EmptyString => 0%Z
  end.

(** The mathematical value [digits * 10^x] as a fraction. *)
Definition decimalValue (digits x : Z) : Q :=
  if (0 <=? x)%Z then inject_Z (digits * 10 ^ x)
  else digits # (Z.to_pos (10 ^ (- x))).

(** [parseFloat(s)]: skip leading white space, then read the longest prefix
    that is a StrDecimalLiteral (sign, then [Infinity] or decimal digits
    with an optional fraction and exponent); NaN when there is none. *)
Definition parseFloat (s : string) : number :=
  let (sgn, t) := spanSign (JS.trimStart s) in
  let apply := fun x => if sgn then neg x else x in
  if JS.startsWith t "Infinity" then apply PosInf
  else
    let (ip, t2) := spanDigits t in
    let (fp, t3) := match t2 with
                    | String "." r => spanDigits r
                    | _ => (EmptyString, t2)
                    end in
    match (ip ++ fp)%string with
    | EmptyString => NaN
    | ds =>
        let x := (exponentPart t3 - Z.of_nat (String.length fp))%Z in
        apply (round (decimalValue (digitsValue 0 ds) x))
    end.

(** [parseInt(s, 10)]: skip leading white space, read a sign and the
    longest run of decimal digits; NaN when there is no digit. *)
Definition parseInt10 (s : string) : number :=
  let (sgn, t) := spanSign (JS.trimStart s) in
  let (ds, _) := spanDigits t in
  match ds with
  | EmptyString => NaN
  | _ => let v := round (inject_Z (digitsValue 0 ds)) in
         if sgn then neg v else v
  end.

End Num.

(* ================================================================== *)
(** * Node's [path] module (POSIX) *)
(* ================================================================== *)

Module Path.

(** One step of [normalizeString]: [res] holds the segments kept so far,
    last first. *)
Definition normStep (allowAboveRoot : bool) (res : list string) (seg : string)
  : list string :=
  if String.eqb seg "" || String.eqb seg "." then res
  else if String.eqb seg ".." then
    match res with
    | [] => if allowAboveRoot then [".."] else []
    | top :: below =>
        if String.eqb top ".." then
          (if allowAboveRoot then ".." :: res else res)
        else below
    end
  else seg :: res.

(** [normalizeString(path, allowAboveRoot)]: resolve [.] and [..] segments
    and drop empty ones; the result has no leading or trailing slash. *)
Definition normalizeString (path : string) (allowAboveRoot : bool) : string :=
  JS.join "/" (rev (fold_left (normStep allowAboveRoot) (JS.split "/" path) [])).

Definition isAbsolute (p : string) : bool := JS.startsWith p "/".

(** [path.normalize(p)]. *)
Definition normalize (p : string) : string :=
  if String.eqb p "" then "."
  else
    let abs := isAbsolute p in
    let trailing := JS.endsWith p "/" in
    let q := normalizeString p (negb abs) in
    if String.eqb q "" then
      (if abs then "/" else if trailing then "./" else ".")
    else
      let q' := if trailing then q ++ "/" else q in
      if abs then "/" ++ q' else q'.

(** [path.join(...args)]. *)
Definition join (args : list string) : string :=
  match filter JS.truthy args with
  | [] => "."
  | parts => normalize (JS.join "/" parts)
  end.

(** The right-to-left loop of [path.resolve]: [args] is given last argument
    first and ends with the working directory; the loop stops at the first
    absolute one. *)
Fixpoint resolveLoop (args : list string) (resolvedPath : string)
  : string * bool :=
  match args with
  | [] => (resolvedPath, false)
  | p :: rest =>
      if String.eqb p "" then resolveLoop rest resolvedPath
      else
        let resolvedPath' := p ++ "/" ++ resolvedPath in
        if isAbsolute p then (resolvedPath', true)
        else resolveLoop rest resolvedPath'
  end.

(** [path.resolve(...args)] in working directory [cwd]. *)
Definition resolve (cwd : string) (args : list string) : string :=
  let (resolvedPath, resolvedAbsolute) := resolveLoop (rev args ++ [cwd]) "" in
  let q := normalizeString resolvedPath (negb resolvedAbsolute) in
  if resolvedAbsolute then "/" ++ q
  else if String.eqb q "" then "." else q.

End Path.

(* ================================================================== *)
(** * [src/constants.ts] *)
(* ================================================================== *)

(** Header set on internal fetches to prevent middleware loops. *)
Definition INTERNAL_FETCH_HEADER : string := "x-llm-internal-fetch".

(** Known LLM bot User-Agent patterns. *)
Definition BOT_USER_AGENTS : list string :=
  [ "ChatGPT-User"; "ClaudeBot"; "GPTBot"; "PerplexityBot";
    "Applebot-Extended"; "Google-Extended"; "CCBot"; "anthropic-ai";
    "cohere-ai"; "Claude-SearchTool" ].

(* ================================================================== *)
(** * [src/detect.ts]: signal detection *)
(* ================================================================== *)

(** The [LlmSignal] union of [src/types.ts]. *)
Inductive LlmSignal : Type :=
| MdSuffix (originalPath : string)
| AcceptHeader (quality : Num.number)
| UserAgent (botName : string).

(** The optional [options] argument of [detectLlmSignal]; an absent field
    takes its default in the function. *)
Record DetectOptions : Type := {
  enableMdSuffix : option bool;
  enableUserAgentDetection : option bool;
  additionalBotUserAgents : option (list string)
}.

Definition orDefault {A : Type} (d : A) (o : option A) : A :=
  match o with Some a => a | None => d end.

(** The body of the loop of [parseAcceptMarkdown] for one trimmed entry:
    [Some q] when the entry names [text/markdown] (the function returns
    [q]), [None] when the loop goes on. *)
Definition acceptEntry (part : string) : option Num.number :=
  match map JS.trim (JS.split ";" part) with
  | [] => None
  | mediaType :: params =>
      if String.eqb (JS.toLowerCase mediaType) "text/markdown" then
        match JS.find (fun p => JS.startsWith p "q=") params with
        | Some qParam =>
            if JS.truthy qParam then
              let q := Num.parseFloat (JS.sliceFrom qParam 2) in
              Some (if Num.isNaN q then Num.ofZ 1 else q)
            else Some (Num.ofZ 1)
        | None => Some (Num.ofZ 1)
        end
      else None
  end.

Fixpoint acceptLoop (parts : list string) : Num.number :=
  match parts with
  | [] => Num.ofZ 0
  | part :: rest =>
      match acceptEntry part with
      | Some q => q
      | None => acceptLoop rest
      end
  end.

(** Parse an Accept header and return the quality value for text/markdown.
    Returns 0 if text/markdown is not present. *)
Definition parseAcceptMarkdown (accept : string) : Num.number :=
  acceptLoop (map JS.trim (JS.split "," accept)).

(** The user-agent loop: the first pattern contained in the user agent. *)
Fixpoint matchBot (userAgent : string) (patterns : list string)
  : option LlmSignal :=
  match patterns with
  | [] => None
  | pattern :: rest =>
      if JS.includes userAgent pattern then Some (UserAgent pattern)
      else matchBot userAgent rest
  end.

(** Detect if a request is from an LLM, returning signal details or null.
    Checks in priority order: .md suffix, Accept header, User-Agent. *)
Definition detectLlmSignal (pathname : string) (accept userAgent : option string)
    (options : option DetectOptions) : option LlmSignal :=
  let enableMdSuffix :=
    orDefault true (match options with Some o => enableMdSuffix o | None => None end) in
  let enableUserAgentDetection :=
    orDefault true
      (match options with Some o => enableUserAgentDetection o | None => None end) in
  let additionalBotUserAgents :=
    orDefault []
      (match options with Some o => additionalBotUserAgents o | None => None end) in
  if enableMdSuffix && JS.endsWith pathname ".md" then
    let sliced := JS.slice pathname 0 (-3) in
    let originalPath := if JS.truthy sliced then sliced else "/" in
    Some (MdSuffix originalPath)
  else
    let viaAccept :=
      match accept with
      | Some a =>
          if JS.truthy a then
            let quality := parseAcceptMarkdown a in
            if Num.gt quality (Num.ofZ 0) then Some (AcceptHeader quality)
            else None
          else None
      | None => None
      end in
    match viaAccept with
    | Some sig => Some sig
    | None =>
        match userAgent with
        | Some ua =>
            if enableUserAgentDetection && JS.truthy ua then
              matchBot ua (BOT_USER_AGENTS ++ additionalBotUserAgents)
            else None
        | None => None
        end
    end.

(** Simple boolean check for whether a request is from an LLM. *)
Definition isLlmRequest (pathname : string) (accept userAgent : option string)
    (options : option DetectOptions) : bool :=
  match detectLlmSignal pathname accept userAgent options with
  | Some _ => true
  | None => false
  end.

(* ================================================================== *)
(** * The world around the handler, and the log of what was done to it *)
(* ================================================================== *)

(** A parsed URL, as far as the handler looks at it. *)
Record URL : Type := {
  href : string;
  host : string;
  pathname : string
}.

(** A fetch response: [rheaders] is [response.headers.get]; [text] is the
    body, [None] when reading it fails. *)
Record Response : Type := {
  status : Z;
  rheaders : string -> option string;
  text : option string
}.

Definition ok (r : Response) : bool := (200 <=? status r) && (status r <=? 299).

(** The incoming request, as far as the handler looks at it:
    [request.headers.get("x-llm-target-path")],
    [request.nextUrl.searchParams.get("path")],
    [request.headers.get("cookie")] and [request.nextUrl]. *)
Record Request : Type := {
  targetPathHeader : option string;
  pathParam : option string;
  cookie : option string;
  nextUrl_protocol : string;
  nextUrl_host : string
}.

(** Everything the code reaches outside itself, taken as it stands during
    one resolution.  A [None] stands for a thrown exception or a rejected
    promise.
    - [cwd] is [process.cwd()];
    - [readFile] and [readdir] are those of [fs/promises];
    - [newURL input base] is [new URL(input, base)], the base given by its
      string form;
    - [fetch url headers] is [fetch(url, { headers, redirect: "manual" })];
    - [htmlToMarkdown] is the Turndown-based converter of [src/convert.ts]. *)
Record World : Type := {
  cwd : string;
  readFile : string -> option string;
  readdir : string -> option (list string);
  newURL : string -> option string -> option URL;
  fetch : string -> list (string * string) -> option Response;
  htmlToMarkdown : string -> option string
}.

(** What the code does to the world, in order.  [EvResolve] is not an
    effect: it marks each entry into [resolveMarkdown] with its path and
    redirect depth. *)
Inductive event : Type :=
| EvResolve (path : string) (redirectDepth : nat)
| EvReadFile (filePath : string)
| EvReaddir (dir : string)
| EvFetch (url : string) (headers : list (string * string))
| EvText (url : string)
| EvConvert (html : string).

(** Computations that log their effects. *)
Definition M (A : Type) : Type := (A * list event)%type.

Definition ret {A : Type} (a : A) : M A := (a, []).

Definition bind {A B : Type} (m : M A) (k : A -> M B) : M B :=
  let (a, t1) := m in
  let (b, t2) := k a in
  (b, (t1 ++ t2)%list).

Definition emit (e : event) : M unit := (tt, [e]).

Declare Scope io_scope.
Delimit Scope io_scope with io.
Notation "x <- m ;; k" := (bind m (fun x => k))
  (at level 61, m at next level, right associativity) : io_scope.
Notation "m ;;; k" := (bind m (fun _ => k))
  (at level 61, right associativity) : io_scope.
Local Open Scope io_scope.

Definition value {A : Type} (m : M A) : A := fst m.
Definition trace {A : Type} (m : M A) : list event := snd m.

(* ================================================================== *)
(** * [src/fs.ts] *)
(* ================================================================== *)

(** Verify a resolved file path stays within the expected directory. *)
Definition isPathWithinDirectory (filePath directory : string) : bool :=
  JS.startsWith filePath (directory ++ "/") || String.eqb filePath directory.

Definition tryReadFile (w : World) (filePath : string) : M (option string) :=
  emit (EvReadFile filePath) ;;;
  ret (readFile w filePath).

(** The loop of [findPageMd] over the route groups. *)
Fixpoint scanRouteGroups (w : World) (appDir : string) (segments : list string)
    (routeGroups : list string) : M (option string) :=
  match routeGroups with
  | [] => ret None
  | group :: rest =>
      let groupPath :=
        Path.resolve (cwd w) ([appDir; group] ++ segments ++ ["page.md"]) in
      if negb (isPathWithinDirectory groupPath appDir) then
        scanRouteGroups w appDir segments rest
      else
        content <- tryReadFile w groupPath ;;
        match content with
        | Some c => ret (Some c)
        | None => scanRouteGroups w appDir segments rest
        end
  end.

(** [requestPath.replace(/^\//, "")]. *)
Definition stripLeadingSlash (s : string) : string :=
  match s with
  | String "/" r => r
  | _ => s
  end.

(** Search for a page.md file co-located with page.tsx for the given path.
    Handles Next.js route groups like (main-layout), (homepage). *)
Definition findPageMd (w : World) (requestPath : string) : M (option string) :=
  let appDir := Path.join [cwd w; "app"] in
  let normalizedPath :=
    if String.eqb requestPath "/" then "" else stripLeadingSlash requestPath in
  let segments :=
    if JS.truthy normalizedPath then JS.split "/" normalizedPath else [] in
  let directPath := Path.resolve (cwd w) ([appDir] ++ segments ++ ["page.md"]) in
  if negb (isPathWithinDirectory directPath appDir) then ret None
  else
    direct <- tryReadFile w directPath ;;
    match direct with
    | Some c => ret (Some c)
    | None =>
        emit (EvReaddir appDir) ;;;
        match readdir w appDir with
        | None => ret None
        | Some topDirs =>
            let routeGroups :=
              filter (fun d => JS.startsWith d "(" && JS.endsWith d ")") topDirs in
            scanRouteGroups w appDir segments routeGroups
        end
    end.

(** ** The regular expression of [parseFrontmatter] *)

Module Re.

(** Backtracking matchers in continuation-passing style: a matcher tries its
    alternatives in the order of the regular expression engine and hands
    what is left of the input to the continuation [k]. *)

(** [cls*], greedy: the longest run first, then one less at a time. *)
Fixpoint star {A : Type} (cls : ascii -> bool) (k : string -> option A)
    (s : string) : option A :=
  match s with
  | String c s' =>
      if cls c then
        match star cls k s' with
        | Some r => Some r
        | None => k s
        end
      else k s
  | EmptyString => k s
  end.

(** A literal. *)
Definition lit {A : Type} (l : string) (k : string -> option A) (s : string)
  : option A :=
  if JS.startsWith s l then k (JS.drop (String.length l) s) else None.

(** [(cls+?)], lazy and capturing: one character first, then one more at a
    time; [acc] is what has been captured so far. *)
Fixpoint plusLazy {A : Type} (cls : ascii -> bool)
    (k : string -> string -> option A) (acc s : string) : option A :=
  match s with
  | String c s' =>
      if cls c then
        let acc' := (acc ++ String c EmptyString)%string in
        match k acc' s' with
        | Some r => Some r
        | None => plusLazy cls k acc' s'
        end
      else None
  | EmptyString => None
  end.

(** [$] without the multiline flag: the end of the input. *)
Definition eoi {A : Type} (r : A) (s : string) : option A :=
  match s with
  | EmptyString => Some r
  | _ => None
  end.

Definition dot (c : ascii) : bool := negb (JS.isLineTerminator c).

End Re.

(** [line.match(/^\s*redirect\s*:\s*(.+?)\s*$/)], giving [match[1]]. *)
Definition matchRedirect (line : string) : option string :=
  Re.star JS.isWhiteSpace
    (Re.lit "redirect"
      (Re.star JS.isWhiteSpace
        (Re.lit ":"
          (Re.star JS.isWhiteSpace
            (Re.plusLazy Re.dot
              (fun captured => Re.star JS.isWhiteSpace (Re.eoi captured))
              "")))))
    line.

(** The loop over the lines of the frontmatter: the first match wins. *)
Fixpoint firstRedirect (lines : list string) : option string :=
  match lines with
  | [] => None
  | line :: rest =>
      match matchRedirect line with
      | Some r => Some r
      | None => firstRedirect rest
      end
  end.

Definition LF : ascii := "010"%char.
Definition CR : ascii := "013"%char.

(** A one-character string holding a line feed. *)
Definition nl : string := String LF "".

(** [s.replace(/^\r?\n/, "")]. *)
Definition stripLeadingNewline (s : string) : string :=
  match s with
  | String c r =>
      if Ascii.eqb c LF then r
      else if Ascii.eqb c CR then
        match r with
        | String c' r' => if Ascii.eqb c' LF then r' else s
        | EmptyString => s
        end
      else s
  | EmptyString => s
  end.

Record Frontmatter : Type := {
  redirect : option string;
  body : string
}.

(** Parse frontmatter from markdown content.  Returns the frontmatter fields
    and the body without the frontmatter block. *)
Definition parseFrontmatter (content : string) : Frontmatter :=
  if negb (JS.startsWith content "---") then
    {| redirect := None; body := content |}
  else
    let endIndex := JS.indexOf content "---" 3 in
    if endIndex =? -1 then {| redirect := None; body := content |}
    else
      let frontmatter := JS.slice content 3 endIndex in
      let body := stripLeadingNewline (JS.sliceFrom content (endIndex + 3)) in
      {| redirect := firstRedirect (JS.split LF frontmatter); body := body |}.

(* ================================================================== *)
(** * [src/handler.ts]: the resolution pipeline *)
(* ================================================================== *)

(** Validate that path is a safe, root-relative path (no protocol, no
    traversal). *)
Definition isValidPath (path : string) : bool :=
  if negb (JS.startsWith path "/") || JS.startsWith path "//" then false
  else if JS.includes path "://" then false
  else
    let segments := JS.split "/" path in
    if JS.some (fun s => String.eqb s ".." || String.eqb s ".") segments
    then false
    else true.

(** A preamble or postamble: a string, or a function of the path. *)
Inductive Amble : Type :=
| AmbleText (s : string)
| AmbleFn (f : string -> string).

(** The [GeoConfig] fields the handler reads ([src/types.ts]). *)
Record GeoConfig : Type := {
  autoConversion : option bool;   (* enableAutoConversion *)
  internalBaseUrl : option string;
  preamble : option Amble;
  postamble : option Amble
}.

(** The [options] argument of [resolveMarkdown]; [redirectDepth] tracks
    redirect depth to prevent loops and defaults to 0. *)
Record ResolveOptions : Type := {
  enableAutoConversion : bool;
  config : option GeoConfig;
  redirectDepth : option nat
}.

(** What [resolveMarkdown] returns when it is not [null]. *)
Record Resolved : Type := {
  content : string;
  cacheControl : string
}.

Definition MAX_REDIRECTS : nat := 3.

(** 5 MB *)
Definition MAX_HTML_SIZE : Z := 5 * 1024 * 1024.

Definition PUBLIC_CACHE : string := "public, max-age=300, s-maxage=3600".
Definition PRIVATE_CACHE : string := "private, max-age=300".

(** A result of the recursion below: [Done r] when the function returned
    [r], [OutOfFuel] when the recursion allowance of the model was used up
    first. *)
Inductive result (A : Type) : Type :=
| Done (a : A)
| OutOfFuel.
Arguments Done {A} a.
Arguments OutOfFuel {A}.

(** [o] when it is a truthy string. *)
Definition whenTruthy (o : option string) : option string :=
  match o with
  | Some s => if JS.truthy s then Some s else None
  | None => None
  end.

(** [config?.internalBaseUrl ?? `${request.nextUrl.protocol}//${request.nextUrl.host}`] *)
Definition baseUrlOf (request : Request) (config : option GeoConfig) : string :=
  match config with
  | Some {| internalBaseUrl := Some b |} => b
  | _ => nextUrl_protocol request ++ "//" ++ nextUrl_host request
  end.

(** The headers of the internal fetch: forward cookies for auth, add the
    internal header to bypass the middleware. *)
Definition fetchHeaders (request : Request) : list (string * string) :=
  ([(INTERNAL_FETCH_HEADER, "1"); ("Accept", "text/html")]
   ++ match whenTruthy (cookie request) with
      | Some c => [("Cookie", c)]
      | None => []
      end)%list.

(** [contentLength && parseInt(contentLength, 10) > MAX_HTML_SIZE] *)
Definition declaresTooLong (response : Response) : bool :=
  match whenTruthy (rheaders response "content-length") with
  | Some contentLength =>
      Num.gt (Num.parseInt10 contentLength) (Num.ofZ MAX_HTML_SIZE)
  | None => false
  end.

(** [redirectDepth < MAX_REDIRECTS && response.status >= 300 &&
    response.status < 400] *)
Definition followable (depth : nat) (response : Response) : bool :=
  (depth <? MAX_REDIRECTS)%nat
  && (300 <=? status response) && (status response <? 400).

(** Run the full markdown resolution pipeline for a path:
    1. Look for a co-located page.md file (following frontmatter redirects)
    2. Auto-convert the page's HTML to markdown (following same-host
       redirects)
    [fuel] bounds the depth of the recursion in the model. *)
Fixpoint resolveMarkdown_fuel (fuel : nat) (w : World) (request : Request)
    (path : string) (options : ResolveOptions)
  : M (result (option Resolved)) :=
  match fuel with
  | O => ret OutOfFuel
  | S fuel' =>
    let depth := orDefault 0%nat (redirectDepth options) in
    let next := {| enableAutoConversion := enableAutoConversion options;
                   config := config options;
                   redirectDepth := Some (depth + 1)%nat |} in
    emit (EvResolve path depth) ;;;
    (* Step 1: Try to find a page.md file *)
    pageMd <- findPageMd w path ;;
    match pageMd with
    | Some pageMd =>
        let fm := parseFrontmatter pageMd in
        (* Follow frontmatter redirect to another path's markdown *)
        match whenTruthy (redirect fm) with
        | Some target =>
            if negb (isValidPath target) || (MAX_REDIRECTS <=? depth)%nat
            then ret (Done None)
            else resolveMarkdown_fuel fuel' w request target next
        | None =>
            ret (Done (Some {| content := body fm;
                               cacheControl := PUBLIC_CACHE |}))
        end
    | None =>
        (* Step 2: Auto-convert HTML to markdown *)
        if negb (enableAutoConversion options) then ret (Done None)
        else
          let baseUrl := baseUrlOf request (config options) in
          match newURL w path (Some baseUrl) with
          | None => ret (Done None)
          | Some url =>
          match newURL w baseUrl None with
          | None => ret (Done None)
          | Some base =>
          (* Guard against SSRF: ensure the URL stays on the same host *)
          if negb (String.eqb (host url) (host base)) then ret (Done None)
          else
            (* Forward cookies for auth, add internal header *)
            let headers := fetchHeaders request in
            emit (EvFetch (href url) headers) ;;;
            match fetch w (href url) headers with
            | None => ret (Done None)
            | Some response =>
            (* Follow same-host redirects by re-running the full pipeline *)
            if followable depth response then
              match whenTruthy (rheaders response "location") with
              | Some location =>
                  match newURL w location (Some (href url)) with
                  | None => ret (Done None)
                  | Some redirectUrl =>
                      if String.eqb (host redirectUrl) (host base) then
                        resolveMarkdown_fuel fuel' w request
                          (pathname redirectUrl) next
                      else ret (Done None)
                  end
              | None => ret (Done None)
              end
            else if negb (ok response) then ret (Done None)
            else
              (* Guard against memory exhaustion from very large pages *)
              if declaresTooLong response then ret (Done None)
              else
                emit (EvText (href url)) ;;;
                match text response with
                | None => ret (Done None)
                | Some html =>
                    if negb (JS.truthy (JS.trim html))
                       || (MAX_HTML_SIZE <? JS.len html)
                    then ret (Done None)
                    else
                      emit (EvConvert html) ;;;
                      match htmlToMarkdown w html with
                      | None => ret (Done None)
                      | Some md =>
                          ret (Done (Some {| content := md;
                                             cacheControl := PRIVATE_CACHE |}))
                      end
                end
            end
          end
          end
    end
  end.

(** [resolveMarkdown]: the allowance covers the call itself and one call
    for each redirect depth that can still be reached. *)
Definition resolveMarkdown (w : World) (request : Request) (path : string)
    (options : ResolveOptions) : M (result (option Resolved)) :=
  resolveMarkdown_fuel
    (S (MAX_REDIRECTS - orDefault 0%nat (redirectDepth options)))
    w request path options.

(** The response of the route handler: status, body and headers. *)
Record HttpResponse : Type := {
  code : Z;
  payload : string;
  headersOut : list (string * string)
}.

(** An amble that is set and truthy, applied to the path. *)
Definition ambleFor (a : option Amble) (path : string) : option string :=
  match a with
  | Some (AmbleText s) => if JS.truthy s then Some s else None
  | Some (AmbleFn f) => Some (f path)
  | None => None
  end.

Definition markdownResponse (content path : string)
    (pre post : option Amble) (cacheControl : string) : HttpResponse :=
  let markdown :=
    match ambleFor pre path with
    | Some p => p ++ nl ++ nl ++ content
    | None => content
    end in
  let markdown :=
    match ambleFor post path with
    | Some p => markdown ++ nl ++ nl ++ p
    | None => markdown
    end in
  {| code := 200;
     payload := markdown;
     headersOut := [("Content-Type", "text/markdown; charset=utf-8");
                    ("Vary", "Accept, User-Agent");
                    ("Cache-Control", cacheControl)] |}.

(** The 404 of the handler. *)
Definition noMarkdown (path : string) : HttpResponse :=
  {| code := 404;
     payload := "No markdown available for " ++ path;
     headersOut := [("Content-Type", "text/plain; charset=utf-8")] |}.

(** The options [GET] passes to [resolveMarkdown]. *)
Definition handlerOptions (config : option GeoConfig) : ResolveOptions :=
  {| enableAutoConversion :=
       orDefault true
         (match config with Some c => autoConversion c | None => None end);
     config := config;
     redirectDepth := None |}.

(** The [GET] of [createGeoHandler(config)]. *)
Definition GET (w : World) (config : option GeoConfig) (request : Request)
  : M (result HttpResponse) :=
  (* Read target path from header (set by middleware rewrite) or query
     param (direct access). *)
  let rawPath :=
    match targetPathHeader request with
    | Some h => Some h
    | None => pathParam request
    end in
  match whenTruthy rawPath with
  | None =>
      ret (Done {| code := 400; payload := "Missing path parameter";
                   headersOut := [] |})
  | Some path =>
      if negb (isValidPath path) then
        ret (Done {| code := 400; payload := "Invalid path parameter";
                     headersOut := [] |})
      else
        markdown <- resolveMarkdown w request path (handlerOptions config) ;;
        match markdown with
        | OutOfFuel => ret OutOfFuel
        | Done (Some m) =>
            ret (Done (markdownResponse (content m) path
                         (match config with Some c => preamble c | None => None end)
                         (match config with Some c => postamble c | None => None end)
                         (cacheControl m)))
        | Done None => ret (Done (noMarkdown path))
        end
  end.

(* ================================================================== *)
(** * One pass of the pipeline *)
(* ================================================================== *)

(** The options of the recursive calls of [resolveMarkdown]. *)
Definition nextOptions (options : ResolveOptions) : ResolveOptions :=
  {| enableAutoConversion := enableAutoConversion options;
     config := config options;
     redirectDepth := Some (orDefault 0%nat (redirectDepth options) + 1)%nat |}.

(** How one call of [resolveMarkdown] ends: it returns, or it calls itself
    on another path. *)
Inductive passEnd : Type :=
| Returns (r : option Resolved)
| Follows (target : string).

(** The body of [resolveMarkdown] up to its recursive calls.  The theorems
    are stated on [resolveMarkdown]; [pass] only serves their proofs, through
    the equation that relates the two. *)
Definition pass (w : World) (request : Request) (path : string)
    (options : ResolveOptions) : M passEnd :=
  let depth := orDefault 0%nat (redirectDepth options) in
  emit (EvResolve path depth) ;;;
  pageMd <- findPageMd w path ;;
  match pageMd with
  | Some pageMd =>
      let fm := parseFrontmatter pageMd in
      match whenTruthy (redirect fm) with
      | Some target =>
          if negb (isValidPath target) || (MAX_REDIRECTS <=? depth)%nat
          then ret (Returns None)
          else ret (Follows target)
      | None =>
          ret (Returns (Some {| content := body fm;
                                cacheControl := PUBLIC_CACHE |}))
      end
  | None =>
      if negb (enableAutoConversion options) then ret (Returns None)
      else
        let baseUrl := baseUrlOf request (config options) in
        match newURL w path (Some baseUrl) with
        | None => ret (Returns None)
        | Some url =>
        match newURL w baseUrl None with
        | None => ret (Returns None)
        | Some base =>
        if negb (String.eqb (host url) (host base)) then ret (Returns None)
        else
          let headers := fetchHeaders request in
          emit (EvFetch (href url) headers) ;;;
          match fetch w (href url) headers with
          | None => ret (Returns None)
          | Some response =>
          if followable depth response then
            match whenTruthy (rheaders response "location") with
            | Some location =>
                match newURL w location (Some (href url)) with
                | None => ret (Returns None)
                | Some redirectUrl =>
                    if String.eqb (host redirectUrl) (host base) then
                      ret (Follows (pathname redirectUrl))
                    else ret (Returns None)
                end
            | None => ret (Returns None)
            end
          else if negb (ok response) then ret (Returns None)
          else
            if declaresTooLong response then ret (Returns None)
            else
              emit (EvText (href url)) ;;;
              match text response with
              | None => ret (Returns None)
              | Some html =>
                  if negb (JS.truthy (JS.trim html))
                     || (MAX_HTML_SIZE <? JS.len html)
                  then ret (Returns None)
                  else
                    emit (EvConvert html) ;;;
                    match htmlToMarkdown w html with
                    | None => ret (Returns None)
                    | Some md =>
                        ret (Returns (Some {| content := md;
                                              cacheControl := PRIVATE_CACHE |}))
                    end
              end
          end
        end
        end
  end.

(** What follows a pass: its result, or the recursive call. *)
Definition continue (fuel : nat) (w : World) (request : Request)
    (options : ResolveOptions) (e : passEnd) : M (result (option Resolved)) :=
  match e with
  | Returns r => ret (Done r)
  | Follows target =>
      resolveMarkdown_fuel fuel w request target (nextOptions options)
  end.

(** The calls of [resolveMarkdown] recorded in a log, in order, each with
    its path and redirect depth. *)
Fixpoint attempts (t : list event) : list (string * nat) :=
  match t with
  | [] => []
  | EvResolve p d :: t' => (p, d) :: attempts t'
  | _ :: t' => attempts t'
  end.

(** The fetches recorded in a log, in order. *)
Fixpoint fetches (t : list event) : list (string * list (string * string)) :=
  match t with
  | [] => []
  | EvFetch u h :: t' => (u, h) :: fetches t'
  | _ :: t' => fetches t'
  end.

(** The file reads recorded in a log. *)
Fixpoint reads (t : list event) : list string :=
  match t with
  | [] => []
  | EvReadFile p :: t' => p :: reads t'
  | _ :: t' => reads t'
  end.

(** The bodies read and the texts handed to the converter. *)
Fixpoint bodyReads (t : list event) : list string :=
  match t with
  | [] => []
  | EvText u :: t' => u :: bodyReads t'
  | _ :: t' => bodyReads t'
  end.

Fixpoint converted (t : list event) : list string :=
  match t with
  | [] => []
  | EvConvert h :: t' => h :: converted t'
  | _ :: t' => converted t'
  end.

(** A log of file-system events only. *)
Definition fsOnly (t : list event) : Prop :=
  attempts t = [] /\ fetches t = [] /\ bodyReads t = [] /\ converted t = [].

(* ================================================================== *)
(** * Predicates of the statements *)
(* ================================================================== *)

(** [sub] occurs in [s]. *)
Definition Contains (s sub : string) : Prop :=
  exists a b, s = (a ++ sub ++ b)%string.

(** [sub] occurs in [s] at offset [n]. *)
Definition OccursAt (s sub : string) (n : nat) : Prop :=
  exists a b, s = (a ++ sub ++ b)%string /\ String.length a = n.

(** [s] begins with [pre]. *)
Definition StartsWith (s pre : string) : Prop :=
  exists t, s = (pre ++ t)%string.

(** [s] ends with [suf]. *)
Definition EndsWith (s suf : string) : Prop :=
  exists t, s = (t ++ suf)%string.

(** [segs] are the [/]-delimited segments of [p]: joined by [/] they give
    [p] back, and none of them contains a [/]. *)
Definition Segments (p : string) (segs : list string) : Prop :=
  segs <> [] /\ p = JS.join "/" segs /\
  Forall (fun seg => ~ Contains seg "/") segs.

(** Every character of [s] is in the class [cls]. *)
Fixpoint allOf (cls : ascii -> bool) (s : string) : bool :=
  match s with
  | EmptyString => true
  | String c s' => cls c && allOf cls s'
  end.

(** A string of white space only. *)
Definition Blank (s : string) : Prop := allOf JS.isWhiteSpace s = true.

(** A separator as a string. *)
Definition sepStr (sep : ascii) : string := String sep "".

(** The [.md] suffix check is enabled: the default, unless the options turn
    it off. *)
Definition suffixEnabled (options : option DetectOptions) : Prop :=
  forall o, options = Some o -> enableMdSuffix o <> Some false.

(** The media-type token of a comma-separated accept-header entry: what
    precedes the first [;] of the trimmed entry, trimmed. *)
Definition mediaTypeOf (entry : string) : string :=
  JS.trim (hd "" (JS.split ";" (JS.trim entry))).

(** The parameters of an accept-header entry: the other [;]-separated
    pieces, trimmed. *)
Definition paramsOf (entry : string) : list string :=
  map JS.trim (tl (JS.split ";" (JS.trim entry))).

(** The entry names the target media type, compared without regard to
    case. *)
Definition NamesMarkdown (entry : string) : Prop :=
  JS.toLowerCase (mediaTypeOf entry) = "text/markdown".

(** The quality an entry declares: the number read from its first
    parameter that begins with [q=]; 1 when it has none or when no number
    can be read from it. *)
Definition declaredQuality (entry : string) : Num.number :=
  match JS.find (fun p => JS.startsWith p "q=") (paramsOf entry) with
  | Some qParam =>
      let q := Num.parseFloat (JS.drop 2 qParam) in
      if Num.isNaN q then Num.ofZ 1 else q
  | None => Num.ofZ 1
  end.

(** [lo <= x <= hi] on numbers. *)
Definition between (lo hi : Z) (x : Num.number) : Prop :=
  Num.gt (Num.ofZ lo) x = false /\ Num.gt x (Num.ofZ hi) = false
  /\ Num.isNaN x = false.



(** The redirect depth a call runs at. *)
Definition depthOf (options : ResolveOptions) : nat :=
  orDefault 0%nat (redirectDepth options).

(** The curated artifact of [p] is an alias of [q]: it exists and its
    frontmatter redirects to [q]. *)
Definition Alias (w : World) (p q : string) : Prop :=
  exists c, value (findPageMd w p) = Some c
            /\ redirect (parseFrontmatter c) = Some q.

(** The curated artifact of [p] exists, has no redirect, and has body
    [b]. *)
Definition Page (w : World) (p b : string) : Prop :=
  exists c, value (findPageMd w p) = Some c
            /\ redirect (parseFrontmatter c) = None
            /\ body (parseFrontmatter c) = b.

(** The curated lookup of [path] misses and the live fetch of [path] is
    made and answered: [url] is the fetch URL, on the host of the origin
    [base], and [response] is what comes back. *)
Definition LiveFetch (w : World) (request : Request) (path : string)
    (options : ResolveOptions) (url base : URL) (response : Response) : Prop :=
  value (findPageMd w path) = None
  /\ enableAutoConversion options = true
  /\ newURL w path (Some (baseUrlOf request (config options))) = Some url
  /\ newURL w (baseUrlOf request (config options)) None = Some base
  /\ host url = host base
  /\ fetch w (href url) (fetchHeaders request) = Some response.

(** A fetch made with the internal headers to a URL of the origin: the URL
    is built from some path against the base URL and has the host of the
    base URL. *)
Definition ToOrigin (w : World) (request : Request) (options : ResolveOptions)
    (f : string * list (string * string)) : Prop :=
  exists path url base,
    newURL w path (Some (baseUrlOf request (config options))) = Some url
    /\ newURL w (baseUrlOf request (config options)) None = Some base
    /\ host url = host base
    /\ f = (href url, fetchHeaders request).

(** The request asks for [path]: through the header set by the middleware
    rewrite, or else through the query parameter. *)
Definition TargetPath (request : Request) (path : string) : Prop :=
  path <> ""
  /\ (targetPathHeader request = Some path
      \/ (targetPathHeader request = None /\ pathParam request = Some path)).

(** The response declares a content length above the ceiling. *)
Definition DeclaredTooLong (response : Response) : Prop :=
  exists contentLength,
    rheaders response "content-length" = Some contentLength
    /\ Num.gt (Num.parseInt10 contentLength) (Num.ofZ MAX_HTML_SIZE) = true.

(** The reasons for which a call of [resolveMarkdown] on [path] has nothing
    to serve: the security rejections of the live fetch, the redirect limit,
    and the plain misses. *)
Inductive Unavailable (w : World) (request : Request) (path : string)
    (options : ResolveOptions) : Prop :=
| HostMismatch (url base : URL) :
    value (findPageMd w path) = None ->
    enableAutoConversion options = true ->
    newURL w path (Some (baseUrlOf request (config options))) = Some url ->
    newURL w (baseUrlOf request (config options)) None = Some base ->
    host url <> host base ->
    Unavailable w request path options
| ForeignRedirect (url base : URL) (response : Response) (location : string)
    (redirectUrl : URL) :
    LiveFetch w request path options url base response ->
    300 <= status response < 400 ->
    rheaders response "location" = Some location ->
    newURL w location (Some (href url)) = Some redirectUrl ->
    host redirectUrl <> host base ->
    Unavailable w request path options
| HopBoundAlias (target : string) :
    Alias w path target -> (MAX_REDIRECTS <= depthOf options)%nat ->
    Unavailable w request path options
| HopBoundRedirect (url base : URL) (response : Response) :
    LiveFetch w request path options url base response ->
    300 <= status response < 400 ->
    (MAX_REDIRECTS <= depthOf options)%nat ->
    Unavailable w request path options
| OversizedDeclared (url base : URL) (response : Response) :
    LiveFetch w request path options url base response ->
    ok response = true -> DeclaredTooLong response ->
    Unavailable w request path options
| OversizedBody (url base : URL) (response : Response) (html : string) :
    LiveFetch w request path options url base response ->
    ok response = true -> text response = Some html ->
    MAX_HTML_SIZE < JS.len html ->
    Unavailable w request path options
| MissNoConversion :
    value (findPageMd w path) = None ->
    enableAutoConversion options = false ->
    Unavailable w request path options
| MissFailedStatus (url base : URL) (response : Response) :
    LiveFetch w request path options url base response ->
    400 <= status response ->
    Unavailable w request path options.

(* ================================================================== *)
(** * A small site, for concrete runs *)
(* ================================================================== *)

Module Demo.

Fixpoint lookup {A : Type} (k : string) (l : list (string * A)) : option A :=
  match l with
  | [] => None
  | (k', v) :: l' => if String.eqb k k' then Some v else lookup k l'
  end.

(** An artifact that only redirects. *)
Definition alias (target : string) : string :=
  "---" ++ nl ++ "redirect: " ++ target ++ nl ++ "---" ++ nl.

Definition files : list (string * string) :=
  [ ("/srv/app/pricing/page.md", "# Pricing");
    ("/srv/app/(main)/docs/page.md", "# Docs");
    ("/srv/app/home/page.md", alias "/pricing");
    ("/srv/app/a/page.md", alias "/b");
    ("/srv/app/b/page.md", alias "/c");
    ("/srv/app/c/page.md", "C body");
    ("/srv/app/h0/page.md", alias "/h1");
    ("/srv/app/h1/page.md", alias "/h2");
    ("/srv/app/h2/page.md", alias "/h3");
    ("/srv/app/h3/page.md", alias "/h4");
    ("/srv/app/h4/page.md", "H4 body");
    ("/etc/passwd/page.md", "secret") ].

(** Up to the first [/], and from it on. *)
Fixpoint spanSlash (s : string) : string * string :=
  match s with
  | EmptyString => (EmptyString, EmptyString)
  | String c s' =>
      if Ascii.eqb c "/" then (EmptyString, s)
      else let (h, p) := spanSlash s' in (String c h, p)
  end.

(** An absolute [http:] URL. *)
Definition absolute (input : string) : option URL :=
  if JS.startsWith input "http://" then
    let (h, p) := spanSlash (JS.drop 7 input) in
    let p' := if String.eqb p "" then "/" else p in
    Some {| href := "http://" ++ h ++ p'; host := h; pathname := p' |}
  else None.

(** [new URL(input, base)] for absolute [http:] URLs and root-relative
    references; everything else throws. *)
Definition parseURL (input : string) (base : option string) : option URL :=
  match absolute input with
  | Some u => Some u
  | None =>
      match base with
      | Some b =>
          match absolute b with
          | Some bu =>
              if JS.startsWith input "/" then
                Some {| href := "http://" ++ host bu ++ input;
                        host := host bu; pathname := input |}
              else None
          | None => None
          end
      | None => None
      end
  end.

Definition headersOf (l : list (string * string)) (name : string)
  : option string := lookup name l.

(** [s] followed by itself, [n] times over: [2^n] copies of [s]. *)
Fixpoint doubled (n : nat) (s : string) : string :=
  match n with
  | O => s
  | S n' => doubled n' (s ++ s)
  end.

(** A body of [2^23] characters, above the ceiling. *)
Definition bigBody : string := doubled 23 "a".

Definition pages : list (string * Response) :=
  [ ("http://site.test/about",
     {| status := 200; rheaders := headersOf [];
        text := Some "<main>About</main>" |});
    ("http://site.test/out",
     {| status := 302;
        rheaders := headersOf [("location", "http://evil.test/steal")];
        text := Some "" |});
    ("http://site.test/old",
     {| status := 301; rheaders := headersOf [("location", "/pricing")];
        text := Some "" |});
    ("http://site.test/huge",
     {| status := 200; rheaders := headersOf [("content-length", "99999999")];
        text := Some "<main>Huge</main>" |});
    ("http://site.test/blank",
     {| status := 200; rheaders := headersOf [];
        text := Some (" " ++ nl ++ " ") |});
    ("http://site.test/big",
     {| status := 200; rheaders := headersOf []; text := Some bigBody |}) ].

Definition notFound : Response :=
  {| status := 404; rheaders := headersOf []; text := Some "Not Found" |}.

Definition world : World :=
  {| cwd := "/srv";
     readFile := fun p => lookup p files;
     readdir := fun d =>
       if String.eqb d "/srv/app"
       then Some ["(main)"; "pricing"; "home"; "a"; "b"; "c"; "layout.tsx"]
       else None;
     newURL := parseURL;
     fetch := fun url _ =>
       Some match lookup url pages with Some r => r | None => notFound end;
     htmlToMarkdown := fun html => Some ("md:" ++ html) |}.

Definition request : Request :=
  {| targetPathHeader := Some "/out";
     pathParam := None;
     cookie := Some "session=42";
     nextUrl_protocol := "http:";
     nextUrl_host := "site.test" |}.

Definition options : ResolveOptions :=
  {| enableAutoConversion := true; config := None; redirectDepth := None |}.

(** The fetch URL of a path of the site, the origin, and the response of the
    site to the fetch of a path. *)
Definition urlOf (path : string) : URL :=
  {| href := "http://site.test" ++ path; host := "site.test";
     pathname := path |}.

Definition origin : URL :=
  {| href := "http://site.test/"; host := "site.test"; pathname := "/" |}.

Definition responseOf (path : string) : Response :=
  match lookup ("http://site.test" ++ path) pages with
  | Some r => r
  | None => notFound
  end.

End Demo.

(* ================================================================== *)
(** * [src/discovery.ts] *)
(* ================================================================== *)

(** A double quote, as a string. *)
Definition dq : string := String "034"%char "".

(** Add a [Link] header pointing to the markdown alternate of the current
    page.  The response is only known through [response.headers.set]: the
    result is the call the function makes on it, name and value, or [None]
    when it makes none.  Skips [.md] paths, [/api/], [/_next/] and
    [/trpc/]. *)
Definition addDiscoveryHeaders (pathname : string) : option (string * string) :=
  if JS.endsWith pathname ".md"
     || JS.startsWith pathname "/api/"
     || JS.startsWith pathname "/_next/"
     || JS.startsWith pathname "/trpc/"
  then None
  else
    let mdPath :=
      if String.eqb pathname "/" then "/index.md" else pathname ++ ".md" in
    Some ("Link",
          "<" ++ mdPath ++ ">; rel=" ++ dq ++ "alternate" ++ dq
          ++ "; type=" ++ dq ++ "text/markdown" ++ dq).

(* ================================================================== *)
(** * [src/middleware.ts] *)
(* ================================================================== *)

(** Internal route path for the markdown handler ([src/constants.ts]). *)
Definition GEO_ROUTE : string := "/api/geo".

(** Default paths to exclude from LLM detection ([src/constants.ts]). *)
Definition DEFAULT_EXCLUDE_PATHS : list string :=
  [ "/api/*"; "/trpc/*"; "/_next/*"; "/monitoring*" ].

(** A [Headers] object, as the map that [get] reads: from lower-case header
    names to values. *)
Definition Headers : Type := string -> option string.

(** [headers.get(name)]: header names are matched without regard to
    case. *)
Definition headersGet (h : Headers) (name : string) : option string :=
  h (JS.toLowerCase name).

(** [new Headers({ ...Object.fromEntries(headers), [name]: value })]: the
    entries of [headers], the one of [name] replaced by [value]. *)
Definition headersWith (h : Headers) (name value : string) : Headers :=
  fun n => if String.eqb n (JS.toLowerCase name) then Some value else h n.

(** The incoming request, as far as the middleware looks at it:
    [request.headers] and [request.nextUrl.pathname]. *)
Record MiddlewareRequest : Type := {
  reqHeaders : Headers;
  reqPathname : string
}.

(** The [GeoConfig] fields the middleware reads ([src/types.ts]). *)
Record MiddlewareConfig : Type := {
  excludePaths : option (list string);
  botUserAgents : option (list string);      (* additionalBotUserAgents *)
  mdSuffix : option bool;                    (* enableMdSuffix *)
  userAgentDetection : option bool           (* enableUserAgentDetection *)
}.

(** What [NextResponse.rewrite] is called with, and the header set on its
    result: the pathname of the rewrite URL, its [path] search parameter,
    the request headers handed to the route, and the [Vary] header of the
    response. *)
Record Rewrite : Type := {
  rewritePathname : string;
  rewritePathParam : string;
  rewriteRequestHeaders : Headers;
  rewriteVary : string
}.

Fixpoint isExcluded (pathname : string) (patterns : list string) : bool :=
  match patterns with
  | [] => false
  | pattern :: rest =>
      if JS.endsWith pattern "*" then
        let prefix := JS.slice pattern 0 (-1) in
        if JS.startsWith pathname prefix then true
        else isExcluded pathname rest
      else if String.eqb pathname pattern then true
      else isExcluded pathname rest
  end.

(** The function returned by [createGeoMiddleware(config)]: detects LLM
    requests and rewrites them to the internal markdown handler.  Returns
    null for non-LLM requests. *)
Definition geoMiddleware (config : option MiddlewareConfig)
    (request : MiddlewareRequest) : option Rewrite :=
  let excludePaths :=
    orDefault DEFAULT_EXCLUDE_PATHS
      (match config with Some c => excludePaths c | None => None end) in
  let additionalBotUserAgents :=
    orDefault []
      (match config with Some c => botUserAgents c | None => None end) in
  let enableMdSuffix :=
    orDefault true
      (match config with Some c => mdSuffix c | None => None end) in
  let enableUserAgentDetection :=
    orDefault true
      (match config with Some c => userAgentDetection c | None => None end) in
  (* Skip internal fetches to prevent loops *)
  match whenTruthy (headersGet (reqHeaders request) INTERNAL_FETCH_HEADER) with
  | Some _ => None
  | None =>
      let pathname := reqPathname request in
      (* Skip excluded paths *)
      if isExcluded pathname excludePaths then None
      else
        let accept := headersGet (reqHeaders request) "accept" in
        let userAgent := headersGet (reqHeaders request) "user-agent" in
        let signal :=
          detectLlmSignal pathname accept userAgent
            (Some {| enableMdSuffix := Some enableMdSuffix;
                     enableUserAgentDetection := Some enableUserAgentDetection;
                     additionalBotUserAgents := Some additionalBotUserAgents |}) in
        match signal with
        | None => None
        | Some sig =>
            (* Determine the original path to serve markdown for *)
            let targetPath :=
              match sig with
              | MdSuffix originalPath => originalPath
              | _ => pathname
              end in
            Some {| rewritePathname := GEO_ROUTE;
                    rewritePathParam := targetPath;
                    rewriteRequestHeaders :=
                      headersWith (reqHeaders request) "x-llm-target-path"
                        targetPath;
                    rewriteVary := "Accept, User-Agent" |}
        end
  end.

(* ================================================================== *)
(** * Further predicates of the statements *)
(* ================================================================== *)

(** The options [geoMiddleware] hands to [detectLlmSignal]. *)
Definition detectOptionsOf (config : option MiddlewareConfig) : DetectOptions :=
  {| enableMdSuffix :=
       Some (orDefault true
               (match config with Some c => mdSuffix c | None => None end));
     enableUserAgentDetection :=
       Some (orDefault true
               (match config with
                | Some c => userAgentDetection c
                | None => None
                end));
     additionalBotUserAgents :=
       Some (orDefault []
               (match config with Some c => botUserAgents c | None => None end)) |}.

(** The paths the middleware leaves alone. *)
Definition excludedOf (config : option MiddlewareConfig) : list string :=
  orDefault DEFAULT_EXCLUDE_PATHS
    (match config with Some c => excludePaths c | None => None end).

(** [pathname] falls under [pattern]: a pattern ending in [*] stands for
    the paths that begin with what precedes the [*], any other pattern for
    itself. *)
Definition Covers (pattern pathname : string) : Prop :=
  (exists prefix, pattern = (prefix ++ "*")%string /\ StartsWith pathname prefix)
  \/ (~ EndsWith pattern "*" /\ pathname = pattern).

(** The path a signal makes the middleware serve. *)
Definition targetOf (sig : LlmSignal) (pathname : string) : string :=
  match sig with
  | MdSuffix originalPath => originalPath
  | _ => pathname
  end.

(** [x] is the first element of [xs] that satisfies [P]. *)
Definition FirstWith {A : Type} (P : A -> Prop) (xs : list A) (x : A) : Prop :=
  exists pre post,
    xs = (pre ++ x :: post)%list /\ Forall (fun y => ~ P y) pre /\ P x.

(** User-agent detection is enabled: the default, unless the options turn
    it off. *)
Definition agentEnabled (options : option DetectOptions) : Prop :=
  forall o, options = Some o -> enableUserAgentDetection o <> Some false.

(** The patterns the user agent is compared with: the built-in ones, then
    the additional ones of the options. *)
Definition patternsOf (options : option DetectOptions) : list string :=
  (BOT_USER_AGENTS
   ++ match options with
      | Some o =>
          match additionalBotUserAgents o with Some l => l | None => [] end
      | None => []
      end)%list.

(** The accept header asks for markdown with quality [q]: the first of its
    comma-separated entries that names the media type declares [q], and [q]
    is positive. *)
Definition AcceptsMarkdown (accept : string) (q : Num.number) : Prop :=
  exists e,
    FirstWith NamesMarkdown (JS.split "," accept) e
    /\ q = declaredQuality e /\ Num.gt q (Num.ofZ 0) = true.

(** Sample traffic for the middleware. *)
Module Traffic.

(** [new Headers(entries)] for entries with distinct names. *)
Definition headersOfList (entries : list (string * string)) : Headers :=
  fun n => Demo.lookup n (map (fun e => (JS.toLowerCase (fst e), snd e)) entries).

(** The request the internal fetch of the handler makes for [pathname], as
    the middleware receives it. *)
Definition internal (pathname : string) : MiddlewareRequest :=
  {| reqHeaders := headersOfList (fetchHeaders Demo.request);
     reqPathname := pathname |}.

(** A crawler that asks for a page, trying to name another target. *)
Definition crawler : MiddlewareRequest :=
  {| reqHeaders :=
       headersOfList [("User-Agent", "Mozilla/5.0 (compatible; GPTBot/1.0)");
                      ("Accept", "*/*");
                      ("X-LLM-Target-Path", "/admin/secrets")];
     reqPathname := "/pricing" |}.

(** The rewrite of the crawler's request. *)
Definition crawlerRewrite : Rewrite :=
  {| rewritePathname := "/api/geo";
     rewritePathParam := "/pricing";
     rewriteRequestHeaders :=
       headersWith (reqHeaders crawler) "x-llm-target-path" "/pricing";
     rewriteVary := "Accept, User-Agent" |}.

(** A request for the markdown alternate of a page. *)
Definition alternate : MiddlewareRequest :=
  {| reqHeaders := headersOfList [("Accept", "text/html")];
     reqPathname := "/docs/intro.md" |}.

(** What the route handler receives after the rewrite [rw]: its headers,
    and the URL of the original request. *)
Definition routed (rw : Rewrite) (query : option string) : Request :=
  {| targetPathHeader := headersGet (rewriteRequestHeaders rw) "x-llm-target-path";
     pathParam := query;
     cookie := headersGet (rewriteRequestHeaders rw) "cookie";
     nextUrl_protocol := "http:";
     nextUrl_host := "site.test" |}.

End Traffic.

(** File-system events. *)
Definition isFsEvent (e : event) : bool :=
  match e with
  | EvReadFile _ | EvReaddir _ => true
  | _ => false
  end.

(** The base directory of the curated artifacts. *)
Definition appDirOf (w : World) : string := Path.join [cwd w; "app"].

(** [p] is [dir] or lies under it. *)
Definition Within (dir p : string) : Prop :=
  p = dir \/ StartsWith p (dir ++ "/").

(** A segment that path normalisation keeps as it is: not empty, not [.],
    not [..], and free of [/]. *)
Definition Plain (seg : string) : Prop :=
  seg <> "" /\ seg <> "." /\ seg <> ".." /\ ~ Contains seg "/".

(** What the loop of [path.resolve] puts after the absolute argument it
    stops at: the later arguments, empty ones left out, each followed by a
    [/]. *)
Definition suffixPath (args : list string) (acc : string) : string :=
  fold_right
    (fun p acc => if String.eqb p "" then acc else (p ++ "/" ++ acc)%string)
    acc args.

(* ================================================================== *)
(** * [src/llms-txt.ts] *)
(* ================================================================== *)

(** Convert a filesystem relative path to a URL path.  Strips route group
    prefixes like [(main-layout)]. *)
Definition routePathToUrl (relativePath : string) : string :=
  if negb (JS.truthy relativePath) then "/"
  else
    let segments :=
      filter (fun s => negb (JS.startsWith s "(") || negb (JS.endsWith s ")"))
        (JS.split "/" relativePath) in
    "/" ++ JS.join "/" segments.

(** ** The regular expression of [extractTitle] *)

Module ReM.

(** [cls+], greedy. *)
Definition plus {A : Type} (cls : ascii -> bool) (k : string -> option A)
    (s : string) : option A :=
  match s with
  | String c s' => if cls c then Re.star cls k s' else None
  | EmptyString => None
  end.

(** [(cls+)], greedy and capturing: the longest run first, then one less
    at a time; [acc] is what has been captured so far. *)
Fixpoint plusGreedy {A : Type} (cls : ascii -> bool)
    (k : string -> string -> option A) (acc s : string) : option A :=
  match s with
  | String c s' =>
      if cls c then
        let acc' := (acc ++ String c EmptyString)%string in
        match plusGreedy cls k acc' s' with
        | Some r => Some r
        | None => k acc' s'
        end
      else None
  | EmptyString => None
  end.

(** [$] with the multiline flag: the end of the input, or the position
    before a line terminator. *)
Definition eol {A : Type} (r : A) (s : string) : option A :=
  match s with
  | EmptyString => Some r
  | String c _ => if JS.isLineTerminator c then Some r else None
  end.

(** The search for the leftmost match of a pattern that begins with [^]
    under the multiline flag: the pattern [m] is tried at the start of the
    input and after each line terminator. *)
Fixpoint search {A : Type} (m : string -> option A) (lineStart : bool)
    (s : string) : option A :=
  match (if lineStart then m s else None) with
  | Some r => Some r
  | None =>
      match s with
      | EmptyString => None
      | String c s' => search m (JS.isLineTerminator c) s'
      end
  end.

End ReM.

(** [markdown.match(/^#\s+(.+)$/m)], giving [match[1]]. *)
Definition matchHeading (markdown : string) : option string :=
  ReM.search
    (Re.lit "#"
       (ReM.plus JS.isWhiteSpace
          (ReM.plusGreedy Re.dot (fun captured => ReM.eol captured) "")))
    true markdown.

(** Extract the first [# Heading] from markdown content. *)
Definition extractTitle (markdown : string) : option string :=
  match matchHeading markdown with
  | Some captured => Some (JS.trim captured)
  | None => None
  end.

(** The loop of [extractDescription] over the lines. *)
Fixpoint firstParagraph (lines : list string) : option string :=
  match lines with
  | [] => None
  | line :: rest =>
      let trimmed := JS.trim line in
      if negb (JS.truthy trimmed) then firstParagraph rest
      else if JS.startsWith trimmed "#" then firstParagraph rest
      else if JS.startsWith trimmed ">" then firstParagraph rest
      else if JS.startsWith trimmed "-" || JS.startsWith trimmed "*"
      then firstParagraph rest
      else if JS.startsWith trimmed "```" then firstParagraph rest
      else if JS.startsWith trimmed "---" then firstParagraph rest
      else (* Return the first paragraph-like line *) Some trimmed
  end.

(** Extract the first paragraph (non-heading, non-empty line) from
    markdown. *)
Definition extractDescription (markdown : string) : option string :=
  firstParagraph (JS.split LF markdown).

(** The loop of [readPageMd] over the route groups. *)
Fixpoint readRouteGroups (w : World) (appDir : string) (segments : list string)
    (routeGroups : list string) : M (option string) :=
  match routeGroups with
  | [] => ret None
  | group :: rest =>
      let groupPath :=
        Path.resolve (cwd w) ([appDir; group] ++ segments ++ ["page.md"]) in
      if negb (isPathWithinDirectory groupPath appDir) then
        readRouteGroups w appDir segments rest
      else
        content <- tryReadFile w groupPath ;;
        match whenTruthy content with
        | Some c => ret (Some c)
        | None => readRouteGroups w appDir segments rest
        end
  end.

(** Read a page.md file for a given URL path, checking route groups. *)
Definition readPageMd (w : World) (appDir urlPath : string)
  : M (option string) :=
  let normalizedPath :=
    if String.eqb urlPath "/" then "" else stripLeadingSlash urlPath in
  let segments :=
    if JS.truthy normalizedPath then JS.split "/" normalizedPath else [] in
  (* Guard against path traversal *)
  if JS.some (fun s => String.eqb s ".." || String.eqb s ".") segments
  then ret None
  else
    (* Try direct path *)
    let directPath := Path.resolve (cwd w) ([appDir] ++ segments ++ ["page.md"]) in
    if negb (isPathWithinDirectory directPath appDir) then ret None
    else
      direct <- tryReadFile w directPath ;;
      match whenTruthy direct with
      | Some c => ret (Some c)
      | None =>
          (* Try with route groups at top level *)
          emit (EvReaddir appDir) ;;;
          match readdir w appDir with
          | None => ret None
          | Some topDirs =>
              let routeGroups :=
                filter (fun d => JS.startsWith d "(" && JS.endsWith d ")")
                  topDirs in
              readRouteGroups w appDir segments routeGroups
          end
    end.

(** A route group: a segment in parentheses. *)
Definition RouteGroup (s : string) : Prop :=
  StartsWith s "(" /\ EndsWith s ")".

(** A line that can serve as a description: trimmed, it is not empty and
    begins with none of [#], [>], [-], [*] and three backquotes. *)
Definition Paragraph (line : string) : Prop :=
  let t := JS.trim line in
  t <> "" /\ ~ StartsWith t "#" /\ ~ StartsWith t ">" /\ ~ StartsWith t "-"
  /\ ~ StartsWith t "*" /\ ~ StartsWith t "```".

(* ================================================================== *)
(** * [src/config.ts] *)
(* ================================================================== *)

Module Config.

(** A header of the Next.js configuration, and an entry of its [headers]
    list: a source pattern with its headers, if it has any. *)
Record Header : Type := {
  key : string;
  value : string
}.

Record Entry : Type := {
  source : string;
  headers : option (list Header)
}.

(** [xs.findIndex(p)]; [None] stands for -1. *)
Fixpoint findIndex {A : Type} (p : A -> bool) (xs : list A) : option nat :=
  match xs with
  | [] => None
  | x :: xs' =>
      if p x then Some 0%nat
      else match findIndex p xs' with
           | Some i => Some (S i)
           | None => None
           end
  end.

(** [xs[i] = x], for an index inside the list. *)
Fixpoint setAt {A : Type} (i : nat) (x : A) (xs : list A) : list A :=
  match xs, i with
  | [], _ => []
  | _ :: xs', O => x :: xs'
  | y :: xs', S i' => y :: setAt i' x xs'
  end.

Definition varyHeader : Header := {| key := "Vary"; value := "Accept" |}.

Definition isVary (h : Header) : bool :=
  String.eqb (JS.toLowerCase (key h)) "vary".

Definition isCatchAll (h : Entry) : bool := String.eqb (source h) "/:path*".

(** [current.value.split(",").map((v) => v.trim().toLowerCase())] *)
Definition varyValues (current : Header) : list string :=
  map (fun v => JS.toLowerCase (JS.trim v)) (JS.split "," (value current)).

(** What [wrappedHeaders] does to the catch-all entry it has found. *)
Definition mergeVary (entry : Entry) : Entry :=
  let varyIndex :=
    match headers entry with
    | Some hs => findIndex isVary hs
    | None => None
    end in
  match varyIndex, headers entry with
  | Some i, Some hs =>
      match nth_error hs i with
      | Some current =>
          (* Merge Accept into existing Vary header if not already present *)
          if existsb (String.eqb "accept") (varyValues current) then entry
          else
            {| source := source entry;
               headers :=
                 Some (setAt i {| key := key current;
                                  value := value current ++ ", Accept" |} hs) |}
      | None => entry
      end
  | _, _ =>
      {| source := source entry;
         headers :=
           Some ((match headers entry with Some hs => hs | None => [] end)
                 ++ [varyHeader])%list |}
  end.

(** The [headers] function of the configuration returned by [withGeo]:
    [existing] is what the headers of the wrapped configuration give, the
    empty list when it has none. *)
Definition wrappedHeaders (existing : list Entry) : list Entry :=
  (* Find or create the catch-all source entry *)
  match findIndex isCatchAll existing with
  | Some catchAllIndex =>
      match nth_error existing catchAllIndex with
      | Some entry => setAt catchAllIndex (mergeVary entry) existing
      | None => existing
      end
  | None =>
      (existing ++ [{| source := "/:path*"; headers := Some [varyHeader] |}])%list
  end.

(** The entry makes responses vary on Accept: its first Vary header, the
    key compared without regard to case, lists [accept] among its
    comma-separated values, trimmed and compared without regard to
    case. *)
Definition VariesOnAccept (entry : Entry) : Prop :=
  exists hs i h,
    headers entry = Some hs /\ findIndex isVary hs = Some i
    /\ nth_error hs i = Some h
    /\ In "accept" (varyValues h).

End Config.

(* ================================================================== *)
(** * [src/convert.ts] *)
(* ================================================================== *)

Module Html.

(** A literal under the [i] flag: code units are compared after case
    canonicalisation. *)
Fixpoint litCI {A : Type} (l : string) (k : string -> option A) (s : string)
  : option A :=
  match l with
  | EmptyString => k s
  | String p l' =>
      match s with
      | String c s' =>
          if Ascii.eqb (JS.lowerChar c) (JS.lowerChar p) then litCI l' k s'
          else None
      | EmptyString => None
      end
  end.

(** [(cls*?)], lazy and capturing: nothing first, then one more character
    at a time; [acc] is what has been captured so far. *)
Fixpoint starLazy {A : Type} (cls : ascii -> bool)
    (k : string -> string -> option A) (acc s : string) : option A :=
  match k acc s with
  | Some r => Some r
  | None =>
      match s with
      | String c s' =>
          if cls c then starLazy cls k (acc ++ String c EmptyString)%string s'
          else None
      | EmptyString => None
      end
  end.

(** The search for the leftmost match: the pattern [m] is tried at each
    offset in turn. *)
Fixpoint search {A : Type} (m : string -> option A) (s : string) : option A :=
  match m s with
  | Some r => Some r
  | None =>
      match s with
      | EmptyString => None
      | String _ s' => search m s'
      end
  end.

Definition notGt (c : ascii) : bool := negb (Ascii.eqb c ">").

Definition any (c : ascii) : bool := true.

(** The replacement of a run of [n] line feeds by
    [replace(/\n{3,}/g, "\n\n")]: runs of three and more become two. *)
Definition run (n : nat) : string :=
  if (3 <=? n)%nat then String LF (String LF "")
  else match n with
       | 2%nat => String LF (String LF "")
       | 1%nat => String LF ""
       | _ => ""
       end.

(** [s.replace(/\n{3,}/g, "\n\n")], reading [s] after a run of [pending]
    line feeds. *)
Fixpoint collapseFrom (pending : nat) (s : string) : string :=
  match s with
  | EmptyString => run pending
  | String c s' =>
      if Ascii.eqb c LF then collapseFrom (S pending) s'
      else (run pending ++ String c (collapseFrom 0 s'))%string
  end.

Definition collapse (s : string) : string := collapseFrom 0 s.

End Html.

(** The functions of [src/convert.ts]. *)
Module Convert.

(** [html.match(new RegExp(`<${tag}[^>]*>([\\s\\S]*?)<\\/${tag}>`, "i"))],
    giving [match[1]], for a tag name without regular-expression
    syntax. *)
Definition matchElement (html tag : string) : option string :=
  Html.search
    (Html.litCI ("<" ++ tag)
       (Re.star Html.notGt
          (Re.lit ">"
             (Html.starLazy Html.any
                (fun captured =>
                   Html.litCI ("</" ++ tag ++ ">") (fun _ => Some captured))
                ""))))
    html.

(** Match the outermost element of the given tag. *)
Definition extractElement (html tag : string) : option string :=
  matchElement html tag.

(** [markdown.match(/^# /m)], as a test. *)
Definition hasH1 (markdown : string) : bool :=
  match ReM.search (Re.lit "# " (fun _ => Some tt)) true markdown with
  | Some _ => true
  | None => false
  end.

(** Convert an HTML string to clean markdown.  Extracts [<main>] or
    [<article>] content preferentially, falls back to [<body>].  Extracts
    [<title>] and prepends as [#] heading if no h1 exists.  [turndown] is
    the call of the Turndown service, [None] when it throws. *)
Definition htmlToMarkdown (turndown : string -> option string) (html : string)
  : option string :=
  (* Extract title: /<title[^>]*>(.*?)<\/title>/is *)
  let titleMatch := matchElement html "title" in
  let title :=
    match titleMatch with Some t => Some (JS.trim t) | None => None end in
  (* Try to extract main content area *)
  let contentHtml := whenTruthy (extractElement html "main") in
  let contentHtml :=
    match contentHtml with
    | Some c => Some c
    | None => whenTruthy (extractElement html "article")
    end in
  let contentHtml :=
    match contentHtml with
    | Some c => Some c
    | None => whenTruthy (extractElement html "body")
    end in
  let contentHtml :=
    match contentHtml with Some c => c | None => html end in
  match turndown contentHtml with
  | None => None
  | Some markdown =>
      (* Clean up excessive whitespace *)
      let markdown := JS.trim (Html.collapse markdown) in
      (* Prepend title as h1 if no h1 exists in the markdown *)
      match whenTruthy title with
      | Some title =>
          if negb (hasH1 markdown)
          then Some ("# " ++ title ++ nl ++ nl ++ markdown)
          else Some markdown
      | None => Some markdown
      end
  end.

End Convert.

(** [s] begins with [l], letter case apart. *)
Definition StartsWithCI (s l : string) : Prop :=
  exists m rest,
    s = (m ++ rest)%string /\ JS.toLowerCase m = JS.toLowerCase l.

(** [html] has an element of [tag] with content [c]: after [pre], an
    opening tag with the attribute text [attrs], then [c], then the first
    closing tag that follows the opening one, then [post].  Tag names are
    compared without regard to case. *)
Definition ElementAt (html tag pre attrs c post : string) : Prop :=
  exists open close,
    html = (pre ++ open ++ attrs ++ ">" ++ c ++ close ++ post)%string
    /\ JS.toLowerCase open = JS.toLowerCase ("<" ++ tag)
    /\ JS.toLowerCase close = JS.toLowerCase ("</" ++ tag ++ ">")
    /\ ~ Contains attrs ">"
    /\ (forall c1 c2, c = (c1 ++ c2)%string -> c2 <> "" ->
          ~ StartsWithCI (c2 ++ close ++ post) ("</" ++ tag ++ ">")).


(* ================================================================== *)
(** * [src/llms-txt.ts]: discovery, the two handlers and their caches *)
(* ================================================================== *)

From Stdlib Require Import DecimalString Sorted.

Module Llms.

(** [LlmsTxtEntry] and [LlmsTxtConfig] of [src/types.ts].  Times and
    durations are integers, in milliseconds and in seconds. *)
Record LlmsTxtEntry : Type := {
  path : string;
  title : string;
  description : option string
}.

Record LlmsTxtConfig : Type := {
  siteTitle : string;
  siteDescription : option string;
  baseUrl : string;
  entries : option (list LlmsTxtEntry);
  cacheTtlSeconds : option Z;
  appDir : option string
}.

Record CacheEntry : Type := {
  content : string;
  expiresAt : Z
}.

(** The two module-level variables. *)
Record Caches : Type := {
  llmsTxtCache : option CacheEntry;
  llmsFullTxtCache : option CacheEntry
}.

(** Clear the in-memory cache (useful for testing). *)
Definition clearLlmsTxtCache (caches : Caches) : Caches :=
  {| llmsTxtCache := None; llmsFullTxtCache := None |}.

(** A response of the two handlers: status, body and headers. *)
Definition textResponse (content : string) (cacheTtlSeconds : Z)
  : HttpResponse :=
  {| code := 200;
     payload := content;
     headersOut :=
       [("Content-Type", "text/plain; charset=utf-8");
        ("Cache-Control",
         "public, max-age=" ++ NilZero.string_of_int (Z.to_int cacheTtlSeconds))] |}.

(** The entry [discoverPageMdFiles] makes of a page.md, if it makes one. *)
Definition entryOf (relativePath content : string) : list LlmsTxtEntry :=
  let fm := parseFrontmatter content in
  (* Skip redirect-only pages (no meaningful body) to avoid alias
     duplicates *)
  let isRedirectOnly :=
    match whenTruthy (redirect fm) with
    | Some _ => negb (JS.truthy (JS.trim (body fm)))
    | None => false
    end in
  if negb isRedirectOnly then
    let urlPath := routePathToUrl relativePath in
    let title :=
      match extractTitle (body fm) with
      | Some t => t
      | None => if String.eqb urlPath "/" then "Home" else urlPath
      end in
    let description := extractDescription (body fm) in
    [{| path := if JS.truthy urlPath then urlPath else "/";
        title := title;
        description := description |}]
  else [].

(** [relativePath ? `${relativePath}/${name}` : name] *)
Definition childPath (relativePath name : string) : string :=
  if JS.truthy relativePath then (relativePath ++ "/" ++ name)%string else name.

(** The loop of [discoverPageMdFiles] over the names of a directory:
    [recurse] is the recursive call, [entries] what has been found so
    far. *)
Fixpoint discoverChildren (recurse : string -> M (result (list LlmsTxtEntry)))
    (isDirectory : string -> option bool) (appDir relativePath : string)
    (names : list string) (entries : list LlmsTxtEntry)
  : M (result (list LlmsTxtEntry)) :=
  match names with
  | [] => ret (Done entries)
  | name :: rest =>
      (* Skip Next.js internal directories and API routes *)
      if JS.startsWith name "_" || String.eqb name "api"
         || String.eqb name "node_modules"
      then discoverChildren recurse isDirectory appDir relativePath rest entries
      else
        let childPath := childPath relativePath name in
        let fullPath := Path.join [appDir; childPath] in
        (* Check if it's a directory (skip files) *)
        match isDirectory fullPath with
        | Some true =>
            childEntries <- recurse childPath ;;
            match childEntries with
            | Done childEntries =>
                discoverChildren recurse isDirectory appDir relativePath rest
                  (entries ++ childEntries)%list
            | OutOfFuel => ret OutOfFuel
            end
        | _ =>
            discoverChildren recurse isDirectory appDir relativePath rest entries
        end
  end.

(** Recursively discover [page.md] files in the Next.js app directory.
    [isDirectory p] is [(await stat(p)).isDirectory()], [None] when [stat]
    throws; calls of [stat] are not logged.  [fuel] bounds the depth of
    the recursion in the model. *)
Fixpoint discoverPageMdFiles (fuel : nat) (w : World)
    (isDirectory : string -> option bool) (appDir relativePath : string)
  : M (result (list LlmsTxtEntry)) :=
  match fuel with
  | O => ret OutOfFuel
  | S fuel' =>
      let currentDir := Path.join [appDir; relativePath] in
      emit (EvReaddir currentDir) ;;;
      match readdir w currentDir with
      | None => ret (Done [])
      | Some dirEntries =>
          (* Check for page.md in current directory *)
          here <-
            (if existsb (String.eqb "page.md") dirEntries then
               let filePath := Path.join [currentDir; "page.md"] in
               content <- tryReadFile w filePath ;;
               match whenTruthy content with
               | Some content => ret (entryOf relativePath content)
               | None => ret []
               end
             else ret []) ;;
          (* Recurse into subdirectories *)
          discoverChildren (discoverPageMdFiles fuel' w isDirectory appDir)
            isDirectory appDir relativePath dirEntries here
      end
  end.

(** [byPath.set(entry.path, entry)] on the entries of a [Map], kept in
    insertion order. *)
Fixpoint mapSet (byPath : list LlmsTxtEntry) (entry : LlmsTxtEntry)
  : list LlmsTxtEntry :=
  match byPath with
  | [] => [entry]
  | e :: rest =>
      if String.eqb (path e) (path entry) then entry :: rest
      else e :: mapSet rest entry
  end.

(** [xs.sort((a, b) => a.path.localeCompare(b.path))]: the sort is stable;
    [localeCompare] is the comparison of the host, negative, zero or
    positive. *)
Fixpoint insertSorted (localeCompare : string -> string -> Z)
    (x : LlmsTxtEntry) (sorted : list LlmsTxtEntry) : list LlmsTxtEntry :=
  match sorted with
  | [] => [x]
  | y :: rest =>
      if 0 <? localeCompare (path x) (path y)
      then y :: insertSorted localeCompare x rest
      else x :: sorted
  end.

Definition sortByPath (localeCompare : string -> string -> Z)
    (xs : list LlmsTxtEntry) : list LlmsTxtEntry :=
  fold_right (insertSorted localeCompare) [] xs.

(** Gather all entries: auto-discovered [page.md] files + manual
    entries. *)
Definition gatherEntries (fuel : nat) (w : World)
    (isDirectory : string -> option bool)
    (localeCompare : string -> string -> Z) (config : LlmsTxtConfig)
  : M (result (list LlmsTxtEntry)) :=
  let appDir := orDefault (Path.join [cwd w; "app"]) (appDir config) in
  discovered <- discoverPageMdFiles fuel w isDirectory appDir "" ;;
  match discovered with
  | OutOfFuel => ret OutOfFuel
  | Done discovered =>
      let manual := orDefault [] (entries config) in
      (* Merge: manual entries override discovered entries by path *)
      let byPath := fold_left mapSet discovered [] in
      let byPath := fold_left mapSet manual byPath in
      ret (Done (sortByPath localeCompare byPath))
  end.

(** Format entries into the llmstxt.org spec format. *)
Definition formatLlmsTxt (config : LlmsTxtConfig)
    (entries : list LlmsTxtEntry) : string :=
  let lines := ["# " ++ siteTitle config] in
  let lines :=
    match whenTruthy (siteDescription config) with
    | Some d => (lines ++ [(nl ++ "> " ++ d)%string])%list
    | None => lines
    end in
  let lines :=
    if (0 <? List.length entries)%nat then
      (lines ++ [(nl ++ "## Pages" ++ nl)%string]
       ++ map (fun entry =>
                 let url := (baseUrl config ++ path entry)%string in
                 let desc :=
                   match whenTruthy (description entry) with
                   | Some d => (": " ++ d)%string
                   | None => ""
                   end in
                 ("- [" ++ title entry ++ "](" ++ url ++ ")" ++ desc)%string)
            entries)%list
    else lines in
  JS.join nl lines ++ nl.

(** The [GET] of [createLlmsTxtHandler(config)], called at time [now] with
    the module-level caches [caches]; it returns the response and the
    caches it leaves. *)
Definition llmsTxtGET (fuel : nat) (w : World)
    (isDirectory : string -> option bool)
    (localeCompare : string -> string -> Z) (config : LlmsTxtConfig)
    (now : Z) (caches : Caches) : M (result (HttpResponse * Caches)) :=
  let httpTtl := orDefault 3600 (cacheTtlSeconds config) in
  let cacheTtl := httpTtl * 1000 in
  let fresh :=
    match llmsTxtCache caches with
    | Some c => if now <? expiresAt c then Some c else None
    | None => None
    end in
  match fresh with
  | Some c => ret (Done (textResponse (content c) httpTtl, caches))
  | None =>
      entries <- gatherEntries fuel w isDirectory localeCompare config ;;
      match entries with
      | OutOfFuel => ret OutOfFuel
      | Done entries =>
          let content := formatLlmsTxt config entries in
          ret (Done (textResponse content httpTtl,
                     {| llmsTxtCache :=
                          Some {| content := content;
                                  expiresAt := now + cacheTtl |};
                        llmsFullTxtCache := llmsFullTxtCache caches |}))
      end
  end.

(** The loop of the full handler over the entries. *)
Fixpoint fullSections (w : World) (appDir : string)
    (entries : list LlmsTxtEntry) (sections : list string)
  : M (list string) :=
  match entries with
  | [] => ret sections
  | entry :: rest =>
      md <- readPageMd w appDir (path entry) ;;
      match whenTruthy md with
      | Some md =>
          fullSections w appDir rest
            (sections ++ [(nl ++ "---" ++ nl ++ nl ++ JS.trim md)%string])%list
      | None => fullSections w appDir rest sections
      end
  end.

(** The [GET] of [createLlmsFullTxtHandler(config)]. *)
Definition llmsFullTxtGET (fuel : nat) (w : World)
    (isDirectory : string -> option bool)
    (localeCompare : string -> string -> Z) (config : LlmsTxtConfig)
    (now : Z) (caches : Caches) : M (result (HttpResponse * Caches)) :=
  let httpTtl := orDefault 3600 (cacheTtlSeconds config) in
  let cacheTtl := httpTtl * 1000 in
  let fresh :=
    match llmsFullTxtCache caches with
    | Some c => if now <? expiresAt c then Some c else None
    | None => None
    end in
  match fresh with
  | Some c => ret (Done (textResponse (content c) httpTtl, caches))
  | None =>
      let appDir := orDefault (Path.join [cwd w; "app"]) (appDir config) in
      entries <- gatherEntries fuel w isDirectory localeCompare config ;;
      match entries with
      | OutOfFuel => ret OutOfFuel
      | Done entries =>
          let sections := ["# " ++ siteTitle config] in
          let sections :=
            match whenTruthy (siteDescription config) with
            | Some d => (sections ++ [(nl ++ "> " ++ d)%string])%list
            | None => sections
            end in
          sections <- fullSections w appDir entries sections ;;
          let content := JS.join nl sections in
          ret (Done (textResponse content httpTtl,
                     {| llmsTxtCache := llmsTxtCache caches;
                        llmsFullTxtCache :=
                          Some {| content := content;
                                  expiresAt := now + cacheTtl |} |}))
      end
  end.

End Llms.

(** A small app directory, for concrete runs of the discovery. *)
Module Site.

Definition files : list (string * string) :=
  [ ("/srv/app/page.md", "# Welcome" ++ nl ++ nl ++ "The home page.");
    ("/srv/app/(main)/docs/page.md", "# Docs" ++ nl ++ nl ++ "All the docs.");
    ("/srv/app/pricing/page.md", "Plans and prices.");
    ("/srv/app/home/page.md", Demo.alias "/");
    ("/srv/app/api/page.md", "# Internal");
    ("/srv/app/_private/page.md", "# Hidden") ].

Definition dirs : list (string * list string) :=
  [ ("/srv/app",
     ["page.md"; "(main)"; "pricing"; "home"; "api"; "_private"; "layout.tsx"]);
    ("/srv/app/(main)", ["docs"]);
    ("/srv/app/(main)/docs", ["page.md"]);
    ("/srv/app/pricing", ["page.md"]);
    ("/srv/app/home", ["page.md"]);
    ("/srv/app/api", ["page.md"]);
    ("/srv/app/_private", ["page.md"]) ].

Definition world : World :=
  {| cwd := "/srv";
     readFile := fun p => Demo.lookup p files;
     readdir := fun d => Demo.lookup d dirs;
     newURL := Demo.parseURL;
     fetch := fun _ _ => None;
     htmlToMarkdown := fun _ => None |}.

Definition isDirectory (p : string) : option bool :=
  match Demo.lookup p dirs with
  | Some _ => Some true
  | None =>
      match Demo.lookup p files with
      | Some _ => Some false
      | None => if String.eqb p "/srv/app/layout.tsx" then Some false else None
      end
  end.

(** A comparison by code units, standing for [localeCompare]. *)
Fixpoint compare (a b : string) : Z :=
  match a, b with
  | EmptyString, EmptyString => 0
  | EmptyString, _ => -1
  | _, EmptyString => 1
  | String x a', String y b' =>
      if Ascii.eqb x y then compare a' b'
      else if (nat_of_ascii x <? nat_of_ascii y)%nat then -1 else 1
  end.

Definition config : Llms.LlmsTxtConfig :=
  {| Llms.siteTitle := "Acme";
     Llms.siteDescription := Some "Things for people.";
     Llms.baseUrl := "https://acme.test";
     Llms.entries :=
       Some [{| Llms.path := "/pricing"; Llms.title := "Pricing";
                Llms.description := Some "What it costs" |};
             {| Llms.path := "/blog"; Llms.title := "Blog";
                Llms.description := None |}];
     Llms.cacheTtlSeconds := None;
     Llms.appDir := None |}.


Definition empty : Llms.Caches :=
  {| Llms.llmsTxtCache := None; Llms.llmsFullTxtCache := None |}.

Definition listing : string :=
  "# Acme" ++ nl ++ nl ++ "> Things for people." ++ nl ++ nl
  ++ "## Pages" ++ nl ++ nl
  ++ "- [Welcome](https://acme.test/): The home page." ++ nl
  ++ "- [Blog](https://acme.test/blog)" ++ nl
  ++ "- [Docs](https://acme.test/docs): All the docs." ++ nl
  ++ "- [Pricing](https://acme.test/pricing): What it costs" ++ nl.

End Site.

(** [e] is the last element of [xs] that has its path. *)
Definition LastWithPath (xs : list Llms.LlmsTxtEntry) (e : Llms.LlmsTxtEntry)
  : Prop :=
  exists pre post,
    xs = (pre ++ e :: post)%list
    /\ Forall (fun x => Llms.path x <> Llms.path e) post.

(** What the sort needs of the comparison to be an order: it is
    antisymmetric in sign and transitive. *)
Definition Consistent (localeCompare : string -> string -> Z) : Prop :=
  (forall a b, 0 < localeCompare a b -> localeCompare b a <= 0)
  /\ (forall a b c, localeCompare a b <= 0 -> localeCompare b c <= 0 ->
                    localeCompare a c <= 0).

(** A name the discovery goes into. *)
Definition Allowed (name : string) : Prop :=
  ~ StartsWith name "_" /\ name <> "api" /\ name <> "node_modules".


(** The tree of directories below [rel] is less than [n] levels deep: the
    discovery of [rel] goes less than [n] calls deep. *)
Inductive Shallow (w : World) (isDirectory : string -> option bool)
    (appDir : string) : nat -> string -> Prop :=
| shallow (n : nat) (rel : string) :
    (forall dirEntries name,
       readdir w (Path.join [appDir; rel]) = Some dirEntries ->
       In name dirEntries -> Allowed name ->
       isDirectory (Path.join [appDir; Llms.childPath rel name]) = Some true ->
       Shallow w isDirectory appDir n (Llms.childPath rel name)) ->
    Shallow w isDirectory appDir (S n) rel.

(** The directories the discovery walks into from [rel], as the file
    system has them: each step takes a name that its directory lists, that
    is allowed and that [stat] finds to be a directory. *)
Inductive Walk (w : World) (isDirectory : string -> option bool)
    (appDir : string) : string -> string -> Prop :=
| walk_here (rel : string) : Walk w isDirectory appDir rel rel
| walk_into (rel name r : string) (dirEntries : list string) :
    readdir w (Path.join [appDir; rel]) = Some dirEntries ->
    In name dirEntries -> Allowed name ->
    isDirectory (Path.join [appDir; Llms.childPath rel name]) = Some true ->
    Walk w isDirectory appDir (Llms.childPath rel name) r ->
    Walk w isDirectory appDir rel r.



(* ================================================================== *)
(** * Numbers: the model on the literals that matter *)
(* ================================================================== *)

Example parseFloat_examples :
  Num.parseFloat "0.8" = Num.Fin (3602879701896397 # 4503599627370496)
  /\ Num.parseFloat "1" = Num.ofZ 1
  /\ Num.parseFloat "0" = Num.ofZ 0
  /\ Num.parseFloat " .5e1x" = Num.ofZ 5
  /\ Num.parseFloat "-5.e+" = Num.ofZ (-5)
  /\ Num.parseFloat "abc" = Num.NaN
  /\ Num.parseFloat "." = Num.NaN
  /\ Num.parseFloat "Infinity" = Num.PosInf.
Proof. repeat split; vm_compute; reflexivity. Qed.

(** Rounding at the edges of binary64: the largest finite value, the
    overflow threshold, the smallest subnormal and the underflow to zero. *)
Example parseFloat_rounding :
  Num.parseFloat "1.7976931348623158e308" = Num.Fin (inject_Z (2 ^ 1024 - 2 ^ 971))
  /\ Num.parseFloat "1.7976931348623159e308" = Num.PosInf
  /\ Num.parseFloat "5e-324" = Num.Fin (Num.pow2 (-1074))
  /\ Num.parseFloat "2.4703282292062327e-324" = Num.ofZ 0
  /\ Num.parseFloat "1e-400" = Num.ofZ 0
  /\ Num.parseInt10 "9007199254740993" = Num.ofZ 9007199254740992.
Proof. repeat split; vm_compute; reflexivity. Qed.

Example parseInt10_examples :
  Num.parseInt10 "5242881" = Num.ofZ 5242881
  /\ Num.parseInt10 " 12px" = Num.ofZ 12
  /\ Num.parseInt10 "" = Num.NaN
  /\ Num.gt (Num.parseInt10 "5242881") (Num.ofZ MAX_HTML_SIZE) = true
  /\ Num.gt (Num.parseInt10 "5242880") (Num.ofZ MAX_HTML_SIZE) = false
  /\ Num.gt Num.NaN (Num.ofZ MAX_HTML_SIZE) = false.
Proof. repeat split; vm_compute; reflexivity. Qed.

(* ================================================================== *)
(** * Strings: the primitives meet their descriptions *)
(* ================================================================== *)

Example string_primitives :
  JS.split "," "a,b," = ["a"; "b"; ""]
  /\ JS.split "/" "" = [""]
  /\ JS.split "/" "/docs/intro" = [""; "docs"; "intro"]
  /\ JS.join "/" ["a"; ""; "b"] = "a//b"
  /\ JS.trim "  text/markdown " = "text/markdown"
  /\ JS.toLowerCase "Text/MARKDOWN" = "text/markdown"
  /\ JS.slice "/.md" 0 (-3) = "/"
  /\ JS.slice ".md" 0 (-3) = ""
  /\ JS.sliceFrom "q=0.8" 2 = "0.8"
  /\ JS.indexOf "---x---" "---" 3 = 4
  /\ JS.indexOf "------" "---" 3 = 3
  /\ JS.indexOf "----" "---" 3 = -1
  /\ JS.includes "ClaudeBot/1.0" "ClaudeBot" = true
  /\ JS.endsWith "md" ".md" = false.
Proof. repeat split; vm_compute; reflexivity. Qed.

Example path_examples :
  Path.join ["/srv"; "app"] = "/srv/app"
  /\ Path.resolve "/srv" ["/srv/app"; "pricing"; "page.md"]
     = "/srv/app/pricing/page.md"
  /\ Path.resolve "/srv" ["/srv/app"; "(main)"; "page.md"]
     = "/srv/app/(main)/page.md"
  /\ Path.resolve "/srv" ["/srv/app"; ".."; ".."; "etc"; "page.md"]
     = "/etc/page.md"
  /\ Path.resolve "/srv" ["app"; ""; "x"] = "/srv/app/x"
  /\ Path.normalize "a/../../b/" = "../b/".
Proof. repeat split; vm_compute; reflexivity. Qed.

Lemma append_nil_r (s : string) : (s ++ "")%string = s.
Proof. induction s; simpl; congruence. Qed.

Lemma append_assoc (a b c : string) :
  ((a ++ b) ++ c)%string = (a ++ (b ++ c))%string.
Proof. induction a; simpl; congruence. Qed.

Lemma length_append (a b : string) :
  String.length (a ++ b) = (String.length a + String.length b)%nat.
Proof. induction a; simpl; congruence. Qed.

Lemma drop_append (a b : string) : JS.drop (String.length a) (a ++ b) = b.
Proof. induction a; simpl; auto. Qed.

Lemma take_append (a b : string) : JS.take (String.length a) (a ++ b) = a.
Proof. induction a; simpl; congruence. Qed.

Lemma take_drop (n : nat) (s : string) : (JS.take n s ++ JS.drop n s)%string = s.
Proof.
  revert s; induction n; intros [|c s]; simpl; auto.
  now rewrite IHn.
Qed.

Lemma length_take (n : nat) (s : string) :
  (n <= String.length s)%nat -> String.length (JS.take n s) = n.
Proof.
  revert s; induction n; intros [|c s]; simpl; intros; auto; try lia.
  rewrite IHn; lia.
Qed.

Lemma length_drop (n : nat) (s : string) :
  String.length (JS.drop n s) = (String.length s - n)%nat.
Proof. revert s; induction n; intros [|c s]; simpl; auto. Qed.

Lemma drop_all (n : nat) (s : string) :
  (String.length s <= n)%nat -> JS.drop n s = "".
Proof.
  revert s; induction n; intros [|c s]; simpl; intros; auto; try lia.
  apply IHn; lia.
Qed.

Lemma drop_drop (n m : nat) (s : string) :
  JS.drop n (JS.drop m s) = JS.drop (m + n) s.
Proof.
  revert s; induction m; intros s; simpl; auto.
  destruct s; simpl; auto. now destruct n.
Qed.

Lemma append_inv_length (a a' b b' : string) :
  (a ++ b)%string = (a' ++ b')%string -> String.length a = String.length a' ->
  a = a' /\ b = b'.
Proof.
  revert a'; induction a; intros [|c a']; simpl; intros H L; try discriminate; auto.
  injection H as -> H. destruct (IHa a' H) as [-> ->]; auto.
Qed.

Lemma startsWith_iff (s pre : string) :
  JS.startsWith s pre = true <-> StartsWith s pre.
Proof.
  unfold StartsWith. revert s; induction pre as [|a pre IH]; intros s; simpl.
  - split; [intros _; now exists s | auto].
  - destruct s as [|b s].
    + split; [discriminate | intros [t Ht]; discriminate].
    + rewrite andb_true_iff, Ascii.eqb_eq, IH. split.
      * intros [-> [t ->]]. now exists t.
      * intros [t Ht]. injection Ht as -> ->. eauto.
Qed.

Lemma startsWith_append (pre t : string) : JS.startsWith (pre ++ t) pre = true.
Proof. apply startsWith_iff. now exists t. Qed.

Lemma startsWith_drop_iff (s sub : string) (n : nat) :
  (n <= String.length s)%nat ->
  (JS.startsWith (JS.drop n s) sub = true <-> OccursAt s sub n).
Proof.
  intros Hn. rewrite startsWith_iff. unfold StartsWith, OccursAt. split.
  - intros [t Ht]. exists (JS.take n s), t. split.
    + now rewrite <- Ht, take_drop.
    + now apply length_take.
  - intros (a & b & -> & <-). exists b. apply drop_append.
Qed.

Lemma OccursAt_bound (s sub : string) (n : nat) :
  OccursAt s sub n -> (n + String.length sub <= String.length s)%nat.
Proof.
  intros (a & b & -> & <-). rewrite !length_append. lia.
Qed.

Lemma Contains_OccursAt (s sub : string) :
  Contains s sub <-> exists n, OccursAt s sub n.
Proof.
  split.
  - intros (a & b & ->). exists (String.length a), a, b. auto.
  - intros (n & a & b & -> & _). now exists a, b.
Qed.


Lemma OccursAt_0 (s sub : string) :
  OccursAt s sub 0 <-> JS.startsWith s sub = true.
Proof.
  rewrite startsWith_iff. unfold OccursAt, StartsWith. split.
  - intros (a & b & -> & L). destruct a; try discriminate. now exists b.
  - intros [t ->]. now exists "", t.
Qed.

Lemma OccursAt_S (c : ascii) (s sub : string) (n : nat) :
  OccursAt (String c s) sub (S n) <-> OccursAt s sub n.
Proof.
  unfold OccursAt. split.
  - intros (a & b & E & L). destruct a as [|c' a]; try discriminate.
    simpl in E, L. injection E as -> ->. exists a, b. split; auto.
  - intros (a & b & -> & <-). now exists (String c a), b.
Qed.

Lemma OccursAt_drop (k n : nat) (s sub : string) :
  (k <= String.length s)%nat ->
  (OccursAt (JS.drop k s) sub n <-> OccursAt s sub (k + n)).
Proof.
  revert s; induction k; intros s Hk; simpl; [tauto|].
  destruct s as [|c s]; simpl in Hk; [lia|].
  rewrite OccursAt_S. apply IHk. lia.
Qed.

(** The scan returns -1 when there is no occurrence, and otherwise the
    offset of the first one, counted from [i]. *)
Lemma indexOf_scan_cases (sub s : string) (i : Z) :
  (JS.indexOf_scan sub s i = -1 /\ forall n, ~ OccursAt s sub n)
  \/ (exists n, JS.indexOf_scan sub s i = i + Z.of_nat n /\ OccursAt s sub n
                /\ forall m, (m < n)%nat -> ~ OccursAt s sub m).
Proof.
  revert i; induction s as [|c s IH]; intros i; simpl.
  - destruct (JS.startsWith "" sub) eqn:E.
    + right. exists 0%nat. rewrite Z.add_0_r. repeat split; auto.
      * now apply OccursAt_0.
      * intros m Hm; lia.
    + left. split; auto. intros n H. pose proof (OccursAt_bound _ _ _ H) as B.
      simpl in B. assert (n = 0)%nat by lia. subst.
      apply OccursAt_0 in H. congruence.
  - destruct (JS.startsWith (String c s) sub) eqn:E.
    + right. exists 0%nat. rewrite Z.add_0_r. repeat split; auto.
      * now apply OccursAt_0.
      * intros m Hm; lia.
    + destruct (IH (i + 1)) as [[E1 N]|(n & E1 & O & F)].
      * left. split; auto. intros [|n] H.
        -- apply OccursAt_0 in H. congruence.
        -- apply OccursAt_S in H. now apply (N n).
      * right. exists (S n). repeat split.
        -- rewrite E1. lia.
        -- now apply OccursAt_S.
        -- intros [|m] Hm H.
           ++ apply OccursAt_0 in H. congruence.
           ++ apply OccursAt_S in H. apply (F m); auto. lia.
Qed.

(** [indexOf] from a position inside the string: -1 when nothing occurs at
    or after it, otherwise the first offset at or after it. *)
Lemma indexOf_cases (s sub : string) (k : nat) :
  (k <= String.length s)%nat ->
  (JS.indexOf s sub (Z.of_nat k) = -1
     /\ forall n, (k <= n)%nat -> ~ OccursAt s sub n)
  \/ (exists n, JS.indexOf s sub (Z.of_nat k) = Z.of_nat n /\ (k <= n)%nat
                /\ OccursAt s sub n
                /\ forall m, (k <= m < n)%nat -> ~ OccursAt s sub m).
Proof.
  intros Hk. unfold JS.indexOf, JS.len.
  replace (Z.min (Z.max (Z.of_nat k) 0) (Z.of_nat (String.length s)))
    with (Z.of_nat k) by lia.
  rewrite Nat2Z.id.
  destruct (indexOf_scan_cases sub (JS.drop k s) (Z.of_nat k))
    as [[E N]|(n & E & O & F)].
  - left. split; auto. intros n Hn H.
    apply (N (n - k)%nat). apply OccursAt_drop; auto.
    now replace (k + (n - k))%nat with n by lia.
  - right. exists (k + n)%nat. repeat split.
    + rewrite E. lia.
    + lia.
    + now apply OccursAt_drop.
    + intros m Hm H. apply (F (m - k)%nat); [lia|].
      apply OccursAt_drop; auto.
      now replace (k + (m - k))%nat with m by lia.
Qed.

Lemma includes_iff (s sub : string) :
  JS.includes s sub = true <-> Contains s sub.
Proof.
  unfold JS.includes. rewrite Contains_OccursAt.
  destruct (@indexOf_cases s sub 0 ltac:(lia)) as [[E N]|(n & E & _ & O & _)];
    simpl in E; rewrite E.
  - simpl. split; [discriminate|]. intros [n H]. exfalso. apply (N n); auto. lia.
  - split; eauto. intros _. apply negb_true_iff, Z.eqb_neq. lia.
Qed.

(** ** Splitting on a separator *)


Lemma Contains_cons (sep c : ascii) (s : string) :
  Contains (String c s) (sepStr sep) <-> c = sep \/ Contains s (sepStr sep).
Proof.
  unfold Contains, sepStr. split.
  - intros (a & b & E). destruct a as [|c' a]; simpl in E.
    + injection E as -> _. now left.
    + injection E as -> ->. right. now exists a, b.
  - intros [->|(a & b & ->)].
    + now exists "", s.
    + now exists (String c a), b.
Qed.

Lemma not_Contains_nil (sep : ascii) : ~ Contains "" (sepStr sep).
Proof. intros (a & b & E). destruct a; discriminate. Qed.

Lemma split_nonempty (sep : ascii) (s : string) : JS.split sep s <> [].
Proof.
  destruct s as [|c s]; simpl; [discriminate|].
  destruct (Ascii.eqb c sep); [discriminate|].
  destruct (JS.split sep s); discriminate.
Qed.

Lemma join_cons (sep x : string) (rest : list string) :
  rest <> [] -> JS.join sep (x :: rest) = (x ++ sep ++ JS.join sep rest)%string.
Proof. destruct rest; [congruence | reflexivity]. Qed.

Lemma join_cons_char (sep : string) (c : ascii) (seg : string)
    (segs : list string) :
  JS.join sep (String c seg :: segs) = String c (JS.join sep (seg :: segs)).
Proof. destruct segs; reflexivity. Qed.

Lemma join_split (sep : ascii) (s : string) :
  JS.join (sepStr sep) (JS.split sep s) = s.
Proof.
  induction s as [|c s IH]; simpl; auto.
  destruct (Ascii.eqb_spec c sep) as [->|N].
  - rewrite join_cons by apply split_nonempty. simpl. now rewrite IH.
  - pose proof (split_nonempty sep s) as NE.
    destruct (JS.split sep s) as [|seg segs]; [congruence|].
    rewrite join_cons_char. now rewrite IH.
Qed.

Lemma split_no_sep (sep : ascii) (s : string) :
  Forall (fun seg => ~ Contains seg (sepStr sep)) (JS.split sep s).
Proof.
  induction s as [|c s IH]; simpl.
  - constructor; auto using not_Contains_nil.
  - destruct (Ascii.eqb_spec c sep) as [->|N].
    + constructor; auto using not_Contains_nil.
    + destruct (JS.split sep s) as [|seg segs].
      * constructor; auto. rewrite Contains_cons.
        intros [?|?]; [congruence | now apply (@not_Contains_nil sep)].
      * inversion IH; subst. constructor; auto.
        rewrite Contains_cons. tauto.
Qed.

Lemma split_segment (sep : ascii) (x : string) :
  ~ Contains x (sepStr sep) -> JS.split sep x = [x].
Proof.
  induction x as [|c x IH]; simpl; auto. rewrite Contains_cons. intros H.
  destruct (Ascii.eqb_spec c sep) as [->|N]; [tauto|].
  rewrite IH by tauto. reflexivity.
Qed.

Lemma split_append (sep : ascii) (x r : string) :
  ~ Contains x (sepStr sep) ->
  JS.split sep (x ++ String sep r) = x :: JS.split sep r.
Proof.
  induction x as [|c x IH]; simpl.
  - now rewrite Ascii.eqb_refl.
  - rewrite Contains_cons. intros H.
    destruct (Ascii.eqb_spec c sep) as [->|N]; [tauto|].
    rewrite IH by tauto. reflexivity.
Qed.

(** [split] computes the segments, and they are the only ones. *)
Lemma split_join_unique (sep : ascii) (segs : list string) :
  segs <> [] -> Forall (fun seg => ~ Contains seg (sepStr sep)) segs ->
  JS.split sep (JS.join (sepStr sep) segs) = segs.
Proof.
  induction segs as [|x rest IH]; [congruence|]. intros _ F.
  inversion F as [|? ? Hx Hrest]; subst.
  destruct rest as [|y rest].
  - simpl. now apply split_segment.
  - rewrite join_cons by discriminate. unfold sepStr at 1. simpl append.
    rewrite split_append by auto. f_equal. apply IH; auto. discriminate.
Qed.

Lemma Segments_split (p : string) (segs : list string) :
  Segments p segs <-> segs = JS.split "/" p.
Proof.
  unfold Segments. split.
  - intros (NE & -> & F). symmetry. now apply (@split_join_unique "/").
  - intros ->. repeat split.
    + apply split_nonempty.
    + symmetry. apply (join_split "/").
    + apply (split_no_sep "/").
Qed.

Lemma some_exists {A : Type} (p : A -> bool) (xs : list A) :
  JS.some p xs = true <-> exists x, In x xs /\ p x = true.
Proof.
  induction xs as [|x xs IH]; simpl.
  - split; [discriminate | intros (x & [] & _)].
  - rewrite orb_true_iff, IH. split.
    + intros [H|(y & H1 & H2)]; eauto.
    + intros (y & [->|H1] & H2); eauto.
Qed.


(* ================================================================== *)
(** * The path validator *)
(* ================================================================== *)

Example isValidPath_examples :
  isValidPath "/pricing" = true /\ isValidPath "/" = true
  /\ isValidPath "" = false /\ isValidPath "pricing" = false
  /\ isValidPath "//evil.com" = false /\ isValidPath "/a/http://evil.com" = false
  /\ isValidPath "/a/../b" = false /\ isValidPath "/a/./b" = false
  /\ isValidPath "/a/.." = false /\ isValidPath "/..a/b." = true.
Proof. repeat split; reflexivity. Qed.

Lemma isValidPath_rejects (p : string) :
  isValidPath p = false <->
  (p = ""
   \/ ~ (StartsWith p "/" /\ ~ StartsWith p "//")
   \/ Contains p "://"
   \/ exists segs, Segments p segs /\ (In "." segs \/ In ".." segs)).
Proof.
  unfold isValidPath.
  destruct (JS.startsWith p "/") eqn:E1; cbn [negb orb].
  - destruct (JS.startsWith p "//") eqn:E2.
    + split; auto. intros _. right; left. intros [_ H]. apply H.
      now apply startsWith_iff.
    + destruct (JS.includes p "://") eqn:E3.
      * split; auto. intros _. right; right; left. now apply includes_iff.
      * destruct (JS.some _ (JS.split "/" p)) eqn:E4.
        -- split; auto. intros _. right; right; right.
           apply some_exists in E4. destruct E4 as (x & I & Hx).
           exists (JS.split "/" p). split; [now apply Segments_split|].
           apply orb_true_iff in Hx. destruct Hx as [Hx|Hx];
             apply String.eqb_eq in Hx; subst; auto.
        -- split; [discriminate|]. intros [->|[H|[H|(segs & S & H)]]].
           ++ discriminate.
           ++ exfalso. apply H. split; [now apply startsWith_iff|].
              intros H2. apply startsWith_iff in H2. congruence.
           ++ apply includes_iff in H. congruence.
           ++ apply Segments_split in S. subst segs.
              assert (JS.some (fun s => String.eqb s ".." || String.eqb s ".")
                        (JS.split "/" p) = true); [|congruence].
              apply some_exists. destruct H as [H|H].
              ** exists ".". auto.
              ** exists "..". auto.
  - split; auto. intros _. right; left. intros [H _].
    apply startsWith_iff in H. congruence.
Qed.

(** C4.  The path validator returns false exactly for the paths that are
    empty, do not start with exactly one "/", contain the scheme separator
    "://", or have "." or ".." among their "/"-delimited segments; it
    returns true for every other path. *)
Theorem isValidPath_false_iff (p : string) :
  isValidPath p = false <->
  (p = ""
   \/ ~ (StartsWith p "/" /\ ~ StartsWith p "//")
   \/ Contains p "://"
   \/ exists segs, Segments p segs /\ (In "." segs \/ In ".." segs)).
Proof. exact (isValidPath_rejects p). Qed.

(** Read the other way: the validator accepts exactly the paths with a
    single leading "/", no "://" and no "." or ".." segment. *)
Corollary isValidPath_true_iff (p : string) :
  isValidPath p = true <->
  (StartsWith p "/" /\ ~ StartsWith p "//") /\ ~ Contains p "://"
  /\ forall segs, Segments p segs -> ~ In "." segs /\ ~ In ".." segs.
Proof.
  rewrite <- not_false_iff_true, isValidPath_rejects. split.
  - intros H. repeat split.
    + destruct (JS.startsWith p "/") eqn:E; [now apply startsWith_iff|].
      exfalso. apply H. right; left. intros [S _].
      apply startsWith_iff in S. congruence.
    + intros S. apply H. right; left. tauto.
    + intros C. apply H. tauto.
    + intros I. apply H. right; right; right. eauto.
    + intros I. apply H. right; right; right. eauto.
  - intros (S & C & G) [->|[H|[H|(segs & Sg & I)]]].
    + destruct S as [[t Ht] _]. discriminate.
    + tauto.
    + tauto.
    + destruct (G segs Sg). tauto.
Qed.

(* ================================================================== *)
(** * Signal detection *)
(* ================================================================== *)

Lemma endsWith_iff (s suf : string) :
  JS.endsWith s suf = true <-> EndsWith s suf.
Proof.
  unfold JS.endsWith, EndsWith. rewrite andb_true_iff, Nat.leb_le, String.eqb_eq.
  split.
  - intros [L E]. exists (JS.take (String.length s - String.length suf) s).
    rewrite <- E at 2. now rewrite take_drop.
  - intros [t ->]. rewrite length_append. split; [lia|].
    replace (String.length t + String.length suf - String.length suf)%nat
      with (String.length t) by lia.
    apply drop_append.
Qed.

Lemma slice_strip_md (stem : string) : JS.slice (stem ++ ".md") 0 (-3) = stem.
Proof.
  unfold JS.slice, JS.relIndex, JS.len. rewrite length_append.
  change (0 <? 0) with false. change (-3 <? 0) with true. cbv iota.
  change (String.length ".md") with 3%nat.
  replace (Z.to_nat (Z.min 0 _)) with 0%nat by lia.
  replace (Z.to_nat _) with (String.length stem) by lia.
  apply take_append.
Qed.

Lemma truthy_iff (s : string) : JS.truthy s = true <-> s <> "".
Proof.
  unfold JS.truthy. rewrite negb_true_iff. apply String.eqb_neq.
Qed.

Lemma suffix_flag (options : option DetectOptions) :
  orDefault true
    (match options with Some o => enableMdSuffix o | None => None end) = true
  <-> suffixEnabled options.
Proof.
  unfold suffixEnabled. destruct options as [[[[|]|] ? ?]|]; simpl; split;
    try congruence; intros H.
  - intros o [= <-]. simpl. congruence.
  - exfalso. eapply H; reflexivity.
  - intros o [= <-]. simpl. congruence.
Qed.

Example detect_examples :
  detectLlmSignal "/.md" None None None = Some (MdSuffix "/")
  /\ detectLlmSignal "/pricing.md" (Some "text/markdown") None None
     = Some (MdSuffix "/pricing")
  /\ detectLlmSignal "/pricing" (Some "text/markdown") (Some "ClaudeBot/1.0") None
     = Some (AcceptHeader (Num.ofZ 1))
  /\ detectLlmSignal "/pricing" (Some "text/html") (Some "ClaudeBot/1.0") None
     = Some (UserAgent "ClaudeBot")
  /\ detectLlmSignal "/pricing" (Some "text/html, text/markdown;q=0.8") None None
     = Some (AcceptHeader (Num.parseFloat "0.8"))
  /\ detectLlmSignal "/pricing" (Some "text/html,application/xhtml+xml")
       (Some "Mozilla/5.0") None = None
  /\ detectLlmSignal "/page" None (Some "MyCustomBot/2.0")
       (Some {| enableMdSuffix := None; enableUserAgentDetection := None;
                additionalBotUserAgents := Some ["MyCustomBot"] |})
     = Some (UserAgent "MyCustomBot").
Proof. repeat split; vm_compute; reflexivity. Qed.

(** The suffix check fires first. *)
Lemma detect_suffix_wins (stem : string) (accept userAgent : option string)
    (options : option DetectOptions) :
  suffixEnabled options ->
  detectLlmSignal (stem ++ ".md") accept userAgent options
  = Some (MdSuffix (if String.eqb stem "" then "/" else stem)).
Proof.
  unfold detectLlmSignal. intros En. apply suffix_flag in En. rewrite En.
  assert (JS.endsWith (stem ++ ".md") ".md" = true) as ->
    by (apply endsWith_iff; now exists stem).
  cbn [andb]. rewrite slice_strip_md. unfold JS.truthy.
  now destruct (String.eqb stem "").
Qed.

(** When it does not, a positive accept quality decides. *)
Lemma detect_accept_wins (pathname a : string) (userAgent : option string)
    (options : option DetectOptions) :
  ~ (suffixEnabled options /\ EndsWith pathname ".md") ->
  Num.gt (parseAcceptMarkdown a) (Num.ofZ 0) = true ->
  detectLlmSignal pathname (Some a) userAgent options
  = Some (AcceptHeader (parseAcceptMarkdown a)).
Proof.
  unfold detectLlmSignal. intros Off Q.
  destruct (orDefault true _ && JS.endsWith pathname ".md") eqn:E.
  - exfalso. apply Off. apply andb_true_iff in E. destruct E as [E1 E2].
    split; [now apply suffix_flag | now apply endsWith_iff].
  - destruct (JS.truthy a) eqn:T.
    + now rewrite Q.
    + apply negb_false_iff, String.eqb_eq in T. subst a.
      vm_compute in Q. discriminate.
Qed.

(** C1.  Detection priority.  With suffix detection enabled, a path that
    ends in ".md" gives the MdSuffix signal (the path without the suffix,
    "/" when nothing is left) whatever the accept header and the user agent
    are.  On every other path, an accept header whose check succeeds gives
    the AcceptHeader signal whatever the user agent is. *)
Theorem detect_priority (pathname : string) (accept userAgent : option string)
    (options : option DetectOptions) :
  (suffixEnabled options ->
   forall stem, pathname = (stem ++ ".md")%string ->
     detectLlmSignal pathname accept userAgent options
     = Some (MdSuffix (if String.eqb stem "" then "/" else stem)))
  /\ (~ (suffixEnabled options /\ EndsWith pathname ".md") ->
      forall a, accept = Some a ->
        Num.gt (parseAcceptMarkdown a) (Num.ofZ 0) = true ->
        detectLlmSignal pathname accept userAgent options
        = Some (AcceptHeader (parseAcceptMarkdown a))).
Proof.
  split.
  - intros En stem ->. now apply detect_suffix_wins.
  - intros Off a -> Q. now apply detect_accept_wins.
Qed.

(** The theorem at the requests of the test suite: the suffix wins over a
    matching accept header and a matching user agent, and the accept header
    wins over a matching user agent. *)
Lemma detect_priority_witness :
  detectLlmSignal "/pricing.md" (Some "text/markdown") (Some "ClaudeBot/1.0") None
  = Some (MdSuffix "/pricing")
  /\ detectLlmSignal "/pricing" (Some "text/markdown") (Some "ClaudeBot/1.0") None
     = Some (AcceptHeader (Num.ofZ 1)).
Proof.
  split.
  - refine (proj1 (detect_priority "/pricing.md" (Some "text/markdown")
                     (Some "ClaudeBot/1.0") None) _ "/pricing" eq_refl).
    intros o H. discriminate.
  - refine (proj2 (detect_priority "/pricing" (Some "text/markdown")
                     (Some "ClaudeBot/1.0") None) _ "text/markdown" eq_refl _).
    + intros [_ H]. apply endsWith_iff in H. vm_compute in H. discriminate.
    + vm_compute. reflexivity.
Defined.

Lemma take_all (n : nat) (s : string) :
  (String.length s <= n)%nat -> JS.take n s = s.
Proof.
  revert s; induction n; intros [|c s]; simpl; intros; auto; try lia.
  rewrite IHn; auto; lia.
Qed.

Lemma sliceFrom_drop (s : string) (k : nat) :
  (k <= String.length s)%nat -> JS.sliceFrom s (Z.of_nat k) = JS.drop k s.
Proof.
  intros Hk. unfold JS.sliceFrom, JS.slice, JS.relIndex, JS.len.
  destruct (Z.of_nat k <? 0) eqn:E1; [apply Z.ltb_lt in E1; lia|].
  destruct (Z.of_nat (String.length s) <? 0) eqn:E2; [apply Z.ltb_lt in E2; lia|].
  replace (Z.to_nat (Z.min (Z.of_nat k) _)) with k by lia.
  apply take_all. rewrite length_drop. lia.
Qed.

Lemma find_some {A : Type} (p : A -> bool) (xs : list A) (x : A) :
  JS.find p xs = Some x -> p x = true.
Proof.
  induction xs as [|y xs IH]; simpl; [discriminate|].
  destruct (p y) eqn:E; auto. now intros [= <-].
Qed.

(** One pass of the loop body: an entry that names the media type ends the
    loop with its declared quality, any other entry lets it go on. *)
Lemma acceptEntry_spec (entry : string) :
  (NamesMarkdown entry ->
   acceptEntry (JS.trim entry) = Some (declaredQuality entry))
  /\ (~ NamesMarkdown entry -> acceptEntry (JS.trim entry) = None).
Proof.
  unfold NamesMarkdown, mediaTypeOf, declaredQuality, paramsOf, acceptEntry.
  pose proof (split_nonempty ";" (JS.trim entry)) as NE.
  destruct (JS.split ";" (JS.trim entry)) as [|m ps]; [congruence|].
  cbn [map hd tl]. split; intros H.
  - rewrite H, String.eqb_refl.
    destruct (JS.find _ (map JS.trim ps)) as [qp|] eqn:F; auto.
    apply find_some in F. pose proof F as F'.
    apply startsWith_iff in F'. destruct F' as [t ->].
    change (JS.truthy ("q=" ++ t)) with true. cbv iota.
    assert (JS.sliceFrom ("q=" ++ t) 2 = JS.drop 2 ("q=" ++ t)) as ->; auto.
    apply (@sliceFrom_drop ("q=" ++ t) 2). simpl; lia.
  - apply String.eqb_neq in H. now rewrite H.
Qed.

(** The loop returns the declared quality of the first entry that names the
    media type. *)
Lemma parseAcceptMarkdown_first (accept : string) (pre post : list string)
    (e : string) :
  JS.split "," accept = (pre ++ e :: post)%list ->
  Forall (fun p => ~ NamesMarkdown p) pre -> NamesMarkdown e ->
  parseAcceptMarkdown accept = declaredQuality e.
Proof.
  unfold parseAcceptMarkdown. intros -> F N.
  induction F as [|p pre Hp F IH]; simpl.
  - now rewrite (proj1 (acceptEntry_spec e) N).
  - now rewrite (proj2 (acceptEntry_spec p) Hp).
Qed.

(** Without an entry that names the media type the loop returns 0. *)
Lemma parseAcceptMarkdown_absent (accept : string) :
  Forall (fun p => ~ NamesMarkdown p) (JS.split "," accept) ->
  parseAcceptMarkdown accept = Num.ofZ 0.
Proof.
  unfold parseAcceptMarkdown. intros F.
  induction F as [|p pre Hp F IH]; simpl; auto.
  now rewrite (proj2 (acceptEntry_spec p) Hp).
Qed.

Example accept_quality_examples :
  detectLlmSignal "/pricing" (Some "text/markdown;q=0.8") None None
  = Some (AcceptHeader (Num.parseFloat "0.8"))
  /\ detectLlmSignal "/pricing" (Some "TEXT/Markdown ; q=abc") None None
     = Some (AcceptHeader (Num.ofZ 1))
  /\ detectLlmSignal "/pricing" (Some "text/markdown;q=5") None None
     = Some (AcceptHeader (Num.ofZ 5))
  /\ detectLlmSignal "/pricing" (Some "text/markdown;q=0") None None = None
  /\ detectLlmSignal "/pricing" (Some "text/markdown;q=0") (Some "GPTBot/1") None
     = Some (UserAgent "GPTBot")
  /\ detectLlmSignal "/pricing" (Some "text/markdown;q=0, text/markdown") None None
     = None.
Proof. repeat split; vm_compute; reflexivity. Qed.

(** C7 as stated fails: an entry that names the media type with [q=0] gives
    no signal at all, and one with [q=5] gives a quality outside [0,1]. *)
Lemma accept_quality_counterexample :
  ~ (forall (pathname accept : string) (userAgent : option string) (e : string),
       ~ EndsWith pathname ".md" ->
       In e (JS.split "," accept) -> NamesMarkdown e ->
       exists q,
         detectLlmSignal pathname (Some accept) userAgent None
         = Some (AcceptHeader q)
         /\ q = declaredQuality e /\ between 0 1 q).
Proof.
  intros H.
  destruct (H "/pricing" "text/markdown;q=0" None "text/markdown;q=0")
    as (q & E & _).
  - intros E. apply endsWith_iff in E. vm_compute in E. discriminate.
  - simpl. auto.
  - reflexivity.
  - vm_compute in E. discriminate.
Qed.

(** The quality is not confined to [0,1] either. *)
Example accept_quality_above_one :
  detectLlmSignal "/pricing" (Some "text/markdown;q=5") None None
  = Some (AcceptHeader (Num.ofZ 5))
  /\ ~ between 0 1 (Num.ofZ 5).
Proof.
  split; [vm_compute; reflexivity|]. intros (_ & H & _). vm_compute in H.
  discriminate.
Qed.

(** C7, amended.  On a path where the suffix check does not fire, take an
    accept header and the first of its comma-separated entries whose
    media-type token is "text/markdown" (trimmed, case-insensitive), and
    let [q] be the quality that entry declares (its first "q=" parameter;
    1 when absent or not a number).  If [q > 0], detection returns
    AcceptHeader with quality [q], whatever the user agent; if not, the
    header gives no signal and detection continues as without an accept
    header.  Nothing bounds [q] by 1. *)
Theorem accept_quality (pathname accept : string) (userAgent : option string)
    (options : option DetectOptions) (pre post : list string) (e : string) :
  ~ (suffixEnabled options /\ EndsWith pathname ".md") ->
  JS.split "," accept = (pre ++ e :: post)%list ->
  Forall (fun p => ~ NamesMarkdown p) pre -> NamesMarkdown e ->
  let q := declaredQuality e in
  (Num.gt q (Num.ofZ 0) = true ->
   detectLlmSignal pathname (Some accept) userAgent options
   = Some (AcceptHeader q))
  /\ (Num.gt q (Num.ofZ 0) = false ->
      detectLlmSignal pathname (Some accept) userAgent options
      = detectLlmSignal pathname None userAgent options).
Proof.
  intros Off S F N q.
  pose proof (parseAcceptMarkdown_first _ _ _ _ S F N) as P. fold q in P.
  split; intros G.
  - rewrite <- P. apply detect_accept_wins; auto. now rewrite P.
  - unfold detectLlmSignal.
    destruct (orDefault true _ && JS.endsWith pathname ".md"); auto.
    rewrite P, G. now destruct (JS.truthy accept).
Qed.

(** The amended statement at two headers: a second entry with [q=0.8]
    gives that quality, and an entry with [q=0] leaves the decision to the
    user agent. *)
Lemma accept_quality_witness :
  detectLlmSignal "/pricing" (Some "text/html, text/markdown;q=0.8")
    (Some "GPTBot/1") None
  = Some (AcceptHeader (Num.parseFloat "0.8"))
  /\ detectLlmSignal "/pricing" (Some "text/markdown;q=0") (Some "GPTBot/1") None
     = detectLlmSignal "/pricing" None (Some "GPTBot/1") None.
Proof.
  assert (~ (suffixEnabled None /\ EndsWith "/pricing" ".md")) as Off.
  { intros [_ H]. apply endsWith_iff in H. vm_compute in H. discriminate. }
  split.
  - refine (proj1 (@accept_quality "/pricing" "text/html, text/markdown;q=0.8"
                     (Some "GPTBot/1") None ["text/html"] [] " text/markdown;q=0.8"
                     Off eq_refl _ eq_refl) _).
    + constructor; [|constructor]. intros H. vm_compute in H. discriminate.
    + vm_compute. reflexivity.
  - refine (proj2 (@accept_quality "/pricing" "text/markdown;q=0"
                     (Some "GPTBot/1") None [] [] "text/markdown;q=0"
                     Off eq_refl _ eq_refl) _).
    + constructor.
    + vm_compute. reflexivity.
Defined.

(* ================================================================== *)
(** * Frontmatter *)
(* ================================================================== *)

Example parseFrontmatter_examples :
  parseFrontmatter "# Pricing" = {| redirect := None; body := "# Pricing" |}
  /\ parseFrontmatter ("---" ++ nl ++ "redirect: /" ++ nl ++ "---")
     = {| redirect := Some "/"; body := "" |}
  /\ parseFrontmatter ("---" ++ nl ++ "title: T" ++ nl ++ "  redirect :  /a b  "
                       ++ nl ++ "redirect: /c" ++ nl ++ "---" ++ nl ++ nl ++ "Body")
     = {| redirect := Some "/a b"; body := nl ++ "Body" |}
  /\ parseFrontmatter ("---" ++ String CR nl ++ "redirect: /x" ++ String CR nl
                       ++ "---" ++ String CR nl ++ "Body")
     = {| redirect := Some "/x"; body := "Body" |}
  /\ parseFrontmatter ("---" ++ nl ++ "redirect: /x")
     = {| redirect := None; body := "---" ++ nl ++ "redirect: /x" |}
  /\ parseFrontmatter ("---" ++ nl ++ "redirect:  " ++ nl ++ "---")
     = {| redirect := Some " "; body := "" |}
  /\ parseFrontmatter ("---" ++ nl ++ "title: a---b" ++ nl ++ "redirect: /x" ++ nl
                       ++ "---" ++ nl ++ "Body")
     = {| redirect := None;
          body := "b" ++ nl ++ "redirect: /x" ++ nl ++ "---" ++ nl ++ "Body" |}.
Proof. repeat split; vm_compute; reflexivity. Qed.

Lemma startsWith_length (s pre : string) :
  JS.startsWith s pre = true -> (String.length pre <= String.length s)%nat.
Proof.
  intros H. apply startsWith_iff in H. destruct H as [t ->].
  rewrite length_append. lia.
Qed.

(** C10.  An artifact that starts with "---" and has no further occurrence
    of "---" from offset 3 on is returned whole as the body, leading "---"
    included, with no redirect. *)
Theorem parseFrontmatter_unterminated (content : string) :
  StartsWith content "---" ->
  (forall n, (3 <= n)%nat -> ~ OccursAt content "---" n) ->
  parseFrontmatter content = {| redirect := None; body := content |}.
Proof.
  intros S N. unfold parseFrontmatter.
  apply startsWith_iff in S. rewrite S. cbn [negb].
  assert (3 <= String.length content)%nat as L3
    by (now apply startsWith_length in S).
  destruct (indexOf_cases content "---" 3 L3) as [[E _]|(n & E & L & O & _)].
  - change (Z.of_nat 3) with 3 in E. now rewrite E.
  - exfalso. now apply (N n).
Qed.

Lemma parseFrontmatter_unterminated_witness :
  StartsWith ("---" ++ nl ++ "redirect: /x") "---"
  /\ parseFrontmatter ("---" ++ nl ++ "redirect: /x")
     = {| redirect := None; body := "---" ++ nl ++ "redirect: /x" |}.
Proof.
  assert (StartsWith ("---" ++ nl ++ "redirect: /x") "---") as S
    by (now exists (nl ++ "redirect: /x")%string).
  split; [exact S|].
  apply (parseFrontmatter_unterminated _ S).
  intros n Hn O. pose proof (OccursAt_bound _ _ _ O) as B. simpl in B.
  apply startsWith_drop_iff in O; [|simpl; lia].
  do 3 (destruct n as [|n]; [lia|]).
  do 14 (destruct n as [|n]; [vm_compute in O; discriminate|]).
  lia.
Defined.

(** ** The backtracking matchers *)

Lemma allOf_append (cls : ascii -> bool) (a b : string) :
  allOf cls (a ++ b) = allOf cls a && allOf cls b.
Proof. induction a; simpl; auto. now rewrite IHa, andb_assoc. Qed.

Lemma star_inv {A : Type} (cls : ascii -> bool) (k : string -> option A)
    (s : string) (r : A) :
  Re.star cls k s = Some r ->
  exists w s', s = (w ++ s')%string /\ allOf cls w = true /\ k s' = Some r.
Proof.
  induction s as [|c s IH]; simpl.
  - intros H. now exists "", "".
  - destruct (cls c) eqn:C.
    + destruct (Re.star cls k s) as [r'|] eqn:E.
      * intros [= ->]. destruct (IH eq_refl) as (w & s' & -> & W & K).
        exists (String c w), s'. simpl. now rewrite C, W.
      * intros H. now exists "", (String c s).
    + intros H. now exists "", (String c s).
Qed.


(** The greedy star takes the whole run when the continuation accepts what
    follows it. *)
Lemma star_greedy {A : Type} (cls : ascii -> bool) (k : string -> option A)
    (w s' : string) (r : A) :
  allOf cls w = true ->
  (forall c t, s' = String c t -> cls c = false) ->
  k s' = Some r -> Re.star cls k (w ++ s') = Some r.
Proof.
  intros W N K. induction w as [|c w IH]; simpl.
  - destruct s' as [|c t]; simpl; auto. now rewrite (N c t eq_refl).
  - simpl in W. apply andb_true_iff in W. destruct W as [C W].
    now rewrite C, (IH W).
Qed.

Lemma star_eoi {A : Type} (cls : ascii -> bool) (r : A) (s : string) :
  Re.star cls (Re.eoi r) s = if allOf cls s then Some r else None.
Proof.
  induction s as [|c s IH]; simpl; auto.
  destruct (cls c); simpl; auto. rewrite IH. now destruct (allOf cls s).
Qed.

Lemma lit_append {A : Type} (l : string) (k : string -> option A) (s : string) :
  Re.lit l k (l ++ s) = k s.
Proof. unfold Re.lit. now rewrite startsWith_append, drop_append. Qed.

Lemma lit_inv {A : Type} (l : string) (k : string -> option A) (s : string)
    (r : A) :
  Re.lit l k s = Some r -> exists s', s = (l ++ s')%string /\ k s' = Some r.
Proof.
  unfold Re.lit. destruct (JS.startsWith s l) eqn:E; [|discriminate].
  apply startsWith_iff in E. destruct E as [t ->]. rewrite drop_append. eauto.
Qed.

Lemma plusLazy_inv {A : Type} (cls : ascii -> bool)
    (k : string -> string -> option A) (s acc : string) (r : A) :
  Re.plusLazy cls k acc s = Some r ->
  exists v s', s = (v ++ s')%string /\ v <> "" /\ allOf cls v = true
               /\ k (acc ++ v)%string s' = Some r.
Proof.
  revert acc; induction s as [|c s IH]; intros acc; simpl; [discriminate|].
  destruct (cls c) eqn:C; [|discriminate].
  destruct (k (acc ++ String c "")%string s) as [r'|] eqn:K.
  - intros [= ->]. exists (String c ""), s. simpl. rewrite C. repeat split; auto.
    discriminate.
  - intros H. destruct (IH _ H) as (v & s' & -> & NE & V & K').
    exists (String c v), s'. simpl. rewrite C, V. repeat split; auto.
    + discriminate.
    + now rewrite append_assoc in K'.
Qed.


(** ** Trimming *)

Lemma allOf_trimEnd (s : string) :
  allOf JS.isWhiteSpace s = true -> JS.trimEnd s = "".
Proof.
  induction s as [|c s IH]; simpl; auto. intros H.
  apply andb_true_iff in H. destruct H as [C W]. now rewrite (IH W), C.
Qed.

Lemma trimStart_split (s : string) :
  exists w, s = (w ++ JS.trimStart s)%string /\ allOf JS.isWhiteSpace w = true.
Proof.
  induction s as [|c s (w & E & W)]; simpl.
  - now exists "".
  - destruct (JS.isWhiteSpace c) eqn:C.
    + exists (String c w). simpl. rewrite C, W. now rewrite <- E.
    + now exists "".
Qed.

Lemma trimStart_head (s : string) (c : ascii) (t : string) :
  JS.trimStart s = String c t -> JS.isWhiteSpace c = false.
Proof.
  induction s as [|d s IH]; simpl; [discriminate|].
  destruct (JS.isWhiteSpace d) eqn:D; auto. now intros [= <- <-].
Qed.

Lemma trimEnd_split (s : string) :
  exists w, s = (JS.trimEnd s ++ w)%string /\ allOf JS.isWhiteSpace w = true.
Proof.
  induction s as [|c s (w & E & W)]; simpl.
  - now exists "".
  - destruct (JS.trimEnd s) as [|d t] eqn:T.
    + destruct (JS.isWhiteSpace c) eqn:C.
      * exists (String c w). simpl in *. rewrite C, W. now subst.
      * exists w. simpl in *. now subst.
    + exists w. simpl in *. now rewrite <- E.
Qed.

Lemma trimEnd_head (c : ascii) (t : string) :
  JS.isWhiteSpace c = false ->
  exists t', JS.trimEnd (String c t) = String c t'.
Proof.
  intros C. simpl. destruct (JS.trimEnd t); rewrite ?C; eauto.
Qed.

Lemma trimEnd_idem (s : string) : JS.trimEnd (JS.trimEnd s) = JS.trimEnd s.
Proof.
  induction s as [|c s IH]; simpl; auto.
  destruct (JS.trimEnd s) as [|d t] eqn:T.
  - destruct (JS.isWhiteSpace c) eqn:C; simpl; auto. now rewrite C.
  - simpl. simpl in IH. now rewrite IH.
Qed.

Lemma trim_split (raw : string) :
  exists w3 w4, raw = (w3 ++ JS.trim raw ++ w4)%string
    /\ allOf JS.isWhiteSpace w3 = true /\ allOf JS.isWhiteSpace w4 = true.
Proof.
  destruct (trimStart_split raw) as (w3 & E3 & W3).
  destruct (trimEnd_split (JS.trimStart raw)) as (w4 & E4 & W4).
  exists w3, w4. unfold JS.trim. now rewrite <- E4, <- E3.
Qed.

Lemma trim_head (raw : string) (c : ascii) (t : string) :
  JS.trim raw = String c t -> JS.isWhiteSpace c = false.
Proof.
  unfold JS.trim. destruct (JS.trimStart raw) as [|d s] eqn:E; [discriminate|].
  pose proof (trimStart_head _ _ _ E) as D.
  destruct (@trimEnd_head d s D) as [t' ->]. now intros [= <- _].
Qed.

Lemma allOf_trimStart (s : string) :
  allOf JS.isWhiteSpace s = true -> JS.trimStart s = "".
Proof.
  induction s as [|c s IH]; simpl; auto. intros H.
  apply andb_true_iff in H. destruct H as [C W]. now rewrite C, (IH W).
Qed.

(** The trimmed string is empty exactly for a blank string. *)
Lemma trim_blank_iff (s : string) : JS.trim s = "" <-> Blank s.
Proof.
  unfold Blank. split.
  - intros E. destruct (trim_split s) as (w3 & w4 & S & W3 & W4).
    rewrite E in S. rewrite S, allOf_append, W3. exact W4.
  - intros B. unfold JS.trim. now rewrite (allOf_trimStart _ B).
Qed.

Lemma trim_trimEnd (raw : string) : JS.trimEnd (JS.trim raw) = JS.trim raw.
Proof. apply trimEnd_idem. Qed.

(** The lazy capture followed by [\s*$] stops at the last character that
    is not white space. *)
Lemma plusLazy_value (v w4 acc : string) :
  v <> "" -> JS.trimEnd v = v -> allOf Re.dot v = true ->
  allOf JS.isWhiteSpace w4 = true ->
  Re.plusLazy Re.dot
    (fun captured => Re.star JS.isWhiteSpace (Re.eoi captured)) acc (v ++ w4)
  = Some (acc ++ v)%string.
Proof.
  revert acc; induction v as [|c v IH]; intros acc NE T D W; [congruence|].
  simpl in D. apply andb_true_iff in D. destruct D as [Dc D].
  simpl. rewrite Dc, star_eoi.
  destruct v as [|c' v].
  - simpl in *. now rewrite W.
  - assert (JS.trimEnd (String c' v) = String c' v) as T'.
    { simpl in T. simpl. destruct (JS.trimEnd v) eqn:E.
      - destruct (JS.isWhiteSpace c'); [destruct (JS.isWhiteSpace c)|];
          congruence.
      - congruence. }
    assert (allOf JS.isWhiteSpace (String c' v ++ w4) = false) as F.
    { rewrite allOf_append. destruct (allOf JS.isWhiteSpace (String c' v)) eqn:E; auto.
      apply allOf_trimEnd in E. congruence. }
    rewrite F, IH; auto; [|discriminate]. now rewrite append_assoc.
Qed.

Lemma matchRedirect_value (ws1 ws2 raw : string) :
  allOf JS.isWhiteSpace ws1 = true -> allOf JS.isWhiteSpace ws2 = true ->
  JS.trim raw <> "" -> allOf Re.dot (JS.trim raw) = true ->
  matchRedirect (ws1 ++ "redirect" ++ ws2 ++ ":" ++ raw) = Some (JS.trim raw).
Proof.
  intros W1 W2 NE D. unfold matchRedirect.
  destruct (trim_split raw) as (w3 & w4 & E & W3 & W4).
  rewrite E at 1.
  apply star_greedy; auto.
  { intros c t [= <- _]. reflexivity. }
  rewrite lit_append.
  apply star_greedy; auto.
  { intros c t [= <- _]. reflexivity. }
  rewrite lit_append.
  apply star_greedy; auto.
  { intros c t H. destruct (JS.trim raw) as [|d s] eqn:T; [congruence|].
    injection H as <- _. now apply (trim_head raw _ _ T). }
  apply (plusLazy_value (JS.trim raw) w4 ""); auto. apply trim_trimEnd.
Qed.

Lemma matchRedirect_inv (line v : string) :
  matchRedirect line = Some v ->
  exists ws1 ws2 ws3 ws4,
    line = (ws1 ++ "redirect" ++ ws2 ++ ":" ++ ws3 ++ v ++ ws4)%string
    /\ allOf JS.isWhiteSpace ws1 = true /\ allOf JS.isWhiteSpace ws2 = true
    /\ allOf JS.isWhiteSpace ws3 = true /\ allOf JS.isWhiteSpace ws4 = true
    /\ v <> "" /\ allOf Re.dot v = true.
Proof.
  unfold matchRedirect. intros H.
  apply star_inv in H. destruct H as (ws1 & s1 & -> & W1 & H).
  apply lit_inv in H. destruct H as (s2 & -> & H).
  apply star_inv in H. destruct H as (ws2 & s3 & -> & W2 & H).
  apply lit_inv in H. destruct H as (s4 & -> & H).
  apply star_inv in H. destruct H as (ws3 & s5 & -> & W3 & H).
  apply plusLazy_inv in H. destruct H as (v' & s6 & -> & NE & D & H).
  simpl in H. rewrite star_eoi in H.
  destruct (allOf JS.isWhiteSpace s6) eqn:W4; [|discriminate].
  injection H as <-.
  exists ws1, ws2, ws3, s6. repeat split; auto.
Qed.


Lemma slice_middle (a b c : string) :
  JS.slice (a ++ b ++ c) (JS.len a) (JS.len a + JS.len b) = b.
Proof.
  unfold JS.slice, JS.relIndex, JS.len. rewrite !length_append.
  destruct (Z.of_nat (String.length a) <? 0) eqn:E1;
    [apply Z.ltb_lt in E1; lia|].
  destruct (Z.of_nat (String.length a) + Z.of_nat (String.length b) <? 0) eqn:E2;
    [apply Z.ltb_lt in E2; lia|].
  replace (Z.to_nat (Z.min (Z.of_nat (String.length a)) _))
    with (String.length a) by lia.
  replace (Z.to_nat _) with (String.length b) by lia.
  rewrite drop_append. apply take_append.
Qed.

Lemma sliceFrom_append (a b : string) : JS.sliceFrom (a ++ b) (JS.len a) = b.
Proof.
  unfold JS.len. rewrite sliceFrom_drop by (rewrite length_append; lia).
  apply drop_append.
Qed.

(** When the first "---" after the opening one closes the block, the parser
    reads the block between the two and the body after the second. *)
Lemma parseFrontmatter_block (fm rest : string) :
  (forall n, (3 <= n < 3 + String.length fm)%nat ->
             ~ OccursAt ("---" ++ fm ++ "---" ++ rest) "---" n) ->
  parseFrontmatter ("---" ++ fm ++ "---" ++ rest)
  = {| redirect := firstRedirect (JS.split LF fm);
       body := stripLeadingNewline rest |}.
Proof.
  intros First. unfold parseFrontmatter.
  rewrite startsWith_append. cbn [negb].
  assert (OccursAt ("---" ++ fm ++ "---" ++ rest) "---" (3 + String.length fm))
    as Here.
  { exists ("---" ++ fm)%string, rest. split.
    - now rewrite !append_assoc.
    - now rewrite length_append. }
  assert (3 <= String.length ("---" ++ fm ++ "---" ++ rest))%nat as L3
    by (rewrite length_append; simpl; lia).
  destruct (indexOf_cases ("---" ++ fm ++ "---" ++ rest) "---" 3 L3)
    as [[_ N]|(n & E & L & O & F)].
  - exfalso. apply (N (3 + String.length fm)%nat); [lia | exact Here].
  - assert (n = 3 + String.length fm)%nat as ->.
    { destruct (Nat.lt_trichotomy n (3 + String.length fm)) as [H|[H|H]]; auto.
      - exfalso. apply (First n); auto.
      - exfalso. apply (F (3 + String.length fm)%nat); auto. lia. }
    change (Z.of_nat 3) with 3 in E. rewrite E.
    destruct (Z.of_nat (3 + String.length fm) =? -1) eqn:Neg;
      [apply Z.eqb_eq in Neg; lia|].
    f_equal.
    + do 2 f_equal.
      replace (Z.of_nat (3 + String.length fm))
        with (JS.len "---" + JS.len fm) by (unfold JS.len; change (String.length "---") with 3%nat; lia).
      exact (slice_middle "---" fm ("---" ++ rest)).
    + f_equal.
      replace (Z.of_nat (3 + String.length fm) + 3)
        with (JS.len ("---" ++ fm ++ "---"))
        by (unfold JS.len; rewrite !length_append;
            change (String.length "---") with 3%nat; lia).
      replace ("---" ++ fm ++ "---" ++ rest)%string
        with (("---" ++ fm ++ "---") ++ rest)%string
        by (now rewrite !append_assoc).
      apply sliceFrom_append.
Qed.










(* ================================================================== *)
(** * The resolution pipeline *)
(* ================================================================== *)

(** ** Logs *)

Lemma bind_ret_r {A : Type} (m : M A) : bind m (fun a => ret a) = m.
Proof. destruct m as [a t]. unfold bind, ret. now rewrite app_nil_r. Qed.

Lemma bind_assoc {A B C : Type} (m : M A) (f : A -> M B) (g : B -> M C) :
  bind (bind m f) g = bind m (fun a => bind (f a) g).
Proof.
  destruct m as [a t]. unfold bind. destruct (f a) as [b t2].
  destruct (g b) as [c t3]. now rewrite app_assoc.
Qed.

Lemma bind_ret_l {A B : Type} (a : A) (f : A -> M B) : bind (ret a) f = f a.
Proof. unfold bind, ret. now destruct (f a). Qed.

Lemma value_bind {A B : Type} (m : M A) (k : A -> M B) :
  value (bind m k) = value (k (value m)).
Proof. destruct m as [a t]. unfold bind, value. simpl. now destruct (k a). Qed.

Lemma trace_bind {A B : Type} (m : M A) (k : A -> M B) :
  trace (bind m k) = (trace m ++ trace (k (value m)))%list.
Proof. destruct m as [a t]. unfold bind, trace, value. simpl. now destruct (k a). Qed.

Lemma attempts_app (a b : list event) :
  attempts (a ++ b) = (attempts a ++ attempts b)%list.
Proof. induction a as [|[] a IH]; simpl; auto. now rewrite IH. Qed.

Lemma fetches_app (a b : list event) :
  fetches (a ++ b) = (fetches a ++ fetches b)%list.
Proof. induction a as [|[] a IH]; simpl; auto. now rewrite IH. Qed.

Lemma reads_app (a b : list event) : reads (a ++ b) = (reads a ++ reads b)%list.
Proof. induction a as [|[] a IH]; simpl; auto. now rewrite IH. Qed.

Lemma bodyReads_app (a b : list event) :
  bodyReads (a ++ b) = (bodyReads a ++ bodyReads b)%list.
Proof. induction a as [|[] a IH]; simpl; auto. now rewrite IH. Qed.

Lemma converted_app (a b : list event) :
  converted (a ++ b) = (converted a ++ converted b)%list.
Proof. induction a as [|[] a IH]; simpl; auto. now rewrite IH. Qed.

(** ** The artifact store *)

Lemma fsOnly_nil : fsOnly [].
Proof. repeat split. Qed.

Lemma fsOnly_app (a b : list event) : fsOnly a -> fsOnly b -> fsOnly (a ++ b).
Proof.
  intros (A1 & A2 & A3 & A4) (B1 & B2 & B3 & B4). unfold fsOnly.
  rewrite attempts_app, fetches_app, bodyReads_app, converted_app.
  now rewrite A1, A2, A3, A4, B1, B2, B3, B4.
Qed.

Lemma isPathWithinDirectory_iff (filePath directory : string) :
  isPathWithinDirectory filePath directory = true
  <-> filePath = directory \/ StartsWith filePath (directory ++ "/").
Proof.
  unfold isPathWithinDirectory.
  rewrite orb_true_iff, startsWith_iff, String.eqb_eq. tauto.
Qed.

Lemma scanRouteGroups_log (w : World) (appDir : string) (segments groups : list string) :
  fsOnly (trace (scanRouteGroups w appDir segments groups))
  /\ Forall (fun p => isPathWithinDirectory p appDir = true)
       (reads (trace (scanRouteGroups w appDir segments groups))).
Proof.
  induction groups as [|g groups [IH1 IH2]]; cbn [scanRouteGroups].
  - split; [apply fsOnly_nil | constructor].
  - destruct (isPathWithinDirectory _ appDir) eqn:E; cbn [negb]; auto.
    unfold tryReadFile. rewrite ?trace_bind, ?value_bind.
    cbn [emit ret trace value fst snd app].
    destruct (readFile w _); cbn [ret trace snd reads].
    + split; [repeat split | repeat constructor; auto].
    + split.
      * apply (@fsOnly_app [EvReadFile _]); auto. repeat split.
      * constructor; auto.
Qed.

Lemma findPageMd_log (w : World) (requestPath : string) :
  fsOnly (trace (findPageMd w requestPath))
  /\ Forall (fun p => isPathWithinDirectory p (Path.join [cwd w; "app"]) = true)
       (reads (trace (findPageMd w requestPath))).
Proof.
  unfold findPageMd.
  set (appDir := Path.join [cwd w; "app"]).
  set (segments := if JS.truthy _ then _ else _).
  destruct (isPathWithinDirectory _ appDir) eqn:E; cbn [negb].
  - unfold tryReadFile. rewrite !trace_bind, !value_bind.
    cbn [emit ret trace value fst snd app].
    destruct (readFile w _); cbn [ret trace snd reads].
    + split; [repeat split | repeat constructor; auto].
    + rewrite ?trace_bind, ?value_bind. cbn [emit ret trace value fst snd app].
      destruct (readdir w appDir) as [topDirs|]; cbn [ret trace snd reads].
      * destruct (scanRouteGroups_log w appDir segments
                    (filter (fun d => JS.startsWith d "(" && JS.endsWith d ")") topDirs))
          as [F R].
        split.
        -- apply (@fsOnly_app [EvReadFile _; EvReaddir _]); auto. repeat split.
        -- constructor; auto.
      * split; [repeat split | repeat constructor; auto].
  - split; [apply fsOnly_nil | constructor].
Qed.

Lemma findPageMd_fsOnly (w : World) (path : string) (pm : option string)
    (tr : list event) :
  findPageMd w path = (pm, tr) -> fsOnly tr.
Proof.
  intros E. destruct (findPageMd_log w path) as [F _]. now rewrite E in F.
Qed.

Example findPageMd_examples :
  findPageMd Demo.world "/pricing"
  = (Some "# Pricing", [EvReadFile "/srv/app/pricing/page.md"])
  /\ findPageMd Demo.world "/docs"
     = (Some "# Docs", [EvReadFile "/srv/app/docs/page.md"; EvReaddir "/srv/app";
                        EvReadFile "/srv/app/(main)/docs/page.md"])
  /\ findPageMd Demo.world "/" 
     = (None, [EvReadFile "/srv/app/page.md"; EvReaddir "/srv/app";
               EvReadFile "/srv/app/(main)/page.md"])
  /\ findPageMd Demo.world "/../../etc/passwd" = (None, [])
  /\ findPageMd Demo.world "/docs/../../.." = (None, []).
Proof. repeat split; vm_compute; reflexivity. Qed.

Lemma In_reads (p : string) (t : list event) :
  In (EvReadFile p) t <-> In p (reads t).
Proof.
  induction t as [|e t IH]; simpl; [tauto|].
  destruct e; simpl; rewrite <- IH; intuition (try congruence).
Qed.

(** C5.  Every file the artifact store reads, for the direct candidate or
    for a route-group candidate, has passed the containment check: it is
    the content root or lies under it.  A direct candidate that escapes
    ends the lookup with "not found" before anything is read, and no
    escaping candidate is ever read. *)
Theorem findPageMd_contained (w : World) (requestPath : string) :
  let appDir := Path.join [cwd w; "app"] in
  (forall p, In (EvReadFile p) (trace (findPageMd w requestPath)) ->
             p = appDir \/ StartsWith p (appDir ++ "/"))
  /\ (forall p, ~ (p = appDir \/ StartsWith p (appDir ++ "/")) ->
                ~ In (EvReadFile p) (trace (findPageMd w requestPath)))
  /\ (let normalizedPath :=
        if String.eqb requestPath "/" then ""
        else stripLeadingSlash requestPath in
      let segments :=
        if JS.truthy normalizedPath then JS.split "/" normalizedPath else [] in
      let directPath :=
        Path.resolve (cwd w) ([appDir] ++ segments ++ ["page.md"]) in
      ~ (directPath = appDir \/ StartsWith directPath (appDir ++ "/")) ->
      findPageMd w requestPath = (None, [])).
Proof.
  intros appDir.
  assert (forall p, In (EvReadFile p) (trace (findPageMd w requestPath)) ->
                    p = appDir \/ StartsWith p (appDir ++ "/")) as Main.
  { intros p I. apply In_reads in I.
    destruct (findPageMd_log w requestPath) as [_ F].
    rewrite Forall_forall in F. now apply isPathWithinDirectory_iff, F. }
  split; [exact Main|]. split.
  - intros p N I. now apply N, Main.
  - intros normalizedPath segments directPath N. unfold findPageMd.
    fold appDir. fold normalizedPath. fold segments. fold directPath.
    destruct (isPathWithinDirectory directPath appDir) eqn:E; auto.
    exfalso. now apply N, isPathWithinDirectory_iff.
Qed.

(** The guarantee at work: a route-group read is under the root, and a
    traversal path whose target exists outside the root is not read. *)
Lemma findPageMd_contained_witness :
  StartsWith "/srv/app/(main)/docs/page.md" "/srv/app/"
  /\ findPageMd Demo.world "/../../etc/passwd" = (None, [])
  /\ readFile Demo.world "/etc/passwd/page.md" = Some "secret".
Proof.
  split; [|split].
  - destruct (proj1 (findPageMd_contained Demo.world "/docs")
                "/srv/app/(main)/docs/page.md") as [E|S].
    + vm_compute. auto.
    + vm_compute in E. discriminate.
    + exact S.
  - apply (proj2 (proj2 (findPageMd_contained Demo.world "/../../etc/passwd"))).
    intros [E|S].
    + vm_compute in E. discriminate.
    + apply startsWith_iff in S. vm_compute in S. discriminate.
  - reflexivity.
Defined.

(** ** Tests of the handler *)

Lemma firstRedirect_nonempty (lines : list string) (q : string) :
  firstRedirect lines = Some q -> q <> "".
Proof.
  induction lines as [|l lines IH]; simpl; [discriminate|].
  destruct (matchRedirect l) as [v|] eqn:E; auto. intros [= <-].
  destruct (matchRedirect_inv _ _ E) as (? & ? & ? & ? & H). tauto.
Qed.

(** A redirect read from frontmatter is never the empty string, so the
    truthiness test of the handler only separates "absent" from
    "present". *)
Lemma redirect_truthy (c : string) :
  whenTruthy (redirect (parseFrontmatter c)) = redirect (parseFrontmatter c).
Proof.
  destruct (redirect (parseFrontmatter c)) as [q|] eqn:E; auto. simpl.
  assert (q <> "") as NE.
  { unfold parseFrontmatter in E.
    destruct (negb _); [discriminate|].
    destruct (_ =? -1); [discriminate|]. simpl in E.
    now apply firstRedirect_nonempty in E. }
  apply truthy_iff in NE. now rewrite NE.
Qed.

Lemma live_lookup (w : World) (path : string) :
  value (findPageMd w path) = None ->
  findPageMd w path = (None, trace (findPageMd w path)).
Proof. destruct (findPageMd w path) as [v t]. cbn. now intros ->. Qed.

Lemma depthOf_next (options : ResolveOptions) :
  depthOf (nextOptions options) = (depthOf options + 1)%nat.
Proof. reflexivity. Qed.

Lemma ok_not_followable (depth : nat) (response : Response) :
  ok response = true -> followable depth response = false.
Proof.
  unfold ok, followable. rewrite andb_true_iff, !Z.leb_le. intros [_ H].
  destruct (depth <? MAX_REDIRECTS)%nat; auto. cbn [andb].
  apply andb_false_iff. left. apply Z.leb_gt. lia.
Qed.

Lemma declaresTooLong_iff (response : Response) :
  declaresTooLong response = true <-> DeclaredTooLong response.
Proof.
  unfold declaresTooLong, DeclaredTooLong, whenTruthy. split.
  - destruct (rheaders response "content-length") as [cl|]; [|discriminate].
    destruct (JS.truthy cl); [|discriminate]. eauto.
  - intros (cl & -> & G). destruct (JS.truthy cl) eqn:T; auto.
    apply negb_false_iff, String.eqb_eq in T. subst cl.
    vm_compute in G. discriminate.
Qed.

Lemma declaresTooLong_false (response : Response) :
  ~ DeclaredTooLong response -> declaresTooLong response = false.
Proof.
  intros N. destruct (declaresTooLong response) eqn:E; auto.
  exfalso. now apply N, declaresTooLong_iff.
Qed.

(** ** Proof steps shared by the lemmas on the pipeline *)

(** Case analysis on a scrutinee that is not itself a case analysis. *)
Ltac break_inner :=
  match goal with
  | |- context [match ?x with _ => _ end] =>
      lazymatch x with
      | context [match _ with _ => _ end] => fail
      | _ => destruct x eqn:?
      end
  end.

Ltac log_done := cbn iota beta; rewrite ?app_nil_r, <- ?app_assoc; reflexivity.

(** Run through the branches of one pass: the log of [findPageMd] is
    named, every test is decided, and the logged pair is exposed. *)
Ltac pass_cases w path :=
  unfold pass, bind, emit, ret, trace, value;
  let pm := fresh "pageMd" in
  let tr := fresh "fsLog" in
  let E := fresh "Lookup" in
  destruct (findPageMd w path) as [pm tr] eqn:E;
  repeat (break_inner; cbn iota beta); cbn [fst snd].

(** After a miss of the curated lookup and an answered fetch, the pass is
    decided by the response alone. *)
Ltac live_pass H :=
  let L := fresh "L" in let A := fresh "A" in let U := fresh "U" in
  let B := fresh "B" in let S := fresh "S" in let F := fresh "F" in
  destruct H as (L & A & U & B & S & F);
  unfold pass; rewrite (live_lookup _ _ L);
  rewrite A, U, B, F;
  apply String.eqb_eq in S; rewrite S;
  unfold bind, emit, ret; cbn [negb].

(** Read the projections of a log that brackets the log of the lookup. *)
Ltac log_simpl w path :=
  let Fa := fresh "Fa" in let Ff := fresh "Ff" in
  let Fb := fresh "Fb" in let Fc := fresh "Fc" in
  destruct (findPageMd_log w path) as [(Fa & Ff & Fb & Fc) _];
  cbn [trace value fst snd];
  rewrite ?attempts_app, ?fetches_app, ?bodyReads_app, ?converted_app,
    ?Fa, ?Ff, ?Fb, ?Fc;
  cbn [app attempts fetches bodyReads converted].

(** ** One pass, then the recursion, in a fixed world for a fixed request *)

Section Pipeline.

Variable w : World.
Variable request : Request.

(** [resolveMarkdown] is one pass, then either its result or the recursive
    call. *)
Lemma resolveMarkdown_fuel_pass (fuel : nat) (path : string) (options : ResolveOptions) :
  resolveMarkdown_fuel (S fuel) w request path options
  = bind (pass w request path options) (continue fuel w request options).
Proof.
  cbn [resolveMarkdown_fuel]. fold (nextOptions options).
  unfold pass, continue, bind, emit, ret.
  repeat (break_inner; cbn iota beta); log_done.
Qed.


Lemma pass_attempts (path : string)
    (options : ResolveOptions) :
  attempts (trace (pass w request path options)) = [(path, depthOf options)].
Proof.
  pass_cases w path;
    match goal with
    | H : findPageMd _ _ = _ |- _ =>
        destruct (findPageMd_fsOnly _ _ _ _ H) as (A & _)
    end;
    cbn [app attempts]; rewrite ?attempts_app, ?A; cbn [app attempts];
    reflexivity.
Qed.

(** A pass only calls for another one below the redirect limit. *)
Lemma pass_follows_depth (path target : string)
    (options : ResolveOptions) :
  value (pass w request path options) = Follows target ->
  (depthOf options < MAX_REDIRECTS)%nat.
Proof.
  unfold depthOf. pass_cases w path; try discriminate; intros _.
  - match goal with
    | H : (negb _ || _)%bool = false |- _ =>
        apply orb_false_iff in H; destruct H as [_ H];
        now apply Nat.leb_gt in H
    end.
  - match goal with
    | H : followable _ _ = true |- _ =>
        unfold followable in H; apply andb_true_iff in H; destruct H as [H _];
        apply andb_true_iff in H; destruct H as [H _];
        now apply Nat.ltb_lt in H
    end.
Qed.

(** A pass fetches at most once, with the internal headers, at the URL
    built from its own path, and only when that URL is on the origin's
    host. *)
Lemma pass_fetches (path : string)
    (options : ResolveOptions) :
  Forall (ToOrigin w request options)
    (fetches (trace (pass w request path options)))
  /\ (List.length (fetches (trace (pass w request path options))) <= 1)%nat.
Proof.
  unfold ToOrigin.
  pass_cases w path;
    match goal with
    | H : findPageMd _ _ = _ |- _ =>
        destruct (findPageMd_fsOnly _ _ _ _ H) as (_ & A & _)
    end;
    cbn [app fetches]; rewrite ?fetches_app, ?A; cbn [app fetches List.length];
    (split; [|lia]); repeat constructor;
    match goal with
    | H : negb (String.eqb (host ?u) (host ?b)) = false |- _ =>
        apply negb_false_iff, String.eqb_eq in H; exists path, u, b; auto
    end.
Qed.

Lemma pass_alias (p q : string)
    (options : ResolveOptions) :
  Alias w p q ->
  value (pass w request p options)
  = if negb (isValidPath q) || (MAX_REDIRECTS <=? depthOf options)%nat
    then Returns None else Follows q.
Proof.
  intros (c & L & R). unfold pass. rewrite !value_bind. cbn [emit value fst].
  rewrite L, redirect_truthy, R. unfold depthOf.
  now destruct (negb (isValidPath q) || _)%bool.
Qed.

Lemma pass_page (p b : string)
    (options : ResolveOptions) :
  Page w p b ->
  value (pass w request p options)
  = Returns (Some {| content := b; cacheControl := PUBLIC_CACHE |}).
Proof.
  intros (c & L & R & <-). unfold pass. rewrite !value_bind.
  cbn [emit value fst]. now rewrite L, redirect_truthy, R.
Qed.

Lemma pass_host_mismatch (path : string)
    (options : ResolveOptions) (url base : URL) :
  value (findPageMd w path) = None ->
  enableAutoConversion options = true ->
  newURL w path (Some (baseUrlOf request (config options))) = Some url ->
  newURL w (baseUrlOf request (config options)) None = Some base ->
  host url <> host base ->
  pass w request path options
  = (Returns None,
     ([EvResolve path (depthOf options)] ++ trace (findPageMd w path))%list).
Proof.
  intros L A U B NH. unfold pass. rewrite (live_lookup _ _ L), A, U, B.
  apply String.eqb_neq in NH. rewrite NH. unfold bind, emit, ret. cbn [negb].
  now rewrite !app_nil_r.
Qed.

Lemma pass_disabled (path : string)
    (options : ResolveOptions) :
  value (findPageMd w path) = None ->
  enableAutoConversion options = false ->
  pass w request path options
  = (Returns None,
     ([EvResolve path (depthOf options)] ++ trace (findPageMd w path))%list).
Proof.
  intros L A. unfold pass. rewrite (live_lookup _ _ L), A.
  unfold bind, emit, ret. cbn [negb]. now rewrite !app_nil_r.
Qed.

Lemma pass_foreign_redirect (path : string)
    (options : ResolveOptions) (url base : URL) (response : Response)
    (location : string) (redirectUrl : URL) :
  LiveFetch w request path options url base response ->
  300 <= status response < 400 ->
  rheaders response "location" = Some location ->
  newURL w location (Some (href url)) = Some redirectUrl ->
  host redirectUrl <> host base ->
  pass w request path options
  = (Returns None,
     ([EvResolve path (depthOf options)] ++ trace (findPageMd w path)
      ++ [EvFetch (href url) (fetchHeaders request)])%list).
Proof.
  intros H St Loc RU NH. live_pass H.
  assert (ok response = false) as NotOk.
  { unfold ok. apply andb_false_iff. right. apply Z.leb_gt. lia. }
  apply String.eqb_neq in NH.
  destruct (followable _ response).
  - rewrite Loc. cbn [whenTruthy].
    destruct (JS.truthy location); [rewrite RU, NH|]; reflexivity.
  - rewrite NotOk. reflexivity.
Qed.

Lemma pass_redirect_at_limit (path : string)
    (options : ResolveOptions) (url base : URL) (response : Response) :
  LiveFetch w request path options url base response ->
  300 <= status response < 400 ->
  (MAX_REDIRECTS <= depthOf options)%nat ->
  pass w request path options
  = (Returns None,
     ([EvResolve path (depthOf options)] ++ trace (findPageMd w path)
      ++ [EvFetch (href url) (fetchHeaders request)])%list).
Proof.
  intros H St D. live_pass H.
  assert (followable (orDefault 0%nat (redirectDepth options)) response = false)
    as ->.
  { unfold followable. apply Nat.ltb_ge in D. unfold depthOf in D. now rewrite D. }
  assert (ok response = false) as ->; [|reflexivity].
  unfold ok. apply andb_false_iff. right. apply Z.leb_gt. lia.
Qed.

Lemma pass_failed_status (path : string)
    (options : ResolveOptions) (url base : URL) (response : Response) :
  LiveFetch w request path options url base response ->
  ~ (300 <= status response < 400) -> ok response = false ->
  pass w request path options
  = (Returns None,
     ([EvResolve path (depthOf options)] ++ trace (findPageMd w path)
      ++ [EvFetch (href url) (fetchHeaders request)])%list).
Proof.
  intros H St NotOk. live_pass H.
  assert (followable (orDefault 0%nat (redirectDepth options)) response = false)
    as ->.
  { unfold followable.
    destruct (300 <=? status response) eqn:E1;
      [|now rewrite andb_false_r].
    destruct (status response <? 400) eqn:E2; [|now rewrite andb_false_r].
    apply Z.leb_le in E1. apply Z.ltb_lt in E2. lia. }
  now rewrite NotOk.
Qed.

Lemma pass_declared_too_long (path : string)
    (options : ResolveOptions) (url base : URL) (response : Response) :
  LiveFetch w request path options url base response ->
  ok response = true -> declaresTooLong response = true ->
  pass w request path options
  = (Returns None,
     ([EvResolve path (depthOf options)] ++ trace (findPageMd w path)
      ++ [EvFetch (href url) (fetchHeaders request)])%list).
Proof.
  intros H Ok D. live_pass H.
  now rewrite (ok_not_followable _ _ Ok), Ok, D.
Qed.

Lemma pass_body_rejected (path : string)
    (options : ResolveOptions) (url base : URL) (response : Response)
    (html : string) :
  LiveFetch w request path options url base response ->
  ok response = true -> declaresTooLong response = false ->
  text response = Some html ->
  Blank html \/ MAX_HTML_SIZE < JS.len html ->
  pass w request path options
  = (Returns None,
     ([EvResolve path (depthOf options)] ++ trace (findPageMd w path)
      ++ [EvFetch (href url) (fetchHeaders request); EvText (href url)])%list).
Proof.
  intros H Ok D T R. live_pass H.
  rewrite (ok_not_followable _ _ Ok), Ok, D, T. cbn [negb].
  assert (negb (JS.truthy (JS.trim html)) || (MAX_HTML_SIZE <? JS.len html)
          = true) as ->; [|reflexivity].
  apply orb_true_iff. destruct R as [Bl|Big].
  - left. apply trim_blank_iff in Bl. now rewrite Bl.
  - right. now apply Z.ltb_lt.
Qed.

Lemma pass_converted (path : string)
    (options : ResolveOptions) (url base : URL) (response : Response)
    (html md : string) :
  LiveFetch w request path options url base response ->
  ok response = true -> declaresTooLong response = false ->
  text response = Some html ->
  ~ Blank html -> JS.len html <= MAX_HTML_SIZE ->
  htmlToMarkdown w html = Some md ->
  pass w request path options
  = (Returns (Some {| content := md; cacheControl := PRIVATE_CACHE |}),
     ([EvResolve path (depthOf options)] ++ trace (findPageMd w path)
      ++ [EvFetch (href url) (fetchHeaders request); EvText (href url);
          EvConvert html])%list).
Proof.
  intros H Ok D T NB Sm Md. live_pass H.
  rewrite (ok_not_followable _ _ Ok), Ok, D, T. cbn [negb].
  assert (negb (JS.truthy (JS.trim html)) || (MAX_HTML_SIZE <? JS.len html)
          = false) as ->.
  { apply orb_false_iff. split.
    - apply negb_false_iff, truthy_iff. intros E. now apply NB, trim_blank_iff.
    - apply Z.ltb_ge. lia. }
  now rewrite Md.
Qed.



Lemma value_resolve_S (fuel : nat) (path : string) (options : ResolveOptions) :
  value (resolveMarkdown_fuel (S fuel) w request path options)
  = value (continue fuel w request options (value (pass w request path options))).
Proof. now rewrite resolveMarkdown_fuel_pass, value_bind. Qed.

Lemma trace_resolve_S (fuel : nat) (path : string) (options : ResolveOptions) :
  trace (resolveMarkdown_fuel (S fuel) w request path options)
  = (trace (pass w request path options)
     ++ trace (continue fuel w request options
                 (value (pass w request path options))))%list.
Proof. now rewrite resolveMarkdown_fuel_pass, trace_bind. Qed.

(** With an allowance above the number of redirect depths still open, the
    recursion ends by returning. *)
Lemma resolve_fuel_returns (fuel : nat) :
  forall (path : string) (options : ResolveOptions),
    (MAX_REDIRECTS - depthOf options < fuel)%nat ->
    exists r, value (resolveMarkdown_fuel fuel w request path options) = Done r.
Proof.
  induction fuel as [|fuel IH]; intros path options Hf; [lia|].
  rewrite value_resolve_S.
  destruct (value (pass w request path options)) as [r|target] eqn:E;
    cbn [continue].
  - now exists r.
  - apply pass_follows_depth in E. apply IH. rewrite depthOf_next. lia.
Qed.

(** The calls of one resolution run at consecutive depths, and there are
    no more of them than depths up to the limit. *)
Lemma resolve_fuel_attempts (fuel : nat) :
  forall (path : string) (options : ResolveOptions),
    let calls :=
      attempts (trace (resolveMarkdown_fuel fuel w request path options)) in
    map snd calls = seq (depthOf options) (List.length calls)
    /\ (List.length calls <= S (MAX_REDIRECTS - depthOf options))%nat.
Proof.
  induction fuel as [|fuel IH]; intros path options; cbn zeta.
  - cbn. split; [reflexivity | lia].
  - rewrite trace_resolve_S, attempts_app, pass_attempts.
    destruct (value (pass w request path options)) as [r|target] eqn:E;
      cbn [continue].
    + cbn. split; [reflexivity | lia].
    + apply pass_follows_depth in E.
      destruct (IH target (nextOptions options)) as [C L].
      rewrite depthOf_next in C, L. cbn [app map snd List.length seq].
      split.
      * f_equal. now rewrite C, Nat.add_1_r.
      * lia.
Qed.

(** Every fetch of a resolution goes to the origin's host. *)
Lemma resolve_fuel_fetches (fuel : nat) :
  forall (path : string) (options : ResolveOptions),
    Forall (ToOrigin w request options)
      (fetches (trace (resolveMarkdown_fuel fuel w request path options))).
Proof.
  induction fuel as [|fuel IH]; intros path options.
  - constructor.
  - rewrite trace_resolve_S, fetches_app. apply Forall_app. split.
    + apply pass_fetches.
    + destruct (value (pass w request path options)) as [r|target];
        cbn [continue]; [constructor|].
      exact (IH target (nextOptions options)).
Qed.

(** More allowance than needed changes nothing. *)
Lemma resolve_fuel_stable (fuel extra : nat) :
  forall (path : string) (options : ResolveOptions),
    (MAX_REDIRECTS - depthOf options < fuel)%nat ->
    resolveMarkdown_fuel (fuel + extra) w request path options
    = resolveMarkdown_fuel fuel w request path options.
Proof.
  induction fuel as [|fuel IH]; intros path options Hf; [lia|].
  cbn [Nat.add]. rewrite !resolveMarkdown_fuel_pass.
  destruct (pass w request path options) as [e t] eqn:P.
  assert (value (pass w request path options) = e) as V by now rewrite P.
  unfold bind. destruct e as [r|target]; cbn [continue]; auto.
  apply pass_follows_depth in V. rewrite IH; auto. rewrite depthOf_next. lia.
Qed.

Lemma resolve_alias_step (fuel : nat) (p q : string) (options : ResolveOptions) :
  Alias w p q -> isValidPath q = true ->
  (depthOf options < MAX_REDIRECTS)%nat ->
  value (resolveMarkdown_fuel (S fuel) w request p options)
  = value (resolveMarkdown_fuel fuel w request q (nextOptions options))
  /\ attempts (trace (resolveMarkdown_fuel (S fuel) w request p options))
     = (p, depthOf options)
       :: attempts (trace (resolveMarkdown_fuel fuel w request q
                             (nextOptions options))).
Proof.
  intros A V D.
  rewrite value_resolve_S, trace_resolve_S, attempts_app, pass_attempts.
  rewrite (pass_alias _ _ options A), V.
  apply Nat.leb_gt in D. rewrite D. cbn [negb orb continue]. auto.
Qed.

Lemma resolve_alias_limit (fuel : nat) (p q : string) (options : ResolveOptions) :
  Alias w p q -> (MAX_REDIRECTS <= depthOf options)%nat ->
  value (resolveMarkdown_fuel (S fuel) w request p options) = Done None
  /\ attempts (trace (resolveMarkdown_fuel (S fuel) w request p options))
     = [(p, depthOf options)].
Proof.
  intros A D.
  rewrite value_resolve_S, trace_resolve_S, attempts_app, pass_attempts.
  rewrite (pass_alias _ _ options A).
  apply Nat.leb_le in D. rewrite D, orb_true_r. cbn [continue]. auto.
Qed.

Lemma resolve_page (fuel : nat) (p b : string) (options : ResolveOptions) :
  Page w p b ->
  value (resolveMarkdown_fuel (S fuel) w request p options)
  = Done (Some {| content := b; cacheControl := PUBLIC_CACHE |})
  /\ attempts (trace (resolveMarkdown_fuel (S fuel) w request p options))
     = [(p, depthOf options)].
Proof.
  intros P.
  rewrite value_resolve_S, trace_resolve_S, attempts_app, pass_attempts.
  rewrite (pass_page _ _ options P). cbn [continue]. auto.
Qed.

Lemma resolve_of_pass_returns (path : string)
    (options : ResolveOptions) (r : option Resolved) (t : list event) :
  pass w request path options = (Returns r, t) ->
  resolveMarkdown w request path options = (Done r, t).
Proof.
  intros P. unfold resolveMarkdown. rewrite resolveMarkdown_fuel_pass, P.
  unfold bind. cbn [continue ret]. now rewrite app_nil_r.
Qed.

Lemma resolve_unavailable (path : string)
    (options : ResolveOptions) :
  Unavailable w request path options ->
  value (resolveMarkdown w request path options) = Done None.
Proof.
  intros [url base L A U B NH
         |url base response location ru H St Loc RU NH
         |target Al D
         |url base response H St D
         |url base response H Ok DL
         |url base response html H Ok T Big
         |L A
         |url base response H St].
  - erewrite resolve_of_pass_returns; [reflexivity|].
    eapply pass_host_mismatch; eauto.
  - erewrite resolve_of_pass_returns; [reflexivity|].
    eapply pass_foreign_redirect; eauto.
  - unfold resolveMarkdown. eapply resolve_alias_limit; eauto.
  - erewrite resolve_of_pass_returns; [reflexivity|].
    eapply pass_redirect_at_limit; eauto.
  - apply declaresTooLong_iff in DL.
    erewrite resolve_of_pass_returns; [reflexivity|].
    eapply pass_declared_too_long; eauto.
  - destruct (declaresTooLong response) eqn:DL.
    + erewrite resolve_of_pass_returns; [reflexivity|].
      eapply pass_declared_too_long; eauto.
    + erewrite resolve_of_pass_returns; [reflexivity|].
      eapply pass_body_rejected; eauto.
  - erewrite resolve_of_pass_returns; [reflexivity|].
    eapply pass_disabled; eauto.
  - erewrite resolve_of_pass_returns; [reflexivity|].
    eapply pass_failed_status; eauto; [lia|].
    unfold ok. apply andb_false_iff. right. apply Z.leb_gt. lia.
Qed.


End Pipeline.

(** ** The claims on the pipeline *)

Example resolve_examples :
  resolveMarkdown Demo.world Demo.request "/pricing" Demo.options
  = (Done (Some {| content := "# Pricing"; cacheControl := PUBLIC_CACHE |}),
     [EvResolve "/pricing" 0; EvReadFile "/srv/app/pricing/page.md"])
  /\ value (resolveMarkdown Demo.world Demo.request "/home" Demo.options)
     = Done (Some {| content := "# Pricing"; cacheControl := PUBLIC_CACHE |})
  /\ value (resolveMarkdown Demo.world Demo.request "/about" Demo.options)
     = Done (Some {| content := "md:<main>About</main>";
                     cacheControl := PRIVATE_CACHE |})
  /\ value (resolveMarkdown Demo.world Demo.request "/old" Demo.options)
     = Done (Some {| content := "# Pricing"; cacheControl := PUBLIC_CACHE |})
  /\ value (resolveMarkdown Demo.world Demo.request "/out" Demo.options) = Done None
  /\ value (resolveMarkdown Demo.world Demo.request "/huge" Demo.options) = Done None
  /\ value (resolveMarkdown Demo.world Demo.request "/blank" Demo.options) = Done None
  /\ value (resolveMarkdown Demo.world Demo.request "/a" Demo.options)
     = Done (Some {| content := "C body"; cacheControl := PUBLIC_CACHE |})
  /\ attempts (trace (resolveMarkdown Demo.world Demo.request "/a" Demo.options))
     = [("/a", 0%nat); ("/b", 1%nat); ("/c", 2%nat)]
  /\ value (resolveMarkdown Demo.world Demo.request "/h0" Demo.options) = Done None
  /\ value (resolveMarkdown Demo.world Demo.request "/h1" Demo.options)
     = Done (Some {| content := "H4 body"; cacheControl := PUBLIC_CACHE |})
  /\ value (resolveMarkdown Demo.world Demo.request "/missing" Demo.options)
     = Done None.
Proof. repeat split; vm_compute; reflexivity. Qed.

(** C3.  Every resolution returns (its result does not depend on the
    allowance of the model), after at most 4 calls of the pipeline (the
    first one and at most 3 hops), and each hop runs one redirect depth
    higher than the call it comes from.  A chain of artifacts A -> B
    -> C, C without redirect, resolves to the body of C at depth 2; a chain
    that needs a fourth hop ends with "not found" at depth 3. *)
Theorem resolution_bounded :
  (forall (w : World) (request : Request) (path : string)
          (options : ResolveOptions),
      let run := resolveMarkdown w request path options in
      (exists r, value run = Done r)
      /\ (forall extra,
            resolveMarkdown_fuel (S (MAX_REDIRECTS - depthOf options) + extra)
              w request path options = run)
      /\ (List.length (attempts (trace run)) <= 4)%nat
      /\ map snd (attempts (trace run))
         = seq (depthOf options) (List.length (attempts (trace run))))
  /\ (forall (w : World) (request : Request) (options : ResolveOptions)
             (A B C bodyC : string),
         redirectDepth options = None ->
         Alias w A B -> isValidPath B = true ->
         Alias w B C -> isValidPath C = true ->
         Page w C bodyC ->
         let run := resolveMarkdown w request A options in
         value run
         = Done (Some {| content := bodyC; cacheControl := PUBLIC_CACHE |})
         /\ attempts (trace run) = [(A, 0%nat); (B, 1%nat); (C, 2%nat)])
  /\ (forall (w : World) (request : Request) (options : ResolveOptions)
             (A B C D E : string),
         redirectDepth options = None ->
         Alias w A B -> isValidPath B = true ->
         Alias w B C -> isValidPath C = true ->
         Alias w C D -> isValidPath D = true ->
         Alias w D E ->
         let run := resolveMarkdown w request A options in
         value run = Done None
         /\ attempts (trace run)
            = [(A, 0%nat); (B, 1%nat); (C, 2%nat); (D, 3%nat)]).
Proof.
  split; [|split].
  - intros w request path options run. subst run. unfold resolveMarkdown.
    fold (depthOf options). split; [|split; [|split]].
    + apply resolve_fuel_returns. lia.
    + intros extra. apply resolve_fuel_stable. lia.
    + destruct (resolve_fuel_attempts w request
                  (S (MAX_REDIRECTS - depthOf options)) path options) as [_ L].
      unfold MAX_REDIRECTS in *. lia.
    + apply resolve_fuel_attempts.
  - intros w request options A B C bodyC D0 AB VB BC VC PC run. subst run.
    unfold resolveMarkdown. rewrite D0. cbn [orDefault Nat.sub MAX_REDIRECTS].
    assert (depthOf options = 0)%nat as E0 by (unfold depthOf; now rewrite D0).
    destruct (resolve_alias_step w request 3 A B options AB VB) as [V1 T1];
      [rewrite E0; unfold MAX_REDIRECTS; lia|].
    destruct (resolve_alias_step w request 2 B C (nextOptions options) BC VC)
      as [V2 T2]; [rewrite depthOf_next, E0; unfold MAX_REDIRECTS; lia|].
    destruct (resolve_page w request 1 C bodyC
                (nextOptions (nextOptions options)) PC) as [V3 T3].
    rewrite V1, V2, V3, T1, T2, T3. rewrite !depthOf_next, E0. auto.
  - intros w request options A B C D E D0 AB VB BC VC CD VD DE run. subst run.
    unfold resolveMarkdown. rewrite D0. cbn [orDefault Nat.sub MAX_REDIRECTS].
    assert (depthOf options = 0)%nat as E0 by (unfold depthOf; now rewrite D0).
    destruct (resolve_alias_step w request 3 A B options AB VB) as [V1 T1];
      [rewrite E0; unfold MAX_REDIRECTS; lia|].
    destruct (resolve_alias_step w request 2 B C (nextOptions options) BC VC)
      as [V2 T2]; [rewrite depthOf_next, E0; unfold MAX_REDIRECTS; lia|].
    destruct (resolve_alias_step w request 1 C D
                (nextOptions (nextOptions options)) CD VD)
      as [V3 T3]; [rewrite !depthOf_next, E0; unfold MAX_REDIRECTS; lia|].
    destruct (resolve_alias_limit w request 0 D E
                (nextOptions (nextOptions (nextOptions options))) DE)
      as [V4 T4]; [rewrite !depthOf_next, E0; unfold MAX_REDIRECTS; lia|].
    rewrite V1, V2, V3, V4, T1, T2, T3, T4. rewrite !depthOf_next, E0. auto.
Qed.

(** The chains of the site: /a -> /b -> /c resolves in two hops, and
    /h0 -> /h1 -> /h2 -> /h3 -> /h4 gives up at the fourth. *)
Lemma resolution_bounded_witness :
  value (resolveMarkdown Demo.world Demo.request "/a" Demo.options)
  = Done (Some {| content := "C body"; cacheControl := PUBLIC_CACHE |})
  /\ attempts (trace (resolveMarkdown Demo.world Demo.request "/a" Demo.options))
     = [("/a", 0%nat); ("/b", 1%nat); ("/c", 2%nat)]
  /\ value (resolveMarkdown Demo.world Demo.request "/h0" Demo.options)
     = Done None
  /\ (List.length
        (attempts (trace (resolveMarkdown Demo.world Demo.request "/h0"
                            Demo.options))) <= 4)%nat.
Proof.
  assert (forall p q, value (findPageMd Demo.world p) = Some (Demo.alias q) ->
                      redirect (parseFrontmatter (Demo.alias q)) = Some q ->
                      Alias Demo.world p q) as mk
    by (intros p q L R; now exists (Demo.alias q)).
  destruct resolution_bounded as (Bound & Chain2 & Chain4).
  destruct (Chain2 Demo.world Demo.request Demo.options "/a" "/b" "/c" "C body")
    as [V T]; try reflexivity.
  { apply mk; vm_compute; reflexivity. }
  { apply mk; vm_compute; reflexivity. }
  { exists "C body". repeat split; vm_compute; reflexivity. }
  destruct (Chain4 Demo.world Demo.request Demo.options
              "/h0" "/h1" "/h2" "/h3" "/h4") as [V4 _]; try reflexivity.
  { apply mk; vm_compute; reflexivity. }
  { apply mk; vm_compute; reflexivity. }
  { apply mk; vm_compute; reflexivity. }
  { apply mk; vm_compute; reflexivity. }
  destruct (Bound Demo.world Demo.request "/h0" Demo.options) as (_ & _ & L & _).
  repeat split; assumption.
Defined.

(** On the site, every path without an artifact is fetched from the
    origin. *)
Lemma demo_live (path : string) :
  value (findPageMd Demo.world path) = None ->
  JS.startsWith path "/" = true ->
  LiveFetch Demo.world Demo.request path Demo.options
    (Demo.urlOf path) Demo.origin (Demo.responseOf path).
Proof.
  intros L S. apply startsWith_iff in S. destruct S as [t ->].
  repeat split; auto.
Qed.

Lemma GET_target (w : World) (config : option GeoConfig) (request : Request)
    (path : string) :
  TargetPath request path -> isValidPath path = true ->
  value (GET w config request)
  = match value (resolveMarkdown w request path (handlerOptions config)) with
    | OutOfFuel => OutOfFuel
    | Done (Some m) =>
        Done (markdownResponse (content m) path
                (match config with Some c => preamble c | None => None end)
                (match config with Some c => postamble c | None => None end)
                (cacheControl m))
    | Done None => Done (noMarkdown path)
    end.
Proof.
  intros [NE T] V. unfold GET.
  assert (whenTruthy
            match targetPathHeader request with
            | Some h => Some h
            | None => pathParam request
            end = Some path) as ->.
  { apply truthy_iff in NE.
    destruct T as [->|[-> ->]]; cbn [whenTruthy]; now rewrite NE. }
  rewrite V. cbn [negb]. rewrite value_bind.
  destruct (value (resolveMarkdown w request path (handlerOptions config)))
    as [[m|]|]; reflexivity.
Qed.

(** Whatever the reason, the handler answers with the same 404. *)
Lemma GET_unavailable (w : World) (config : option GeoConfig)
    (request : Request) (path : string) :
  TargetPath request path -> isValidPath path = true ->
  Unavailable w request path (handlerOptions config) ->
  value (GET w config request) = Done (noMarkdown path).
Proof.
  intros T V U. rewrite (GET_target _ _ _ _ T V).
  now rewrite (resolve_unavailable _ _ _ _ U).
Qed.

Example GET_examples :
  value (GET Demo.world None Demo.request) = Done (noMarkdown "/out")
  /\ value (GET Demo.world None
              {| targetPathHeader := None; pathParam := Some "/about";
                 cookie := None; nextUrl_protocol := "http:";
                 nextUrl_host := "site.test" |})
     = Done {| code := 200; payload := "md:<main>About</main>";
               headersOut := [("Content-Type", "text/markdown; charset=utf-8");
                              ("Vary", "Accept, User-Agent");
                              ("Cache-Control", PRIVATE_CACHE)] |}
  /\ value (GET Demo.world None
              {| targetPathHeader := None; pathParam := Some "//evil.test/x";
                 cookie := None; nextUrl_protocol := "http:";
                 nextUrl_host := "site.test" |})
     = Done {| code := 400; payload := "Invalid path parameter";
               headersOut := [] |}
  /\ value (GET Demo.world None
              {| targetPathHeader := None; pathParam := None;
                 cookie := None; nextUrl_protocol := "http:";
                 nextUrl_host := "site.test" |})
     = Done {| code := 400; payload := "Missing path parameter";
               headersOut := [] |}.
Proof. repeat split; vm_compute; reflexivity. Qed.

(** C2.  A live fetch answered by a redirect whose location resolves to
    another host than the origin's ends the resolution with "not found":
    the redirect is not followed (no further call, no further fetch), the
    body is neither read nor converted, and the only fetch that carried the
    forwarded headers is the one to the origin that was rejected.  In any
    resolution, every fetch goes to the origin's host.  Every kind of
    rejection, and every plain miss, ends in that same outcome, which the
    handler turns into one and the same 404 response. *)
Theorem foreign_redirect_rejected :
  (forall (w : World) (request : Request) (path : string)
          (options : ResolveOptions) (url base : URL) (response : Response)
          (location : string) (redirectUrl : URL),
      LiveFetch w request path options url base response ->
      300 <= status response < 400 ->
      rheaders response "location" = Some location ->
      newURL w location (Some (href url)) = Some redirectUrl ->
      host redirectUrl <> host base ->
      let run := resolveMarkdown w request path options in
      value run = Done None
      /\ attempts (trace run) = [(path, depthOf options)]
      /\ fetches (trace run) = [(href url, fetchHeaders request)]
      /\ bodyReads (trace run) = []
      /\ converted (trace run) = [])
  /\ (forall (w : World) (request : Request) (path : string)
             (options : ResolveOptions),
         Forall (ToOrigin w request options)
           (fetches (trace (resolveMarkdown w request path options))))
  /\ (forall (w : World) (request : Request) (path : string)
             (options : ResolveOptions),
         Unavailable w request path options ->
         value (resolveMarkdown w request path options) = Done None)
  /\ (forall (w : World) (config : option GeoConfig) (request : Request)
             (path : string),
         TargetPath request path -> isValidPath path = true ->
         Unavailable w request path (handlerOptions config) ->
         value (GET w config request) = Done (noMarkdown path)).
Proof.
  split; [|split; [|split]].
  - intros w request path options url base response location ru
           H St Loc RU NH run. subst run.
    erewrite resolve_of_pass_returns
      by (eapply pass_foreign_redirect; eauto).
    log_simpl w path. repeat split.
  - intros w request path options. apply resolve_fuel_fetches.
  - exact resolve_unavailable.
  - intros w config request path T V U. now apply GET_unavailable.
Qed.

(** The rejected redirect of the site: /out answers 302 with a location on
    another host.  Nothing is served, the one fetch that carried the cookie
    went to the origin, and the handler answers as for a page that does not
    exist. *)
Lemma foreign_redirect_rejected_witness :
  value (resolveMarkdown Demo.world Demo.request "/out" Demo.options) = Done None
  /\ fetches (trace (resolveMarkdown Demo.world Demo.request "/out" Demo.options))
     = [("http://site.test/out",
         [(INTERNAL_FETCH_HEADER, "1"); ("Accept", "text/html");
          ("Cookie", "session=42")])]
  /\ value (resolveMarkdown Demo.world Demo.request "/missing" Demo.options)
     = Done None
  /\ value (GET Demo.world None Demo.request) = Done (noMarkdown "/out").
Proof.
  destruct foreign_redirect_rejected as (Foreign & _ & Collapse & Handler).
  assert (LiveFetch Demo.world Demo.request "/out" Demo.options
            (Demo.urlOf "/out") Demo.origin (Demo.responseOf "/out"))
    as Live by (apply demo_live; reflexivity).
  assert (300 <= status (Demo.responseOf "/out") < 400) as St by (cbn; lia).
  assert (host {| href := "http://evil.test/steal"; host := "evil.test";
                  pathname := "/steal" |} <> host Demo.origin) as NH
    by (cbn; discriminate).
  destruct (Foreign Demo.world Demo.request "/out" Demo.options
              (Demo.urlOf "/out") Demo.origin
              (Demo.responseOf "/out") "http://evil.test/steal"
              {| href := "http://evil.test/steal"; host := "evil.test";
                 pathname := "/steal" |} Live St eq_refl eq_refl NH)
    as (V & _ & F & _).
  split; [exact V|]. split; [exact F|]. split.
  - apply Collapse. eapply MissFailedStatus.
    + apply demo_live; reflexivity.
    + cbn. lia.
  - apply Handler.
    + split; [discriminate | left; reflexivity].
    + reflexivity.
    + exact (ForeignRedirect Demo.world Demo.request "/out"
               (handlerOptions None) (Demo.urlOf "/out") Demo.origin
               (Demo.responseOf "/out") "http://evil.test/steal"
               {| href := "http://evil.test/steal"; host := "evil.test";
                  pathname := "/steal" |} Live St eq_refl eq_refl NH).
Defined.

Example max_html_size : MAX_HTML_SIZE = 5 * 2 ^ 20.
Proof. reflexivity. Qed.

(** C6.  For a response of the live fetch that is not a redirect: a
    declared content length above the ceiling ends the resolution with "not
    found" without the body being read; a body longer than the ceiling, or
    a blank one, ends it with "not found", after the body has been read
    when the response is a success that declares no excessive length; in
    each case nothing reaches the converter. *)
Theorem size_guard (w : World) (request : Request) (path : string)
    (options : ResolveOptions) (url base : URL) (response : Response) :
  LiveFetch w request path options url base response ->
  ~ (300 <= status response < 400) ->
  let run := resolveMarkdown w request path options in
  (DeclaredTooLong response ->
   value run = Done None /\ bodyReads (trace run) = []
   /\ converted (trace run) = [])
  /\ (forall html, text response = Some html ->
        MAX_HTML_SIZE < JS.len html ->
        value run = Done None /\ converted (trace run) = []
        /\ (ok response = true -> ~ DeclaredTooLong response ->
            bodyReads (trace run) = [href url]))
  /\ (forall html, text response = Some html -> Blank html ->
        value run = Done None /\ converted (trace run) = []
        /\ (ok response = true -> ~ DeclaredTooLong response ->
            bodyReads (trace run) = [href url])).
Proof.
  intros H NR run. subst run.
  destruct (ok response) eqn:Ok.
  - assert (forall html, text response = Some html ->
              Blank html \/ MAX_HTML_SIZE < JS.len html ->
              value (resolveMarkdown w request path options) = Done None
              /\ converted (trace (resolveMarkdown w request path options)) = []
              /\ (true = true -> ~ DeclaredTooLong response ->
                  bodyReads (trace (resolveMarkdown w request path options))
                  = [href url])) as Body.
    { intros html T R. destruct (declaresTooLong response) eqn:DL.
      - erewrite resolve_of_pass_returns
          by (eapply pass_declared_too_long; eauto).
        log_simpl w path. repeat split. intros _ N. exfalso.
        now apply N, declaresTooLong_iff.
      - erewrite resolve_of_pass_returns by (eapply pass_body_rejected; eauto).
        log_simpl w path. repeat split. }
    split; [|split].
    + intros DL. apply declaresTooLong_iff in DL.
      erewrite resolve_of_pass_returns
        by (eapply pass_declared_too_long; eauto).
      log_simpl w path. repeat split.
    + intros html T Big. apply (Body html T). now right.
    + intros html T Bl. apply (Body html T). now left.
  - erewrite resolve_of_pass_returns by (eapply pass_failed_status; eauto).
    log_simpl w path. repeat split; discriminate.
Qed.

Lemma len_doubled (n : nat) (s : string) :
  JS.len (Demo.doubled n s) = 2 ^ Z.of_nat n * JS.len s.
Proof.
  revert s; induction n as [|n IH]; intros s.
  - cbn [Demo.doubled]. change (Z.of_nat 0) with 0. lia.
  - cbn [Demo.doubled]. rewrite IH. unfold JS.len. rewrite length_append.
    rewrite Nat2Z.inj_succ, Z.pow_succ_r by lia. lia.
Qed.

(** The three rejections on the site: /huge declares 99999999 bytes, /big
    sends [2^23] characters without declaring them, /blank sends white
    space. *)
Lemma size_guard_witness :
  (value (resolveMarkdown Demo.world Demo.request "/huge" Demo.options)
   = Done None
   /\ bodyReads (trace (resolveMarkdown Demo.world Demo.request "/huge"
                          Demo.options)) = [])
  /\ (value (resolveMarkdown Demo.world Demo.request "/big" Demo.options)
      = Done None
      /\ converted (trace (resolveMarkdown Demo.world Demo.request "/big"
                             Demo.options)) = [])
  /\ (value (resolveMarkdown Demo.world Demo.request "/blank" Demo.options)
      = Done None
      /\ converted (trace (resolveMarkdown Demo.world Demo.request "/blank"
                             Demo.options)) = []).
Proof.
  split; [|split].
  - destruct (@size_guard Demo.world Demo.request "/huge" Demo.options
                (Demo.urlOf "/huge") Demo.origin
                (Demo.responseOf "/huge"))
      as (Declared & _).
    + apply demo_live; reflexivity.
    + cbn. lia.
    + destruct Declared as (V & B & _); [|now split].
      exists "99999999". split; [reflexivity | vm_compute; reflexivity].
  - destruct (@size_guard Demo.world Demo.request "/big" Demo.options
                (Demo.urlOf "/big") Demo.origin
                (Demo.responseOf "/big"))
      as (_ & Long & _).
    + apply demo_live; reflexivity.
    + cbn. lia.
    + destruct (Long Demo.bigBody) as (V & C & _); [reflexivity| |now split].
      unfold Demo.bigBody. rewrite len_doubled. reflexivity.
  - destruct (@size_guard Demo.world Demo.request "/blank" Demo.options
                (Demo.urlOf "/blank") Demo.origin
                (Demo.responseOf "/blank"))
      as (_ & _ & Bl).
    + apply demo_live; reflexivity.
    + cbn. lia.
    + destruct (Bl (" " ++ nl ++ " ")%string) as (V & C & _);
        [reflexivity | reflexivity | now split].
Defined.

Example cache_policies_differ :
  StartsWith PUBLIC_CACHE "public" /\ StartsWith PRIVATE_CACHE "private"
  /\ PUBLIC_CACHE <> PRIVATE_CACHE.
Proof.
  repeat split; [now exists ", max-age=300, s-maxage=3600"
                | now exists ", max-age=300" | discriminate].
Qed.



(* ================================================================== *)
(** * Signal detection: what each signal says about the request *)
(* ================================================================== *)

Lemma first_or_none {A : Type} (P : A -> Prop)
    (dec : forall x, {P x} + {~ P x}) (xs : list A) :
  (exists x, FirstWith P xs x) \/ Forall (fun y => ~ P y) xs.
Proof.
  induction xs as [|y xs IH]; [right; constructor|].
  destruct (dec y) as [Y|Y].
  - left. exists y, [], xs. repeat split; auto.
  - destruct IH as [(x & pre & post & -> & F & Px)|F].
    + left. exists x, (y :: pre), post. repeat split; auto.
    + right. now constructor.
Qed.

Lemma NamesMarkdown_dec (e : string) : {NamesMarkdown e} + {~ NamesMarkdown e}.
Proof. unfold NamesMarkdown. apply string_dec. Qed.

Lemma Contains_dec (s sub : string) : {Contains s sub} + {~ Contains s sub}.
Proof.
  destruct (JS.includes s sub) eqn:E.
  - left. now apply includes_iff.
  - right. intros H. apply includes_iff in H. congruence.
Qed.

(** The accept check succeeds exactly on the headers that ask for
    markdown. *)
Lemma parseAcceptMarkdown_positive (accept : string) :
  Num.gt (parseAcceptMarkdown accept) (Num.ofZ 0) = true
  <-> AcceptsMarkdown accept (parseAcceptMarkdown accept).
Proof.
  split.
  - intros G.
    destruct (first_or_none NamesMarkdown NamesMarkdown_dec (JS.split "," accept))
      as [(e & pre & post & S & F & N)|F].
    + exists e. split; [now exists pre, post|]. split; auto.
      eapply parseAcceptMarkdown_first; eauto.
    + rewrite (parseAcceptMarkdown_absent _ F) in G. discriminate.
  - now intros (e & _ & _ & G).
Qed.

Lemma AcceptsMarkdown_quality (accept : string) (q : Num.number) :
  AcceptsMarkdown accept q -> parseAcceptMarkdown accept = q.
Proof.
  intros (e & (pre & post & S & F & N) & -> & _).
  eapply parseAcceptMarkdown_first; eauto.
Qed.

Lemma agent_flag (options : option DetectOptions) :
  orDefault true
    (match options with Some o => enableUserAgentDetection o | None => None end)
  = true
  <-> agentEnabled options.
Proof.
  unfold agentEnabled. destruct options as [[? [[|]|] ?]|]; simpl; split;
    try congruence; intros H.
  - intros o [= <-]. simpl. congruence.
  - exfalso. eapply H; reflexivity.
  - intros o [= <-]. simpl. congruence.
Qed.

Lemma patterns_flag (options : option DetectOptions) :
  (BOT_USER_AGENTS
   ++ orDefault []
        (match options with Some o => additionalBotUserAgents o | None => None end))%list
  = patternsOf options.
Proof. unfold patternsOf. now destruct options as [[? ? [l|]]|]. Qed.

Lemma matchBot_first (ua : string) (patterns : list string) (sig : LlmSignal) :
  matchBot ua patterns = Some sig
  <-> exists b, sig = UserAgent b /\ FirstWith (Contains ua) patterns b.
Proof.
  induction patterns as [|p ps IH]; simpl.
  - split; [discriminate|]. intros (b & _ & pre & post & E & _).
    now destruct pre.
  - destruct (JS.includes ua p) eqn:E.
    + apply includes_iff in E. split.
      * intros [= <-]. exists p. split; auto. exists [], ps. repeat split; auto.
      * intros (b & -> & pre & post & S & F & C).
        destruct pre as [|x pre]; simpl in S; injection S as -> ->; auto.
        inversion F; contradiction.
    + assert (~ Contains ua p) as N
          by (intros H; apply includes_iff in H; congruence).
      rewrite IH. split.
      * intros (b & -> & pre & post & -> & F & C). exists b. split; auto.
        exists (p :: pre), post. repeat split; auto.
      * intros (b & -> & pre & post & S & F & C). exists b. split; auto.
        destruct pre as [|x pre]; simpl in S; injection S as -> ->;
          [contradiction|].
        exists pre, post. repeat split; auto. now inversion F.
Qed.

Lemma matchBot_none (ua : string) (patterns : list string) :
  matchBot ua patterns = None <-> Forall (fun p => ~ Contains ua p) patterns.
Proof.
  induction patterns as [|p ps IH]; simpl.
  - split; auto.
  - destruct (JS.includes ua p) eqn:E.
    + apply includes_iff in E. split; [discriminate|].
      intros F. inversion F; contradiction.
    + rewrite IH. split.
      * intros F. constructor; auto. intros H. apply includes_iff in H.
        congruence.
      * intros F. now inversion F.
Qed.

(** The three checks of [detectLlmSignal], one after the other. *)
Lemma detect_cases (pathname : string) (accept userAgent : option string)
    (options : option DetectOptions) :
  (suffixEnabled options /\ EndsWith pathname ".md"
   /\ detectLlmSignal pathname accept userAgent options
      = Some (MdSuffix (if JS.truthy (JS.slice pathname 0 (-3))
                        then JS.slice pathname 0 (-3) else "/")))
  \/ (~ (suffixEnabled options /\ EndsWith pathname ".md")
      /\ ((exists a, accept = Some a
            /\ Num.gt (parseAcceptMarkdown a) (Num.ofZ 0) = true
            /\ detectLlmSignal pathname accept userAgent options
               = Some (AcceptHeader (parseAcceptMarkdown a)))
          \/ ((forall a, accept = Some a ->
                 Num.gt (parseAcceptMarkdown a) (Num.ofZ 0) = false)
              /\ ((exists ua, userAgent = Some ua /\ ua <> ""
                    /\ agentEnabled options
                    /\ detectLlmSignal pathname accept userAgent options
                       = matchBot ua (patternsOf options))
                  \/ (~ (agentEnabled options
                         /\ exists ua, userAgent = Some ua /\ ua <> "")
                      /\ detectLlmSignal pathname accept userAgent options
                         = None))))).
Proof.
  unfold detectLlmSignal. rewrite patterns_flag.
  destruct (orDefault true _ && JS.endsWith pathname ".md") eqn:E.
  - left. apply andb_true_iff in E. destruct E as [E1 E2].
    apply suffix_flag in E1. apply endsWith_iff in E2. auto.
  - right. split.
    { intros [H1 H2]. apply suffix_flag in H1. apply endsWith_iff in H2.
      rewrite H1, H2 in E. discriminate. }
    assert ((exists a, accept = Some a
              /\ Num.gt (parseAcceptMarkdown a) (Num.ofZ 0) = true)
            \/ (forall a, accept = Some a ->
                  Num.gt (parseAcceptMarkdown a) (Num.ofZ 0) = false)) as [A|A].
    { destruct accept as [a|]; [|right; discriminate].
      destruct (Num.gt (parseAcceptMarkdown a) (Num.ofZ 0)) eqn:G.
      - left. eauto.
      - right. now intros ? [= <-]. }
    + destruct A as (a & -> & G). left. exists a. repeat split; auto.
      destruct (JS.truthy a) eqn:T; [now rewrite G|].
      apply negb_false_iff, String.eqb_eq in T. subst a. discriminate.
    + right. split; auto.
      assert (match accept with
              | Some a =>
                  if JS.truthy a
                  then if Num.gt (parseAcceptMarkdown a) (Num.ofZ 0)
                       then Some (AcceptHeader (parseAcceptMarkdown a)) else None
                  else None
              | None => None
              end = None) as ->.
      { destruct accept as [a|]; auto. rewrite (A a eq_refl).
        now destruct (JS.truthy a). }
      destruct userAgent as [ua|].
      * destruct (orDefault true
                    (match options with
                     | Some o => enableUserAgentDetection o
                     | None => None
                     end)) eqn:U; cbn [andb].
        -- destruct (JS.truthy ua) eqn:T.
           ++ left. exists ua. apply truthy_iff in T. apply agent_flag in U.
              auto.
           ++ right. split; auto. intros (_ & u & [= <-] & N).
              apply truthy_iff in N. congruence.
        -- right. split; auto. intros (H & _). apply agent_flag in H.
           congruence.
      * right. split; auto. intros (_ & u & H & _). discriminate.
Qed.

(** X1.  The suffix signal and the path it carries.  The MdSuffix signal
    is only given with suffix detection enabled; the original path it
    carries is never empty, and the request path is that path followed by
    ".md", except for the bare request path ".md", which is attributed to
    "/". *)
Theorem suffix_signal_origin (pathname : string) (accept userAgent : option string)
    (options : option DetectOptions) (originalPath : string) :
  detectLlmSignal pathname accept userAgent options
  = Some (MdSuffix originalPath) ->
  suffixEnabled options /\ originalPath <> ""
  /\ (pathname = (originalPath ++ ".md")%string
      \/ (pathname = ".md" /\ originalPath = "/")).
Proof.
  intros D.
  destruct (detect_cases pathname accept userAgent options)
    as [(En & [stem ->] & E)|(_ & [(a & _ & _ & E)|(_ & [(ua & _ & _ & _ & E)|(_ & E)])])];
    rewrite E in D.
  - rewrite slice_strip_md in D. injection D as <-. split; auto.
    destruct stem as [|c stem]; simpl; [|split; [discriminate|now left]].
    split; [discriminate|now right].
  - discriminate.
  - apply matchBot_first in D. destruct D as (b & [=] & _).
  - discriminate.
Qed.

Lemma suffix_signal_origin_witness :
  detectLlmSignal "/docs/intro.md" (Some "text/html") (Some "Mozilla/5.0") None
  = Some (MdSuffix "/docs/intro")
  /\ (suffixEnabled None /\ "/docs/intro" <> ""
      /\ ("/docs/intro.md" = ("/docs/intro" ++ ".md")%string
          \/ ("/docs/intro.md" = ".md" /\ "/docs/intro" = "/"))).
Proof.
  assert (detectLlmSignal "/docs/intro.md" (Some "text/html")
            (Some "Mozilla/5.0") None = Some (MdSuffix "/docs/intro")) as D
    by (vm_compute; reflexivity).
  split; [exact D|].
  exact (suffix_signal_origin "/docs/intro.md" (Some "text/html")
           (Some "Mozilla/5.0") None "/docs/intro" D).
Defined.

(** X2.  The accept signal and the header it comes from.  The AcceptHeader
    signal is only given when the suffix check does not fire, for an accept
    header whose first entry naming text/markdown declares the quality the
    signal carries; that quality is positive, hence a number. *)
Theorem accept_signal_origin (pathname : string) (accept userAgent : option string)
    (options : option DetectOptions) (quality : Num.number) :
  detectLlmSignal pathname accept userAgent options
  = Some (AcceptHeader quality) ->
  ~ (suffixEnabled options /\ EndsWith pathname ".md")
  /\ (exists a, accept = Some a /\ AcceptsMarkdown a quality)
  /\ Num.isNaN quality = false.
Proof.
  intros D.
  destruct (detect_cases pathname accept userAgent options)
    as [(En & _ & E)|(Off & [(a & A & G & E)|(_ & [(ua & _ & _ & _ & E)|(_ & E)])])];
    rewrite E in D; try discriminate.
  - injection D as <-. split; auto. split.
    + exists a. split; auto. now apply parseAcceptMarkdown_positive.
    + now destruct (parseAcceptMarkdown a).
  - apply matchBot_first in D. destruct D as (b & [=] & _).
Qed.

Lemma accept_signal_origin_witness :
  detectLlmSignal "/pricing" (Some "text/html, text/markdown;q=0.8")
    (Some "GPTBot/1") None
  = Some (AcceptHeader (Num.parseFloat "0.8"))
  /\ (~ (suffixEnabled None /\ EndsWith "/pricing" ".md")
      /\ (exists a, Some "text/html, text/markdown;q=0.8" = Some a
                    /\ AcceptsMarkdown a (Num.parseFloat "0.8"))
      /\ Num.isNaN (Num.parseFloat "0.8") = false).
Proof.
  assert (detectLlmSignal "/pricing" (Some "text/html, text/markdown;q=0.8")
            (Some "GPTBot/1") None
          = Some (AcceptHeader (Num.parseFloat "0.8"))) as D
    by (vm_compute; reflexivity).
  split; [exact D|].
  exact (accept_signal_origin "/pricing" (Some "text/html, text/markdown;q=0.8")
           (Some "GPTBot/1") None (Num.parseFloat "0.8") D).
Defined.

(** X3.  The user-agent signal.  Detection answers UserAgent with the
    pattern [b] exactly when the suffix check does not fire, the accept
    header (if any) does not ask for markdown, user-agent detection is
    enabled, and [b] is the first pattern, the built-in ones before the
    additional ones, that occurs in the non-empty user agent. *)
Theorem agent_signal_iff (pathname : string) (accept userAgent : option string)
    (options : option DetectOptions) (b : string) :
  detectLlmSignal pathname accept userAgent options = Some (UserAgent b)
  <-> ~ (suffixEnabled options /\ EndsWith pathname ".md")
      /\ (forall a q, accept = Some a -> ~ AcceptsMarkdown a q)
      /\ agentEnabled options
      /\ exists ua, userAgent = Some ua /\ ua <> ""
           /\ FirstWith (Contains ua) (patternsOf options) b.
Proof.
  destruct (detect_cases pathname accept userAgent options)
    as [(En & Suf & E)|(Off & [(a & A & G & E)|(NA & [(ua & U & N & Ag & E)|(NU & E)])])];
    rewrite E.
  - split; [discriminate|]. intros (Off & _). exfalso. auto.
  - split; [discriminate|]. intros (_ & NA & _). exfalso.
    apply parseAcceptMarkdown_positive in G. eapply NA; eauto.
  - assert (forall a q, accept = Some a -> ~ AcceptsMarkdown a q) as NA'.
    { intros a q A H. pose proof (AcceptsMarkdown_quality _ _ H) as Q.
      destruct H as (e & _ & _ & G). rewrite <- Q, (NA a A) in G.
      discriminate. }
    rewrite matchBot_first. split.
    + intros (b' & [= <-] & F). repeat split; auto. exists ua. auto.
    + intros (_ & _ & _ & ua' & U' & _ & F). exists b. split; auto.
      congruence.
  - split; [discriminate|]. intros (_ & _ & Ag & ua & U & N & _). exfalso.
    apply NU. split; auto. exists ua. auto.
Qed.

(** X4.  Which requests count as LLM requests.  [isLlmRequest] answers
    true exactly when one of the three signals is present: a path ending
    in ".md" with suffix detection enabled, an accept header that asks for
    markdown with a positive quality, or, with user-agent detection
    enabled, a non-empty user agent containing one of the patterns. *)
Theorem isLlmRequest_iff (pathname : string) (accept userAgent : option string)
    (options : option DetectOptions) :
  isLlmRequest pathname accept userAgent options = true
  <-> (suffixEnabled options /\ EndsWith pathname ".md")
      \/ (exists a q, accept = Some a /\ AcceptsMarkdown a q)
      \/ (agentEnabled options
          /\ exists ua b, userAgent = Some ua /\ ua <> ""
               /\ In b (patternsOf options) /\ Contains ua b).
Proof.
  unfold isLlmRequest.
  destruct (detect_cases pathname accept userAgent options)
    as [(En & Suf & E)|(Off & [(a & A & G & E)|(NA & [(ua & U & N & Ag & E)|(NU & E)])])];
    rewrite E.
  - split; auto.
  - split; auto. intros _. right. left. exists a, (parseAcceptMarkdown a).
    split; auto. now apply parseAcceptMarkdown_positive.
  - assert (forall a q, accept = Some a -> ~ AcceptsMarkdown a q) as NA'.
    { intros a q A H. pose proof (AcceptsMarkdown_quality _ _ H) as Q.
      destruct H as (e & _ & _ & G). rewrite <- Q, (NA a A) in G.
      discriminate. }
    destruct (matchBot ua (patternsOf options)) as [sig|] eqn:MB.
    + split; auto. intros _. right. right. split; auto.
      apply matchBot_first in MB. destruct MB as (b & _ & pre & post & S & _ & C).
      exists ua, b. repeat split; auto. rewrite S. apply in_elt.
    + apply matchBot_none in MB. split; [discriminate|].
      intros [H|[(a & q & A & H)|(_ & ua' & b & U' & _ & I & C)]].
      * contradiction.
      * exfalso. eapply NA'; eauto.
      * exfalso. assert (ua' = ua) as -> by congruence.
        rewrite Forall_forall in MB. eapply MB; eauto.
  - split; [discriminate|].
    intros [H|[(a & q & A & H)|(Ag & ua & b & U & N & _)]].
    + contradiction.
    + exfalso. pose proof (AcceptsMarkdown_quality _ _ H) as Q.
      destruct H as (e & _ & _ & G). rewrite <- Q, (NA a A) in G.
      discriminate.
    + exfalso. apply NU. split; auto. exists ua. auto.
Qed.

(* ================================================================== *)
(** * The middleware *)
(* ================================================================== *)

Lemma slice_strip_last (stem : string) (c : ascii) :
  JS.slice (stem ++ String c "") 0 (-1) = stem.
Proof.
  unfold JS.slice, JS.relIndex, JS.len. rewrite length_append.
  change (0 <? 0) with false. change (-1 <? 0) with true. cbv iota.
  change (String.length (String c "")) with 1%nat.
  replace (Z.to_nat (Z.min 0 _)) with 0%nat by lia.
  replace (Z.to_nat _) with (String.length stem) by lia.
  apply take_append.
Qed.

(** A path is excluded exactly when it falls under one of the patterns: it
    begins with what precedes the final [*] of a pattern that ends in [*],
    or it is equal to a pattern that does not. *)
Lemma isExcluded_covers (pathname : string) (patterns : list string) :
  isExcluded pathname patterns = true
  <-> exists pattern, In pattern patterns /\ Covers pattern pathname.
Proof.
  induction patterns as [|pattern rest IH]; simpl.
  - split; [discriminate|]. now intros (? & [] & _).
  - destruct (JS.endsWith pattern "*") eqn:E.
    + pose proof E as E'. apply endsWith_iff in E'. destruct E' as [prefix ->].
      rewrite slice_strip_last.
      destruct (JS.startsWith pathname prefix) eqn:S.
      * split; auto. intros _. exists (prefix ++ "*")%string. split; auto.
        left. exists prefix. split; auto. now apply startsWith_iff.
      * rewrite IH. split.
        -- intros (p & I & C). eauto.
        -- intros (p & [<-|I] & C); eauto. exfalso.
           destruct C as [(prefix' & P & SW)|(NE & _)].
           ++ assert (String.length prefix = String.length prefix') as L.
              { apply (f_equal String.length) in P.
                rewrite !length_append in P. simpl in P. lia. }
              apply append_inv_length in P; auto.
              destruct P as [<- _]. apply startsWith_iff in SW. congruence.
           ++ apply NE. now exists prefix.
    + destruct (String.eqb pathname pattern) eqn:Q.
      * apply String.eqb_eq in Q. subst pattern. split; auto. intros _.
        exists pathname. split; auto. right. split; auto.
        intros H. apply endsWith_iff in H. congruence.
      * apply String.eqb_neq in Q. rewrite IH. split.
        -- intros (p & I & C). eauto.
        -- intros (p & [<-|I] & C); eauto. exfalso.
           destruct C as [(prefix' & -> & _)|(_ & P)]; auto.
           assert (JS.endsWith (prefix' ++ "*") "*" = true)
             by (apply endsWith_iff; now exists prefix').
           congruence.
Qed.

Lemma geoMiddleware_cases (config : option MiddlewareConfig)
    (request : MiddlewareRequest) :
  geoMiddleware config request
  = match whenTruthy (headersGet (reqHeaders request) INTERNAL_FETCH_HEADER) with
    | Some _ => None
    | None =>
        if isExcluded (reqPathname request) (excludedOf config) then None
        else
          match detectLlmSignal (reqPathname request)
                  (headersGet (reqHeaders request) "accept")
                  (headersGet (reqHeaders request) "user-agent")
                  (Some (detectOptionsOf config)) with
          | None => None
          | Some sig =>
              let targetPath := targetOf sig (reqPathname request) in
              Some {| rewritePathname := GEO_ROUTE;
                      rewritePathParam := targetPath;
                      rewriteRequestHeaders :=
                        headersWith (reqHeaders request) "x-llm-target-path"
                          targetPath;
                      rewriteVary := "Accept, User-Agent" |}
          end
    end.
Proof. reflexivity. Qed.

(** The target is the request path, or the request path without its
    [.md] suffix. *)
Lemma targetOf_path (pathname : string) (accept userAgent : option string)
    (options : option DetectOptions) (sig : LlmSignal) :
  detectLlmSignal pathname accept userAgent options = Some sig ->
  targetOf sig pathname = pathname
  \/ (targetOf sig pathname <> ""
      /\ (pathname = (targetOf sig pathname ++ ".md")%string
          \/ (pathname = ".md" /\ targetOf sig pathname = "/"))).
Proof.
  intros D. destruct sig as [o| |]; auto. right. simpl.
  destruct (detect_cases pathname accept userAgent options)
    as [(En & [stem ->] & E)|(_ & [(a & _ & _ & E)|(_ & [(ua & _ & _ & _ & E)|(_ & E)])])];
    rewrite E in D; try discriminate.
  - rewrite slice_strip_md in D. injection D as <-.
    destruct stem as [|c stem]; simpl; [|split; [discriminate|now left]].
    split; [discriminate|now right].
  - apply matchBot_first in D. destruct D as (b & [=] & _).
Qed.

(** X5.  When the middleware steps aside.  The middleware returns null
    exactly when the request carries a non-empty internal-fetch header, or
    its path falls under one of the excluded patterns (the default ones
    when the configuration gives none), or detection finds no signal. *)
Theorem middleware_passes_iff (config : option MiddlewareConfig)
    (request : MiddlewareRequest) :
  geoMiddleware config request = None
  <-> (exists v, headersGet (reqHeaders request) INTERNAL_FETCH_HEADER = Some v
                 /\ v <> "")
      \/ (exists pattern,
            In pattern (excludedOf config)
            /\ Covers pattern (reqPathname request))
      \/ detectLlmSignal (reqPathname request)
            (headersGet (reqHeaders request) "accept")
            (headersGet (reqHeaders request) "user-agent")
            (Some (detectOptionsOf config)) = None.
Proof.
  rewrite geoMiddleware_cases. unfold whenTruthy.
  destruct (headersGet (reqHeaders request) INTERNAL_FETCH_HEADER) as [v|] eqn:I.
  - destruct (JS.truthy v) eqn:T.
    + split; auto. intros _. left. exists v. split; auto.
      now apply truthy_iff.
    + apply negb_false_iff, String.eqb_eq in T. subst v.
      destruct (isExcluded _ _) eqn:X.
      * split; auto. intros _. right. left. now apply isExcluded_covers.
      * destruct (detectLlmSignal _ _ _ _) as [sig|] eqn:D.
        -- split; [discriminate|].
           intros [(v & [= <-] & N)|[C|C]]; try congruence.
           apply isExcluded_covers in C. congruence.
        -- split; auto.
  - destruct (isExcluded _ _) eqn:X.
    + split; auto. intros _. right. left. now apply isExcluded_covers.
    + destruct (detectLlmSignal _ _ _ _) as [sig|] eqn:D.
      * split; [discriminate|].
        intros [(v & [=] & N)|[C|C]]; try congruence.
        apply isExcluded_covers in C. congruence.
      * split; auto.
Qed.

(** X6.  No loop through the internal fetch.  A request that carries the
    headers the handler sends with its internal fetch is never rewritten,
    whatever its path, its other headers and the configuration are. *)
Theorem internal_fetch_passes (config : option MiddlewareConfig)
    (handlerRequest : Request) (request : MiddlewareRequest) :
  (forall name v, In (name, v) (fetchHeaders handlerRequest) ->
                  headersGet (reqHeaders request) name = Some v) ->
  geoMiddleware config request = None.
Proof.
  intros H. rewrite geoMiddleware_cases.
  rewrite (H INTERNAL_FETCH_HEADER "1"); [reflexivity|].
  unfold fetchHeaders. simpl. auto.
Qed.

Lemma internal_fetch_passes_witness :
  (forall name v, In (name, v) (fetchHeaders Demo.request) ->
     headersGet (reqHeaders (Traffic.internal "/pricing.md")) name = Some v)
  /\ geoMiddleware None (Traffic.internal "/pricing.md") = None.
Proof.
  assert (forall name v, In (name, v) (fetchHeaders Demo.request) ->
            headersGet (reqHeaders (Traffic.internal "/pricing.md")) name
            = Some v) as H.
  { intros name v I. vm_compute in I.
    destruct I as [[= <- <-]|[[= <- <-]|[[= <- <-]|[]]]]; reflexivity. }
  split; [exact H|].
  exact (internal_fetch_passes None Demo.request (Traffic.internal "/pricing.md") H).
Defined.

(** X7.  What a rewrite carries.  When the middleware rewrites a request,
    the request is not an internal fetch, its path falls under no excluded
    pattern, and detection gave a signal; the rewrite goes to the internal
    route, and its [path] parameter and its [x-llm-target-path] request
    header both hold the target path: the original path of a suffix
    signal, the request path otherwise.  A header of that name sent by the
    client is replaced, every other request header is passed on, and the
    response varies on Accept and User-Agent. *)
Theorem rewrite_target (config : option MiddlewareConfig)
    (request : MiddlewareRequest) (rw : Rewrite) :
  geoMiddleware config request = Some rw ->
  whenTruthy (headersGet (reqHeaders request) INTERNAL_FETCH_HEADER) = None
  /\ ~ (exists pattern,
          In pattern (excludedOf config) /\ Covers pattern (reqPathname request))
  /\ exists sig,
       detectLlmSignal (reqPathname request)
         (headersGet (reqHeaders request) "accept")
         (headersGet (reqHeaders request) "user-agent")
         (Some (detectOptionsOf config)) = Some sig
       /\ rewritePathname rw = GEO_ROUTE
       /\ rewritePathParam rw = targetOf sig (reqPathname request)
       /\ (forall name,
             headersGet (rewriteRequestHeaders rw) name
             = if String.eqb (JS.toLowerCase name) "x-llm-target-path"
               then Some (targetOf sig (reqPathname request))
               else headersGet (reqHeaders request) name)
       /\ rewriteVary rw = "Accept, User-Agent".
Proof.
  rewrite geoMiddleware_cases.
  destruct (whenTruthy _) eqn:I; [discriminate|].
  destruct (isExcluded _ _) eqn:X; [discriminate|].
  destruct (detectLlmSignal _ _ _ _) as [sig|] eqn:D; [|discriminate].
  intros [= <-]. split; auto. split.
  - intros C. apply isExcluded_covers in C. congruence.
  - exists sig. repeat split; auto.
Qed.

Lemma rewrite_target_witness :
  geoMiddleware None Traffic.crawler = Some Traffic.crawlerRewrite
  /\ headersGet (reqHeaders Traffic.crawler) "x-llm-target-path"
     = Some "/admin/secrets"
  /\ headersGet (rewriteRequestHeaders Traffic.crawlerRewrite) "X-LLM-Target-Path"
     = Some "/pricing"
  /\ rewritePathParam Traffic.crawlerRewrite = "/pricing".
Proof.
  assert (geoMiddleware None Traffic.crawler = Some Traffic.crawlerRewrite) as G
    by (vm_compute; reflexivity).
  split; [exact G|]. split; [reflexivity|].
  destruct (rewrite_target None Traffic.crawler Traffic.crawlerRewrite G)
    as (_ & _ & sig & D & _ & P & H & _).
  assert (sig = UserAgent "GPTBot") as -> by (vm_compute in D; congruence).
  split; [exact (H "X-LLM-Target-Path")|exact P].
Defined.

(** X8.  From the middleware to the handler.  When the middleware rewrites
    a request with a non-empty path and the route handler receives the
    request headers of the rewrite, the handler serves the target path the
    middleware chose, and that path is the request path or the request
    path without its ".md" suffix ("/" for the bare path ".md"): the
    [path] query parameter of the original URL and a target header sent by
    the client play no part.  A target that fails validation is answered
    with 400 without any attempt to resolve it; a valid target is answered
    with the outcome of [resolveMarkdown] on it. *)
Theorem rewrite_reaches_handler (w : World) (mconfig : option MiddlewareConfig)
    (config : option GeoConfig) (request : MiddlewareRequest) (rw : Rewrite)
    (routeRequest : Request) :
  geoMiddleware mconfig request = Some rw ->
  reqPathname request <> "" ->
  targetPathHeader routeRequest
  = headersGet (rewriteRequestHeaders rw) "x-llm-target-path" ->
  let target := rewritePathParam rw in
  (target = reqPathname request
   \/ reqPathname request = (target ++ ".md")%string
   \/ (reqPathname request = ".md" /\ target = "/"))
  /\ TargetPath routeRequest target
  /\ (isValidPath target = false ->
      GET w config routeRequest
      = ret (Done {| code := 400; payload := "Invalid path parameter";
                     headersOut := [] |}))
  /\ (isValidPath target = true ->
      value (GET w config routeRequest)
      = match value (resolveMarkdown w routeRequest target (handlerOptions config)) with
        | OutOfFuel => OutOfFuel
        | Done (Some m) =>
            Done (markdownResponse (content m) target
                    (match config with Some c => preamble c | None => None end)
                    (match config with Some c => postamble c | None => None end)
                    (cacheControl m))
        | Done None => Done (noMarkdown target)
        end).
Proof.
  rewrite geoMiddleware_cases.
  destruct (whenTruthy _) eqn:I; [discriminate|].
  destruct (isExcluded _ _) eqn:X; [discriminate|].
  destruct (detectLlmSignal _ _ _ _) as [sig|] eqn:D; [|discriminate].
  intros [= <-] NE Hd. cbn [rewritePathParam rewriteRequestHeaders] in *.
  unfold headersGet, headersWith in Hd. rewrite String.eqb_refl in Hd.
  pose proof (targetOf_path _ _ _ _ _ D) as T.
  assert (targetOf sig (reqPathname request) <> "") as NT.
  { destruct T as [->|[N _]]; auto. }
  assert (TargetPath routeRequest (targetOf sig (reqPathname request))) as TP.
  { split; auto. }
  split; [|split; [exact TP|split]].
  - destruct T as [->|[_ [E|E]]]; auto.
  - intros V. unfold GET. rewrite Hd. cbn [whenTruthy].
    apply truthy_iff in NT. rewrite NT, V. reflexivity.
  - intros V. now apply GET_target.
Qed.

Lemma rewrite_reaches_handler_witness :
  geoMiddleware None Traffic.crawler = Some Traffic.crawlerRewrite
  /\ pathParam (Traffic.routed Traffic.crawlerRewrite (Some "/admin/secrets"))
     = Some "/admin/secrets"
  /\ TargetPath (Traffic.routed Traffic.crawlerRewrite (Some "/admin/secrets"))
       "/pricing"
  /\ value (GET Demo.world None
              (Traffic.routed Traffic.crawlerRewrite (Some "/admin/secrets")))
     = Done (markdownResponse "# Pricing" "/pricing" None None PUBLIC_CACHE).
Proof.
  assert (geoMiddleware None Traffic.crawler = Some Traffic.crawlerRewrite) as G
    by (vm_compute; reflexivity).
  assert (reqPathname Traffic.crawler <> "") as NE by discriminate.
  split; [exact G|]. split; [reflexivity|].
  destruct (rewrite_reaches_handler Demo.world None None Traffic.crawler
              Traffic.crawlerRewrite
              (Traffic.routed Traffic.crawlerRewrite (Some "/admin/secrets"))
              G NE eq_refl) as (_ & TP & _ & V).
  split; [exact TP|]. rewrite (V eq_refl). vm_compute. reflexivity.
Defined.

(* ================================================================== *)
(** * Discovery *)
(* ================================================================== *)

(** A prefix of [p ++ s] is a prefix of [p], or runs over into [s]. *)
Lemma startsWith_append_cases (p s pre : string) :
  JS.startsWith (p ++ s) pre = true ->
  JS.startsWith p pre = true
  \/ exists k, (k < String.length pre)%nat
       /\ JS.startsWith s (JS.drop k pre) = true.
Proof.
  revert p. induction pre as [|a pre IH]; intros p H; [now left|].
  destruct p as [|b p].
  - right. exists 0%nat. simpl. split; [lia|]. exact H.
  - simpl in H. apply andb_true_iff in H. destruct H as [E H].
    destruct (IH p H) as [L|(k & K & R)].
    + left. simpl. now rewrite E, L.
    + right. exists (S k). simpl. split; [lia|]. exact R.
Qed.

Lemma startsWith_weaken (p s pre : string) :
  JS.startsWith p pre = true -> JS.startsWith (p ++ s) pre = true.
Proof.
  intros H. apply startsWith_iff in H. destruct H as [t ->].
  rewrite append_assoc. apply startsWith_append.
Qed.

(** When [s] begins with no proper suffix of [pre], appending [s] to a path
    does not make it begin with [pre]. *)
Lemma startsWith_suffixed (p s pre : string) :
  forallb (fun k => negb (JS.startsWith s (JS.drop k pre)))
    (seq 0 (String.length pre)) = true ->
  JS.startsWith (p ++ s) pre = JS.startsWith p pre.
Proof.
  intros F. destruct (JS.startsWith p pre) eqn:P.
  - now apply startsWith_weaken.
  - destruct (JS.startsWith (p ++ s) pre) eqn:Q; auto.
    apply startsWith_append_cases in Q. destruct Q as [Q|(k & K & R)];
      [congruence|].
    rewrite forallb_forall in F. specialize (F k).
    rewrite R in F. discriminate F. apply in_seq. lia.
Qed.

(** X9.  The advertised alternate is a markdown request for the page.
    When [addDiscoveryHeaders] sets a header, it is the Link header with
    the page path followed by ".md" ("/index.md" for "/") as the
    alternate of type text/markdown, and with the default options a
    request for that alternate is detected as a suffix request, whatever
    its accept header and user agent are.  Its original path is the page
    path, except that the alternate of "/" is attributed to "/index" and
    that of the empty path to "/". *)
Theorem discovery_round_trip (pathname name value : string) :
  addDiscoveryHeaders pathname = Some (name, value) ->
  let mdPath :=
    if String.eqb pathname "/" then "/index.md" else (pathname ++ ".md")%string in
  ~ EndsWith pathname ".md"
  /\ name = "Link"
  /\ value = ("<" ++ mdPath ++ ">; rel=" ++ dq ++ "alternate" ++ dq
              ++ "; type=" ++ dq ++ "text/markdown" ++ dq)%string
  /\ forall accept userAgent,
       detectLlmSignal mdPath accept userAgent None
       = Some (MdSuffix (if String.eqb pathname "/" then "/index"
                         else if String.eqb pathname "" then "/"
                         else pathname)).
Proof.
  unfold addDiscoveryHeaders.
  destruct (JS.endsWith pathname ".md") eqn:E; [discriminate|].
  destruct (_ || _); [discriminate|]. intros [= <- <-].
  split; [|split; [|split]]; auto.
  - intros H. apply endsWith_iff in H. congruence.
  - intros accept userAgent.
    assert (suffixEnabled None) as En by (intros o; discriminate).
    destruct (String.eqb pathname "/").
    + apply (detect_suffix_wins "/index" accept userAgent None En).
    + apply (detect_suffix_wins pathname accept userAgent None En).
Qed.

Lemma discovery_round_trip_witness :
  addDiscoveryHeaders "/docs/intro"
  = Some ("Link", ("</docs/intro.md>; rel=" ++ dq ++ "alternate" ++ dq
                   ++ "; type=" ++ dq ++ "text/markdown" ++ dq)%string)
  /\ detectLlmSignal "/docs/intro.md" (Some "text/html") (Some "Mozilla/5.0") None
     = Some (MdSuffix "/docs/intro").
Proof.
  assert (addDiscoveryHeaders "/docs/intro"
          = Some ("Link", ("</docs/intro.md>; rel=" ++ dq ++ "alternate" ++ dq
                           ++ "; type=" ++ dq ++ "text/markdown" ++ dq)%string))
    as A by (vm_compute; reflexivity).
  split; [exact A|].
  exact (proj2 (proj2 (proj2 (discovery_round_trip "/docs/intro" _ _ A)))
           (Some "text/html") (Some "Mozilla/5.0")).
Defined.

(** X10.  The advertised alternate and the default middleware.  Take a
    page path, other than "/" and the empty path, for which
    [addDiscoveryHeaders] sets the header, and a request for the
    advertised alternate that is not an internal fetch.  The middleware
    with its default configuration rewrites it with the page path as the
    target, unless the page path begins with "/monitoring": the alternate
    of such a page is advertised, but the request for it is excluded. *)
Theorem discovery_reaches_middleware (pathname name value : string)
    (request : MiddlewareRequest) :
  addDiscoveryHeaders pathname = Some (name, value) ->
  pathname <> "" -> pathname <> "/" ->
  reqPathname request = (pathname ++ ".md")%string ->
  whenTruthy (headersGet (reqHeaders request) INTERNAL_FETCH_HEADER) = None ->
  (~ StartsWith pathname "/monitoring" ->
   exists rw,
     geoMiddleware None request = Some rw
     /\ rewritePathParam rw = pathname
     /\ headersGet (rewriteRequestHeaders rw) "x-llm-target-path" = Some pathname)
  /\ (StartsWith pathname "/monitoring" -> geoMiddleware None request = None).
Proof.
  unfold addDiscoveryHeaders.
  destruct (JS.endsWith pathname ".md") eqn:E; [discriminate|].
  destruct (JS.startsWith pathname "/api/") eqn:S1; [discriminate|].
  destruct (JS.startsWith pathname "/_next/") eqn:S2; [discriminate|].
  destruct (JS.startsWith pathname "/trpc/") eqn:S3; [discriminate|].
  intros _ N0 N1 P I. rewrite geoMiddleware_cases, I, P.
  assert (isExcluded (pathname ++ ".md") (excludedOf None)
          = JS.startsWith pathname "/monitoring") as ->.
  { change (excludedOf None) with DEFAULT_EXCLUDE_PATHS.
    unfold DEFAULT_EXCLUDE_PATHS. cbn [isExcluded].
    change (JS.endsWith "/api/*" "*") with true.
    change (JS.endsWith "/trpc/*" "*") with true.
    change (JS.endsWith "/_next/*" "*") with true.
    change (JS.endsWith "/monitoring*" "*") with true. cbv iota.
    change (JS.slice "/monitoring*" 0 (-1)) with "/monitoring".
    rewrite (startsWith_suffixed pathname ".md" "/monitoring") by reflexivity.
    change (JS.slice "/api/*" 0 (-1)) with "/api/".
    change (JS.slice "/trpc/*" 0 (-1)) with "/trpc/".
    change (JS.slice "/_next/*" 0 (-1)) with "/_next/".
    rewrite (startsWith_suffixed pathname ".md" "/api/") by reflexivity.
    rewrite (startsWith_suffixed pathname ".md" "/trpc/") by reflexivity.
    rewrite (startsWith_suffixed pathname ".md" "/_next/") by reflexivity.
    rewrite S1, S2, S3. now destruct (JS.startsWith pathname "/monitoring"). }
  split; intros Mon.
  - destruct (JS.startsWith pathname "/monitoring") eqn:SM.
    { exfalso. apply Mon. now apply startsWith_iff. }
    assert (suffixEnabled (Some (detectOptionsOf None))) as En
      by (intros o [= <-]; discriminate).
    rewrite (detect_suffix_wins pathname _ _ _ En).
    apply String.eqb_neq in N0. rewrite N0. cbn [targetOf].
    eexists. split; [reflexivity|]. split; reflexivity.
  - apply startsWith_iff in Mon. now rewrite Mon.
Qed.

Lemma discovery_reaches_middleware_witness :
  addDiscoveryHeaders "/docs/intro"
  = Some ("Link", ("</docs/intro.md>; rel=" ++ dq ++ "alternate" ++ dq
                   ++ "; type=" ++ dq ++ "text/markdown" ++ dq)%string)
  /\ reqPathname Traffic.alternate = "/docs/intro.md"
  /\ exists rw,
       geoMiddleware None Traffic.alternate = Some rw
       /\ rewritePathParam rw = "/docs/intro"
       /\ headersGet (rewriteRequestHeaders rw) "x-llm-target-path"
          = Some "/docs/intro".
Proof.
  assert (addDiscoveryHeaders "/docs/intro"
          = Some ("Link", ("</docs/intro.md>; rel=" ++ dq ++ "alternate" ++ dq
                           ++ "; type=" ++ dq ++ "text/markdown" ++ dq)%string))
    as A by (vm_compute; reflexivity).
  split; [exact A|]. split; [reflexivity|].
  refine (proj1 (discovery_reaches_middleware "/docs/intro" _ _ Traffic.alternate
                   A _ _ eq_refl eq_refl) _).
  - discriminate.
  - discriminate.
  - intros H. apply startsWith_iff in H. vm_compute in H. discriminate.
Defined.

(* ================================================================== *)
(** * The pipeline: effects of a whole resolution *)
(* ================================================================== *)

(** The log of a pass: the entry mark, the log of the lookup, then events
    of the live fetch only, and none of those when conversion is off. *)
Lemma pass_trace (w : World) (request : Request) (path : string)
    (options : ResolveOptions) :
  exists rest,
    trace (pass w request path options)
    = (EvResolve path (depthOf options) :: trace (findPageMd w path) ++ rest)%list
    /\ forallb (fun e => negb (isFsEvent e)) rest = true
    /\ (enableAutoConversion options = false -> rest = []).
Proof.
  unfold depthOf.
  pass_cases w path; cbn [app]; rewrite ?app_nil_r, <- ?app_assoc; cbn [app];
    first [ exists []; rewrite app_nil_r; split; [reflexivity|];
            split; [reflexivity|]; reflexivity
          | eexists; split; [reflexivity|]; split; [reflexivity|];
            intros A; rewrite A in *; discriminate ].
Qed.

Lemma scanRouteGroups_readdir (w : World) (appDir : string)
    (segments groups : list string) (d : string) :
  ~ In (EvReaddir d) (trace (scanRouteGroups w appDir segments groups)).
Proof.
  induction groups as [|g groups IH]; cbn [scanRouteGroups]; [now intros []|].
  destruct (isPathWithinDirectory _ appDir); cbn [negb]; auto.
  unfold tryReadFile. rewrite ?trace_bind, ?value_bind.
  cbn [emit ret trace value fst snd app].
  destruct (readFile w _); cbn [ret trace snd].
  - intros [H|[]]. discriminate.
  - intros [H|H]; [discriminate|auto].
Qed.

Lemma findPageMd_readdir (w : World) (requestPath d : string) :
  In (EvReaddir d) (trace (findPageMd w requestPath)) -> d = appDirOf w.
Proof.
  unfold findPageMd, appDirOf.
  set (appDir := Path.join [cwd w; "app"]).
  set (segments := if JS.truthy _ then _ else _).
  destruct (isPathWithinDirectory _ appDir); cbn [negb]; [|now intros []].
  unfold tryReadFile. rewrite !trace_bind, !value_bind.
  cbn [emit ret trace value fst snd app].
  destruct (readFile w _); cbn [ret trace snd].
  - intros [H|[]]. discriminate.
  - rewrite ?trace_bind, ?value_bind. cbn [emit ret trace value fst snd app].
    intros [H|[H|H]]; [discriminate|congruence|].
    destruct (readdir w appDir) as [topDirs|]; cbn [ret trace snd] in H;
      [|destruct H].
    now apply scanRouteGroups_readdir in H.
Qed.

Lemma findPageMd_reads (w : World) (requestPath p : string) :
  In (EvReadFile p) (trace (findPageMd w requestPath)) -> Within (appDirOf w) p.
Proof.
  intros H. apply In_reads in H.
  destruct (findPageMd_log w requestPath) as [_ F].
  rewrite Forall_forall in F. apply F in H.
  now apply isPathWithinDirectory_iff in H.
Qed.

(** The file-system events of a pass are those of its lookup. *)
Lemma pass_fs_event (w : World) (request : Request) (path : string)
    (options : ResolveOptions) (e : event) :
  isFsEvent e = true ->
  In e (trace (pass w request path options)) ->
  In e (trace (findPageMd w path)).
Proof.
  intros Fs I. destruct (pass_trace w request path options) as (rest & T & N & _).
  rewrite T in I. destruct I as [<-|I]; [discriminate|].
  apply in_app_or in I. destruct I as [I|I]; auto.
  rewrite forallb_forall in N. apply N in I. rewrite Fs in I. discriminate.
Qed.

Lemma resolve_fuel_fs_event (w : World) (request : Request) (fuel : nat) :
  forall (path : string) (options : ResolveOptions) (e : event),
    isFsEvent e = true ->
    In e (trace (resolveMarkdown_fuel fuel w request path options)) ->
    exists p, In e (trace (findPageMd w p)).
Proof.
  induction fuel as [|fuel IH]; intros path options e Fs I; [destruct I|].
  rewrite trace_resolve_S in I. apply in_app_or in I. destruct I as [I|I].
  - exists path. eapply pass_fs_event; eauto.
  - destruct (value (pass w request path options)) as [r|target];
      cbn [continue] in I; [destruct I|].
    eapply IH; eauto.
Qed.

(** X11.  The whole pipeline stays inside the content root.  Whatever the
    path, the options, the redirects met on the way and the answers of the
    origin are, every file a resolution reads is the directory [app] of the
    working directory or lies under it, and the only directory it lists is
    that one. *)
Theorem resolve_reads_contained (w : World) (request : Request) (path : string)
    (options : ResolveOptions) :
  let run := resolveMarkdown w request path options in
  (forall p, In (EvReadFile p) (trace run) -> Within (appDirOf w) p)
  /\ (forall d, In (EvReaddir d) (trace run) -> d = appDirOf w).
Proof.
  split.
  - intros p I. apply resolve_fuel_fs_event in I; auto.
    destruct I as (q & I). eapply findPageMd_reads; eauto.
  - intros d I. apply resolve_fuel_fs_event in I; auto.
    destruct I as (q & I). eapply findPageMd_readdir; eauto.
Qed.

Lemma resolve_reads_contained_witness :
  In (EvReadFile "/srv/app/pricing/page.md")
    (trace (resolveMarkdown Demo.world Demo.request "/home" Demo.options))
  /\ Within (appDirOf Demo.world) "/srv/app/pricing/page.md"
  /\ In (EvReaddir "/srv/app")
       (trace (resolveMarkdown Demo.world Demo.request "/docs" Demo.options))
  /\ "/srv/app" = appDirOf Demo.world.
Proof.
  assert (In (EvReadFile "/srv/app/pricing/page.md")
            (trace (resolveMarkdown Demo.world Demo.request "/home" Demo.options)))
    as R by (vm_compute; auto 10).
  assert (In (EvReaddir "/srv/app")
            (trace (resolveMarkdown Demo.world Demo.request "/docs" Demo.options)))
    as D by (vm_compute; auto 10).
  split; [exact R|]. split.
  - exact (proj1 (resolve_reads_contained Demo.world Demo.request "/home"
                    Demo.options) _ R).
  - split; [exact D|].
    exact (proj2 (resolve_reads_contained Demo.world Demo.request "/docs"
                    Demo.options) _ D).
Defined.





Lemma pass_same_host_redirect (w : World) (request : Request) (path : string)
    (options : ResolveOptions) (url base : URL) (response : Response)
    (location : string) (redirectUrl : URL) :
  LiveFetch w request path options url base response ->
  300 <= status response < 400 ->
  (depthOf options < MAX_REDIRECTS)%nat ->
  rheaders response "location" = Some location -> location <> "" ->
  newURL w location (Some (href url)) = Some redirectUrl ->
  host redirectUrl = host base ->
  pass w request path options
  = (Follows (pathname redirectUrl),
     ([EvResolve path (depthOf options)] ++ trace (findPageMd w path)
      ++ [EvFetch (href url) (fetchHeaders request)])%list).
Proof.
  intros H St D Loc NE RU SH. live_pass H.
  assert (followable (orDefault 0%nat (redirectDepth options)) response = true)
    as ->.
  { unfold followable. apply Nat.ltb_lt in D. unfold depthOf in D. rewrite D.
    cbn [andb]. apply andb_true_iff. split; [apply Z.leb_le|apply Z.ltb_lt]; lia. }
  rewrite Loc. cbn [whenTruthy]. apply truthy_iff in NE. rewrite NE, RU.
  apply String.eqb_eq in SH. rewrite SH. reflexivity.
Qed.

(** X13.  A redirect of the origin to its own host is followed.  When the
    live fetch is answered by a redirect, the redirect limit is not
    reached, and the location resolves, against the fetched URL, to a URL
    on the origin's host, the resolution goes on with the path of that
    URL, one redirect depth higher, as a full resolution of that path
    (curated lookup first): its outcome is the outcome of the resolution.
    The body of the redirect response is not read, and the path of the
    location is not submitted to the path validation. *)
Theorem same_host_redirect_followed (w : World) (request : Request)
    (path : string) (options : ResolveOptions) (url base : URL)
    (response : Response) (location : string) (redirectUrl : URL) :
  LiveFetch w request path options url base response ->
  300 <= status response < 400 ->
  (depthOf options < MAX_REDIRECTS)%nat ->
  rheaders response "location" = Some location -> location <> "" ->
  newURL w location (Some (href url)) = Some redirectUrl ->
  host redirectUrl = host base ->
  let run := resolveMarkdown w request path options in
  let next :=
    resolveMarkdown w request (pathname redirectUrl) (nextOptions options) in
  value run = value next
  /\ trace run
     = ([EvResolve path (depthOf options)] ++ trace (findPageMd w path)
        ++ [EvFetch (href url) (fetchHeaders request)] ++ trace next)%list.
Proof.
  intros H St D Loc NE RU SH. cbv zeta. unfold resolveMarkdown.
  fold (depthOf options). fold (depthOf (nextOptions options)).
  rewrite depthOf_next.
  replace (MAX_REDIRECTS - depthOf options)%nat
    with (S (MAX_REDIRECTS - (depthOf options + 1)))%nat by lia.
  rewrite (resolveMarkdown_fuel_pass w request (S _) path options).
  rewrite (pass_same_host_redirect _ _ _ _ _ _ _ _ _ H St D Loc NE RU SH).
  unfold bind. cbn [continue].
  destruct (resolveMarkdown_fuel _ w request (pathname redirectUrl)
              (nextOptions options)) as [v t].
  cbn [value trace fst snd]. split; auto. now rewrite <- !app_assoc.
Qed.

Lemma same_host_redirect_followed_witness :
  LiveFetch Demo.world Demo.request "/old" Demo.options
    (Demo.urlOf "/old") Demo.origin (Demo.responseOf "/old")
  /\ value (resolveMarkdown Demo.world Demo.request "/old" Demo.options)
     = Done (Some {| content := "# Pricing"; cacheControl := PUBLIC_CACHE |})
  /\ attempts (trace (resolveMarkdown Demo.world Demo.request "/old" Demo.options))
     = [("/old", 0%nat); ("/pricing", 1%nat)].
Proof.
  assert (LiveFetch Demo.world Demo.request "/old" Demo.options
            (Demo.urlOf "/old") Demo.origin (Demo.responseOf "/old"))
    as Live by (apply demo_live; reflexivity).
  assert (300 <= status (Demo.responseOf "/old") < 400) as St by (cbn; lia).
  assert (depthOf Demo.options < MAX_REDIRECTS)%nat as D
    by (vm_compute; lia).
  assert ("/pricing" <> "") as NE by discriminate.
  destruct (same_host_redirect_followed Demo.world Demo.request "/old"
              Demo.options (Demo.urlOf "/old") Demo.origin
              (Demo.responseOf "/old") "/pricing" (Demo.urlOf "/pricing")
              Live St D eq_refl NE eq_refl eq_refl) as (V & T).
  split; [exact Live|]. split.
  - rewrite V. vm_compute. reflexivity.
  - rewrite T. vm_compute. reflexivity.
Defined.

(** X14.  The answers of the handler.  [GET] always answers, in one of
    four ways.  Without a non-empty target, read from the header and, only
    when the header is absent, from the query parameter, it answers 400;
    so it does for a target that fails the path validation; in both cases
    nothing is read and nothing is fetched.  For a valid target it answers
    with the markdown response built from the outcome of the resolution of
    that target, or with 404 when the resolution has nothing to serve. *)
Theorem GET_outcomes (w : World) (config : option GeoConfig) (request : Request) :
  let run := GET w config request in
  ((forall path, ~ TargetPath request path)
   /\ run = ret (Done {| code := 400; payload := "Missing path parameter";
                         headersOut := [] |}))
  \/ (exists path,
        TargetPath request path /\ isValidPath path = false
        /\ run = ret (Done {| code := 400; payload := "Invalid path parameter";
                              headersOut := [] |}))
  \/ (exists path,
        TargetPath request path /\ isValidPath path = true
        /\ trace run = trace (resolveMarkdown w request path (handlerOptions config))
        /\ ((value (resolveMarkdown w request path (handlerOptions config))
             = Done None
             /\ value run = Done (noMarkdown path))
            \/ (exists m,
                  value (resolveMarkdown w request path (handlerOptions config))
                  = Done (Some m)
                  /\ value run
                     = Done (markdownResponse (content m) path
                               (match config with
                                | Some c => preamble c
                                | None => None
                                end)
                               (match config with
                                | Some c => postamble c
                                | None => None
                                end)
                               (cacheControl m))))).
Proof.
  cbv zeta. unfold GET.
  destruct (whenTruthy _) as [path|] eqn:W.
  - assert (TargetPath request path) as TP.
    { unfold whenTruthy in W.
      destruct (targetPathHeader request) as [h|] eqn:Hd.
      - destruct (JS.truthy h) eqn:T; [|discriminate]. injection W as <-.
        apply truthy_iff in T. split; auto.
      - destruct (pathParam request) as [q|] eqn:Q; [|discriminate].
        destruct (JS.truthy q) eqn:T; [|discriminate]. injection W as <-.
        apply truthy_iff in T. split; auto. }
    destruct (isValidPath path) eqn:V; cbn [negb].
    + right. right. exists path. split; auto. split; auto.
      rewrite trace_bind, value_bind.
      assert (exists r, value (resolveMarkdown w request path
                                 (handlerOptions config)) = Done r) as [r R].
      { apply (resolve_fuel_returns w request
                 (S (MAX_REDIRECTS - depthOf (handlerOptions config)))
                 path (handlerOptions config)). lia. }
      rewrite R. destruct r as [m|]; cbn [ret trace snd].
      * rewrite app_nil_r. split; auto. right. exists m. auto.
      * rewrite app_nil_r. split; auto.
    + right. left. exists path. auto.
  - left. split; auto. intros path [NE TP]. unfold whenTruthy in W.
    apply truthy_iff in NE.
    destruct TP as [Hd|[Hd Q]]; rewrite Hd in W; [|rewrite Q in W];
      rewrite NE in W; discriminate.
Qed.

(* ================================================================== *)
(** * Path arithmetic: where the candidates of the lookup lie *)
(* ================================================================== *)

Lemma split_app_sep (sep : ascii) (x r : string) :
  JS.split sep (x ++ String sep r) = (JS.split sep x ++ JS.split sep r)%list.
Proof.
  induction x as [|c x IH]; simpl.
  - now rewrite Ascii.eqb_refl.
  - destruct (Ascii.eqb c sep); [now rewrite IH|].
    rewrite IH. pose proof (split_nonempty sep x) as NE.
    now destruct (JS.split sep x).
Qed.

Lemma join_app (sep : string) (xs ys : list string) :
  xs <> [] -> ys <> [] ->
  JS.join sep (xs ++ ys) = (JS.join sep xs ++ sep ++ JS.join sep ys)%string.
Proof.
  intros NX NY. induction xs as [|x xs IH]; [congruence|].
  destruct xs as [|x' xs].
  - simpl app. now rewrite join_cons.
  - change ((x :: x' :: xs) ++ ys)%list with (x :: ((x' :: xs) ++ ys))%list.
    rewrite join_cons by (simpl; discriminate).
    rewrite IH by discriminate.
    rewrite (join_cons sep x (x' :: xs)) by discriminate.
    now rewrite !append_assoc.
Qed.

Lemma resolveLoop_absolute (args rest : list string) (a acc : string) :
  Forall (fun p => Path.isAbsolute p = false) args ->
  Path.isAbsolute a = true ->
  Path.resolveLoop (rev args ++ a :: rest) acc
  = ((a ++ "/" ++ suffixPath args acc)%string, true).
Proof.
  intros F A. revert acc. induction args as [|p args IH] using rev_ind;
    intros acc.
  - simpl. destruct (String.eqb a "") eqn:E.
    + apply String.eqb_eq in E. subst a. discriminate.
    + now rewrite A.
  - apply Forall_app in F. destruct F as [F Fp]. inversion Fp as [|? ? P _].
    subst. rewrite rev_app_distr. simpl rev. simpl app.
    unfold suffixPath. rewrite fold_right_app. fold (suffixPath args).
    simpl fold_right. cbn [Path.resolveLoop].
    destruct (String.eqb p ""); [now apply IH|].
    rewrite P. now apply IH.
Qed.

Lemma suffixPath_join (args : list string) :
  suffixPath args "" = JS.join "/" (filter JS.truthy args ++ [""]).
Proof.
  induction args as [|p args IH]; [reflexivity|].
  simpl. unfold JS.truthy. destruct (String.eqb p ""); cbn [negb]; auto.
  rewrite IH. simpl app. rewrite join_cons; auto.
  now destruct (filter _ args).
Qed.

Lemma normStep_plain (res : list string) (seg : string) :
  Plain seg -> Path.normStep false res seg = seg :: res.
Proof.
  intros (N0 & N1 & N2 & _). unfold Path.normStep.
  apply String.eqb_neq in N0, N1, N2. now rewrite N0, N1, N2.
Qed.

Lemma normalize_plain (segs res : list string) :
  Forall (fun s => s = "" \/ Plain s) segs ->
  fold_left (Path.normStep false) segs res
  = (rev (filter JS.truthy segs) ++ res)%list.
Proof.
  intros F. revert res. induction F as [|s segs [->|P] F IH]; intros res; auto.
  - simpl. apply IH.
  - simpl. rewrite (normStep_plain _ _ P), IH.
    assert (JS.truthy s = true) as -> by (apply truthy_iff; apply P).
    simpl. now rewrite <- app_assoc.
Qed.

(** Without permission to go above the root, normalisation only keeps plain
    segments. *)
Lemma normStep_keeps_plain (res : list string) (seg : string) :
  Forall Plain res -> ~ Contains seg "/" ->
  Forall Plain (Path.normStep false res seg).
Proof.
  intros F NS. unfold Path.normStep.
  destruct (String.eqb seg "") eqn:E0; cbn [orb]; auto.
  destruct (String.eqb seg ".") eqn:E1; auto.
  destruct (String.eqb seg "..") eqn:E2.
  - destruct res as [|top below]; auto.
    destruct (String.eqb top ".."); auto. now inversion F.
  - apply String.eqb_neq in E0, E1, E2. constructor; auto. repeat split; auto.
Qed.

Lemma normalize_keeps_plain (segs res : list string) :
  Forall Plain res -> Forall (fun s => ~ Contains s "/") segs ->
  Forall Plain (fold_left (Path.normStep false) segs res).
Proof.
  intros R F. revert res R. induction F as [|s segs S F IH]; intros res R; auto.
  simpl. apply IH. now apply normStep_keeps_plain.
Qed.

Lemma drop_append_more (a b : string) (k : nat) :
  JS.drop (String.length a + k) (a ++ b) = JS.drop k b.
Proof. induction a; simpl; auto. Qed.

Lemma join_last_nonempty (sep x : string) (xs : list string) :
  x <> "" -> JS.join sep (xs ++ [x]) <> "".
Proof.
  intros NE. destruct xs as [|y ys]; [exact NE|].
  rewrite join_app by discriminate. intros H.
  apply (f_equal String.length) in H. rewrite !length_append in H.
  simpl in H. destruct x; [congruence|]. simpl in H. lia.
Qed.

(** The content root under an absolute working directory: a [/] followed
    by plain segments joined by [/], the last of which is [app]. *)
Lemma appDir_shape (w : World) :
  StartsWith (cwd w) "/" ->
  exists segs,
    appDirOf w = ("/" ++ JS.join "/" (segs ++ ["app"]))%string
    /\ Forall Plain segs.
Proof.
  intros [t C]. unfold appDirOf, Path.join. rewrite C.
  change (filter JS.truthy ["/" ++ t; "app"]) with ["/" ++ t; "app"].
  cbv iota.
  change (JS.join "/" ["/" ++ t; "app"]) with ("/" ++ (t ++ "/app"))%string.
  unfold Path.normalize.
  change (String.eqb ("/" ++ (t ++ "/app")) "") with false.
  change (Path.isAbsolute ("/" ++ (t ++ "/app"))) with true.
  cbv iota. cbn [negb].
  assert (JS.endsWith ("/" ++ (t ++ "/app")) "/" = false) as ->.
  { unfold JS.endsWith. apply andb_false_iff. right.
    change ("/" ++ (t ++ "/app"))%string with (("/" ++ t) ++ "/app")%string.
    rewrite length_append. change (String.length "/app") with 4%nat.
    change (String.length "/") with 1%nat.
    replace (String.length ("/" ++ t) + 4 - 1)%nat
      with (String.length ("/" ++ t) + 3)%nat by lia.
    now rewrite drop_append_more. }
  unfold Path.normalizeString.
  change ("/" ++ (t ++ "/app"))%string with (String "/" (t ++ String "/" "app")).
  change (JS.split "/" (String "/" (t ++ String "/" "app")))
    with ("" :: JS.split "/" (t ++ String "/" "app")).
  rewrite split_app_sep. change (JS.split "/" "app") with ["app"].
  cbn [fold_left]. change (Path.normStep false [] "") with (@nil string).
  rewrite fold_left_app. cbn [fold_left].
  set (R := fold_left (Path.normStep false) (JS.split "/" t) []).
  assert (Forall Plain R) as PR.
  { apply normalize_keeps_plain; [constructor|]. apply (split_no_sep "/" t). }
  rewrite normStep_plain.
  2:{ repeat split; try discriminate. intros (a & b & E).
      destruct a as [|c1 [|c2 [|c3 [|c4 a]]]]; try discriminate. }
  simpl rev.
  assert (JS.join "/" (rev R ++ ["app"]) <> "") as NE
    by (apply join_last_nonempty; discriminate).
  apply String.eqb_neq in NE. rewrite NE.
  exists (rev R). split; auto. now apply Forall_rev.
Qed.

Lemma Plain_truthy (segs : list string) :
  Forall Plain segs -> filter JS.truthy segs = segs.
Proof.
  induction 1 as [|s segs P F IH]; auto. simpl.
  assert (JS.truthy s = true) as -> by (apply truthy_iff; apply P).
  now rewrite IH.
Qed.

Lemma filter_idem {A : Type} (f : A -> bool) (l : list A) :
  filter f (filter f l) = filter f l.
Proof.
  induction l as [|x l IH]; auto. simpl. destruct (f x) eqn:E; auto.
  simpl. now rewrite E, IH.
Qed.

Lemma Plain_relative (s : string) :
  s = "" \/ Plain s -> Path.isAbsolute s = false.
Proof.
  intros [->|(_ & _ & _ & NS)]; auto. unfold Path.isAbsolute.
  destruct (JS.startsWith s "/") eqn:E; auto. exfalso. apply NS.
  apply startsWith_iff in E. destruct E as [t ->]. now exists "", t.
Qed.

Lemma Plain_no_slash (s : string) :
  s = "" \/ Plain s -> ~ Contains s (sepStr "/").
Proof.
  intros [->|(_ & _ & _ & NS)]; auto. apply not_Contains_nil.
Qed.

(** Resolving plain segments against a normalised absolute directory
    appends them to it. *)
Lemma resolve_under (c : string) (dirSegs args : list string) :
  dirSegs <> [] -> Forall Plain dirSegs ->
  Forall (fun s => s = "" \/ Plain s) args ->
  filter JS.truthy args <> [] ->
  let dir := ("/" ++ JS.join "/" dirSegs)%string in
  Path.resolve c (dir :: args)
  = (dir ++ "/" ++ JS.join "/" (filter JS.truthy args))%string.
Proof.
  intros ND PD PA NF dir. unfold Path.resolve.
  change (rev (dir :: args) ++ [c])%list with ((rev args ++ [dir]) ++ [c])%list.
  rewrite <- app_assoc. cbn [app].
  rewrite resolveLoop_absolute; [|now rewrite Forall_forall in *; intros s I;
                                  apply Plain_relative, PA|reflexivity].
  cbn [negb]. rewrite suffixPath_join.
  set (F := filter JS.truthy args) in *.
  assert ((dir ++ "/" ++ JS.join "/" (F ++ [""]))%string
          = JS.join (sepStr "/") ("" :: dirSegs ++ F ++ [""])) as ->.
  { change (sepStr "/") with "/". rewrite join_cons by now destruct dirSegs.
    rewrite (join_app "/" dirSegs (F ++ [""]) ND); [|now destruct F].
    unfold dir. cbn [append]. now rewrite ?append_assoc. }
  unfold Path.normalizeString at 1.
  rewrite split_join_unique; [|discriminate|].
  2:{ constructor; [apply not_Contains_nil|].
      apply Forall_app. split.
      - rewrite Forall_forall in *. intros s I. apply Plain_no_slash. right.
        auto.
      - apply Forall_app. split; [|repeat constructor; apply not_Contains_nil].
        rewrite Forall_forall in *. intros s I. apply Plain_no_slash.
        apply PA. unfold F in I. apply filter_In in I. tauto. }
  rewrite normalize_plain.
  2:{ constructor; auto. apply Forall_app. split.
      - rewrite Forall_forall in *. auto.
      - apply Forall_app. split; [|repeat constructor; auto].
        rewrite Forall_forall in *. intros s I. apply PA. unfold F in I.
        apply filter_In in I. tauto. }
  rewrite app_nil_r, rev_involutive.
  change (filter JS.truthy ("" :: dirSegs ++ F ++ [""]))
    with (filter JS.truthy (dirSegs ++ F ++ [""])).
  rewrite !filter_app, (Plain_truthy _ PD). unfold F at 1.
  rewrite filter_idem. fold F. cbn [filter JS.truthy String.eqb negb].
  rewrite app_nil_r, (join_app "/" dirSegs F ND NF).
  unfold dir. cbn [append]. now rewrite ?append_assoc.
Qed.

Lemma Plain_page_md : Plain "page.md".
Proof.
  repeat split; try discriminate. intros (a & b & E).
  destruct a as [|c1 [|c2 [|c3 [|c4 [|c5 [|c6 [|c7 [|c8 a]]]]]]]];
    discriminate.
Qed.

Lemma Plain_app : Plain "app".
Proof.
  repeat split; try discriminate. intros (a & b & E).
  destruct a as [|c1 [|c2 [|c3 [|c4 a]]]]; discriminate.
Qed.

(** The segments the lookup derives from a valid path: those of the path,
    the empty first one left out; each is empty or plain. *)
Lemma valid_segments (requestPath : string) :
  isValidPath requestPath = true ->
  let normalizedPath :=
    if String.eqb requestPath "/" then "" else stripLeadingSlash requestPath in
  let segments :=
    if JS.truthy normalizedPath then JS.split "/" normalizedPath else [] in
  Forall (fun s => s = "" \/ Plain s) segments
  /\ filter JS.truthy segments = filter JS.truthy (JS.split "/" requestPath).
Proof.
  intros V. apply isValidPath_true_iff in V.
  destruct V as ((St & _) & _ & Sg). destruct St as [t ->].
  destruct (Sg _ (proj2 (Segments_split _ _) eq_refl)) as [N1 N2].
  change ("/" ++ t)%string with (String "/" t) in *.
  change (JS.split "/" (String "/" t)) with ("" :: JS.split "/" t) in *.
  cbv zeta.
  assert ((if String.eqb (String "/" t) "/" then ""
           else stripLeadingSlash (String "/" t)) = t) as ->.
  { destruct (String.eqb (String "/" t) "/") eqn:E; auto.
    apply String.eqb_eq in E. now injection E as <-. }
  destruct (JS.truthy t) eqn:T.
  - split; auto. pose proof (split_no_sep "/" t) as NS.
    rewrite Forall_forall in *. intros s I.
    destruct (string_dec s ""); auto. right.
    split; [auto|]. split; [|split].
    + intros ->. apply N1. now right.
    + intros ->. apply N2. now right.
    + now apply NS.
  - apply negb_false_iff, String.eqb_eq in T. subst t. split; auto.
Qed.

(** X15.  Where a valid path is looked up.  Under an absolute working
    directory, the direct candidate of a path that passes the validation
    is the content root followed by the non-empty segments of the path and
    by "page.md".  It lies under the content root, so the containment
    check never refuses it: the lookup of a valid path always begins by
    reading that file, returns its content when it exists, and lists the
    content root for route groups when it does not. *)
Theorem valid_path_candidate (w : World) (requestPath : string) :
  StartsWith (cwd w) "/" -> isValidPath requestPath = true ->
  let directPath :=
    (appDirOf w ++ "/"
     ++ JS.join "/" (filter JS.truthy (JS.split "/" requestPath) ++ ["page.md"]))%string in
  Within (appDirOf w) directPath
  /\ (forall c, readFile w directPath = Some c ->
        findPageMd w requestPath = (Some c, [EvReadFile directPath]))
  /\ (readFile w directPath = None ->
      exists rest,
        trace (findPageMd w requestPath)
        = EvReadFile directPath :: EvReaddir (appDirOf w) :: rest).
Proof.
  intros C V directPath.
  destruct (appDir_shape w C) as (dirSegs & A & PD).
  destruct (valid_segments requestPath V) as [PS FS].
  assert (Within (appDirOf w) directPath) as W.
  { right. exists (JS.join "/" (filter JS.truthy (JS.split "/" requestPath)
                                ++ ["page.md"])).
    unfold directPath. now rewrite append_assoc. }
  split; auto.
  unfold findPageMd. fold (appDirOf w).
  set (segments := if JS.truthy _ then _ else _) in *.
  assert (Path.resolve (cwd w) ([appDirOf w] ++ segments ++ ["page.md"])
          = directPath) as ->.
  { unfold directPath. cbn [app]. rewrite A.
    rewrite (resolve_under (cwd w) (dirSegs ++ ["app"]) (segments ++ ["page.md"])).
    - rewrite filter_app, FS. reflexivity.
    - now destruct dirSegs.
    - apply Forall_app. split; auto. constructor; auto. apply Plain_app.
    - apply Forall_app. split; auto. constructor; auto. right.
      apply Plain_page_md.
    - rewrite filter_app. simpl. now destruct (filter JS.truthy segments). }
  apply isPathWithinDirectory_iff in W. rewrite W. cbn [negb].
  unfold tryReadFile, bind, emit, ret. split.
  - intros c R. now rewrite R.
  - intros R. rewrite R. cbn [app].
    destruct (readdir w (appDirOf w)) as [topDirs|].
    + destruct (scanRouteGroups w (appDirOf w) segments _) as [v t].
      cbn [trace snd app]. eauto.
    + cbn [trace snd app]. eauto.
Qed.

Lemma valid_path_candidate_witness :
  StartsWith (cwd Demo.world) "/" /\ isValidPath "/pricing" = true
  /\ findPageMd Demo.world "/pricing"
     = (Some "# Pricing", [EvReadFile "/srv/app/pricing/page.md"]).
Proof.
  assert (StartsWith (cwd Demo.world) "/") as C by (now exists "srv").
  split; [exact C|]. split; [reflexivity|].
  exact (proj1 (proj2 (valid_path_candidate Demo.world "/pricing" C eq_refl))
           "# Pricing" eq_refl).
Defined.

Lemma normStep_plain_any (b : bool) (res : list string) (seg : string) :
  Plain seg -> Path.normStep b res seg = seg :: res.
Proof.
  intros (N0 & N1 & N2 & _). unfold Path.normStep.
  apply String.eqb_neq in N0, N1, N2. now rewrite N0, N1, N2.
Qed.

(** The loop of [path.resolve] only puts arguments, each followed by a
    [/], in front of what it has. *)
Lemma resolveLoop_prefix (args : list string) (acc : string) :
  exists pre abs,
    Path.resolveLoop args acc = ((pre ++ acc)%string, abs)
    /\ (pre = "" \/ EndsWith pre "/").
Proof.
  revert acc. induction args as [|p args IH]; intros acc.
  - exists "", false. auto.
  - cbn [Path.resolveLoop]. destruct (String.eqb p ""); [apply IH|].
    destruct (Path.isAbsolute p).
    + exists (p ++ "/")%string, true. rewrite append_assoc. split; auto.
      right. now exists p.
    + destruct (IH (p ++ "/" ++ acc)%string) as (pre & abs & E & S).
      exists (pre ++ p ++ "/")%string, abs. rewrite E, !append_assoc.
      split; auto. right. exists (pre ++ p)%string. now rewrite append_assoc.
Qed.

(** The last argument of [path.resolve], when it is a plain segment, is the
    last segment of the result. *)
Lemma resolve_last (c : string) (args : list string) (x : string) :
  Plain x ->
  let r := Path.resolve c (args ++ [x]) in
  r = x \/ EndsWith r ("/" ++ x).
Proof.
  intros P. cbv zeta. unfold Path.resolve.
  rewrite rev_app_distr. cbn [rev app Path.resolveLoop].
  pose proof P as (NE & _ & _ & NS). apply String.eqb_neq in NE. rewrite NE.
  rewrite (Plain_relative x (or_intror P)).
  destruct (resolveLoop_prefix (rev args ++ [c]) (x ++ "/" ++ ""))
    as (pre & abs & -> & S).
  unfold Path.normalizeString.
  assert (exists L, JS.split "/" (pre ++ x ++ "/" ++ "") = (L ++ [x; ""])%list)
    as [L ->].
  { assert (JS.split "/" (x ++ "/" ++ "") = [x; ""]) as X.
    { change (x ++ "/" ++ "")%string with (x ++ String "/" "")%string.
      rewrite split_app_sep, (split_segment "/" x NS). reflexivity. }
    destruct S as [->|[pre' ->]].
    - exists []. exact X.
    - exists (JS.split "/" pre'). rewrite append_assoc.
      change ("/" ++ x ++ "/" ++ "")%string with (String "/" (x ++ "/" ++ "")).
      now rewrite split_app_sep, X. }
  rewrite fold_left_app. cbn [fold_left].
  set (R := fold_left (Path.normStep (negb abs)) L []).
  rewrite (normStep_plain_any _ R x P).
  change (Path.normStep (negb abs) (x :: R) "") with (x :: R).
  cbn [rev].
  assert (JS.join "/" (rev R ++ [x]) = x
          \/ EndsWith (JS.join "/" (rev R ++ [x])) ("/" ++ x)) as J.
  { destruct (rev R) as [|y ys]; [now left|]. right.
    rewrite join_app by discriminate. exists (JS.join "/" (y :: ys)).
    reflexivity. }
  assert (JS.join "/" (rev R ++ [x]) <> "") as NQ.
  { apply join_last_nonempty. now apply String.eqb_neq. }
  apply String.eqb_neq in NQ.
  destruct abs.
  - right. destruct J as [->|[t ->]].
    + now exists "".
    + exists ("/" ++ t)%string. reflexivity.
  - rewrite NQ. exact J.
Qed.

Lemma scanRouteGroups_page_md (w : World) (appDir : string)
    (segments groups : list string) (p : string) :
  In (EvReadFile p) (trace (scanRouteGroups w appDir segments groups)) ->
  p = "page.md" \/ EndsWith p "/page.md".
Proof.
  induction groups as [|g groups IH]; cbn [scanRouteGroups]; [now intros []|].
  destruct (isPathWithinDirectory _ appDir); cbn [negb]; auto.
  unfold tryReadFile. rewrite ?trace_bind, ?value_bind.
  cbn [emit ret trace value fst snd app].
  assert (forall q, EvReadFile
            (Path.resolve (cwd w) ([appDir; g] ++ segments ++ ["page.md"]))
          = EvReadFile q -> q = "page.md" \/ EndsWith q "/page.md") as Here.
  { intros q [= <-].
    apply (resolve_last (cwd w) (appDir :: g :: segments) "page.md"
             Plain_page_md). }
  destruct (readFile w _); cbn [ret trace snd].
  - intros [H|[]]. auto.
  - intros [H|H]; auto.
Qed.

Lemma findPageMd_page_md (w : World) (requestPath p : string) :
  In (EvReadFile p) (trace (findPageMd w requestPath)) ->
  p = "page.md" \/ EndsWith p "/page.md".
Proof.
  unfold findPageMd.
  set (appDir := Path.join [cwd w; "app"]).
  set (segments := if JS.truthy _ then _ else _).
  destruct (isPathWithinDirectory _ appDir); cbn [negb]; [|now intros []].
  unfold tryReadFile. rewrite !trace_bind, !value_bind.
  cbn [emit ret trace value fst snd app].
  assert (forall q, EvReadFile
            (Path.resolve (cwd w) ([appDir] ++ segments ++ ["page.md"]))
          = EvReadFile q -> q = "page.md" \/ EndsWith q "/page.md") as Here.
  { intros q [= <-].
    apply (resolve_last (cwd w) (appDir :: segments) "page.md"
             Plain_page_md). }
  destruct (readFile w _); cbn [ret trace snd].
  - intros [H|[]]. auto.
  - rewrite ?trace_bind, ?value_bind. cbn [emit ret trace value fst snd app].
    intros [H|[H|H]]; [auto|discriminate|].
    destruct (readdir w appDir) as [topDirs|]; cbn [ret trace snd] in H;
      [|destruct H].
    now apply scanRouteGroups_page_md in H.
Qed.

(** X16.  Only files named page.md are read.  Whatever the request path,
    the names of the route groups and the redirects followed are, every
    file a resolution reads has "page.md" as its last path segment. *)
Theorem resolve_reads_page_md (w : World) (request : Request) (path : string)
    (options : ResolveOptions) (p : string) :
  In (EvReadFile p) (trace (resolveMarkdown w request path options)) ->
  p = "page.md" \/ EndsWith p "/page.md".
Proof.
  intros I. apply resolve_fuel_fs_event in I; auto.
  destruct I as (q & I). eapply findPageMd_page_md; eauto.
Qed.

Lemma resolve_reads_page_md_witness :
  In (EvReadFile "/srv/app/(main)/docs/page.md")
    (trace (resolveMarkdown Demo.world Demo.request "/docs" Demo.options))
  /\ EndsWith "/srv/app/(main)/docs/page.md" "/page.md".
Proof.
  assert (In (EvReadFile "/srv/app/(main)/docs/page.md")
            (trace (resolveMarkdown Demo.world Demo.request "/docs" Demo.options)))
    as R by (vm_compute; auto 10).
  split; [exact R|].
  destruct (resolve_reads_page_md Demo.world Demo.request "/docs" Demo.options
              _ R) as [E|E]; [discriminate E|exact E].
Defined.

(* ================================================================== *)
(** * Frontmatter: what the parser hands out *)
(* ================================================================== *)

(** The parser leaves the content alone, or splits it at the first "---"
    that follows the opening one. *)
Lemma parseFrontmatter_shape (content : string) :
  parseFrontmatter content = {| redirect := None; body := content |}
  \/ exists fm rest,
       content = ("---" ++ fm ++ "---" ++ rest)%string
       /\ parseFrontmatter content
          = {| redirect := firstRedirect (JS.split LF fm);
               body := stripLeadingNewline rest |}.
Proof.
  destruct (JS.startsWith content "---") eqn:S.
  2:{ left. unfold parseFrontmatter. now rewrite S. }
  pose proof S as S'. apply startsWith_iff in S'. destruct S' as [t C].
  assert (3 <= String.length content)%nat as L3
    by (rewrite C, length_append; simpl; lia).
  destruct (indexOf_cases content "---" 3 L3) as [[E _]|(n & E & L & O & F)].
  - left. unfold parseFrontmatter. rewrite S. cbn [negb].
    change (Z.of_nat 3) with 3 in E. now rewrite E.
  - right. destruct O as (a & b & Cab & La).
    assert (a = ("---" ++ JS.drop 3 a)%string) as A.
    { rewrite <- (take_drop 3 a) at 1. f_equal.
      assert (JS.take 3 content = "---") as T by now rewrite C.
      rewrite Cab in T.
      destruct a as [|c1 [|c2 [|c3 a]]]; simpl in La; try lia.
      simpl in T. simpl. congruence. }
    exists (JS.drop 3 a), b.
    assert (content = ("---" ++ JS.drop 3 a ++ "---" ++ b)%string) as Shape.
    { rewrite Cab at 1. rewrite A at 1. now rewrite !append_assoc. }
    split; auto. rewrite Shape at 1. apply parseFrontmatter_block.
    intros m Hm. rewrite <- Shape. apply F.
    assert (String.length a = (3 + String.length (JS.drop 3 a))%nat) as LA.
    { rewrite A at 1. now rewrite length_append. }
    lia.
Qed.

Lemma stripLeadingNewline_suffix (s : string) :
  EndsWith s (stripLeadingNewline s).
Proof.
  unfold stripLeadingNewline. destruct s as [|c r]; [now exists ""|].
  destruct (Ascii.eqb c LF); [now exists (String c "")|].
  destruct (Ascii.eqb c CR); [|now exists ""].
  destruct r as [|c' r']; [now exists ""|].
  destruct (Ascii.eqb c' LF); [now exists (String c (String c' ""))|now exists ""].
Qed.

Lemma firstRedirect_In (lines : list string) (v : string) :
  firstRedirect lines = Some v ->
  exists line, In line lines /\ matchRedirect line = Some v.
Proof.
  induction lines as [|l lines IH]; simpl; [discriminate|].
  destruct (matchRedirect l) as [r|] eqn:M.
  - intros [= <-]. eauto.
  - intros H. destruct (IH H) as (line & I & E). eauto.
Qed.

Lemma Contains_trans (s m x : string) :
  Contains s m -> Contains m x -> Contains s x.
Proof.
  intros (a & b & ->) (c & d & ->). exists (a ++ c)%string, (d ++ b)%string.
  now rewrite !append_assoc.
Qed.

Lemma Contains_join (sep : string) (segs : list string) (x : string) :
  In x segs -> Contains (JS.join sep segs) x.
Proof.
  induction segs as [|y segs IH]; [now intros []|].
  destruct segs as [|z segs].
  - intros [<-|[]]. exists "", "". simpl. now rewrite append_nil_r.
  - rewrite join_cons by discriminate. intros [<-|I].
    + now exists "", (sep ++ JS.join sep (z :: segs))%string.
    + destruct (IH I) as (a & b & E). rewrite E.
      exists (y ++ sep ++ a)%string, b. now rewrite !append_assoc.
Qed.

(** X17.  What the parser hands out is part of the content.  The body is
    always a suffix of the content.  A redirect, when there is one, is a
    non-empty text without line terminator that occurs in the content, and
    the content then starts with "---". *)
Theorem parseFrontmatter_parts (content : string) :
  let p := parseFrontmatter content in
  EndsWith content (body p)
  /\ forall target, redirect p = Some target ->
       target <> "" /\ allOf Re.dot target = true
       /\ Contains content target /\ StartsWith content "---".
Proof.
  cbv zeta.
  destruct (parseFrontmatter_shape content) as [->|(fm & rest & C & ->)];
    cbn [body redirect].
  - split; [now exists ""|discriminate].
  - split.
    + destruct (stripLeadingNewline_suffix rest) as [t R].
      exists ("---" ++ fm ++ "---" ++ t)%string. rewrite C. rewrite R at 1.
      now rewrite !append_assoc.
    + intros target R. apply firstRedirect_In in R.
      destruct R as (line & I & M). apply matchRedirect_inv in M.
      destruct M as (ws1 & ws2 & ws3 & ws4 & Ln & _ & _ & _ & _ & NE & D).
      repeat split; auto; [|now exists (fm ++ "---" ++ rest)%string].
      apply Contains_trans with fm.
      * rewrite C. now exists "---", ("---" ++ rest)%string.
      * apply Contains_trans with line.
        -- rewrite <- (join_split LF fm). now apply Contains_join.
        -- rewrite Ln. exists (ws1 ++ "redirect" ++ ws2 ++ ":" ++ ws3)%string, ws4.
           now rewrite !append_assoc.
Qed.

Lemma parseFrontmatter_parts_witness :
  redirect (parseFrontmatter (Demo.alias "/pricing")) = Some "/pricing"
  /\ "/pricing" <> "" /\ allOf Re.dot "/pricing" = true
  /\ Contains (Demo.alias "/pricing") "/pricing"
  /\ StartsWith (Demo.alias "/pricing") "---".
Proof.
  split; [reflexivity|].
  exact (proj2 (parseFrontmatter_parts (Demo.alias "/pricing"))
           "/pricing" eq_refl).
Defined.

(** A text free of "---" and followed by a line feed has no occurrence of
    "---" that begins inside it or at the line feed. *)
Lemma no_rule_before_newline (t r : string) (k : nat) :
  ~ Contains t "---" -> (k <= String.length t)%nat ->
  ~ OccursAt (t ++ String LF r) "---" k.
Proof.
  revert k. induction t as [|c t IH]; intros k NC Hk O.
  - simpl in Hk. assert (k = 0)%nat as -> by lia.
    apply OccursAt_0 in O. discriminate.
  - destruct k as [|k].
    + apply OccursAt_0 in O. cbn [JS.startsWith append] in O.
      apply andb_true_iff in O. destruct O as [E1 O].
      destruct t as [|c2 t]; [discriminate|]. cbn [JS.startsWith append] in O.
      apply andb_true_iff in O. destruct O as [E2 O].
      destruct t as [|c3 t]; [discriminate|]. cbn [JS.startsWith append] in O.
      apply andb_true_iff in O. destruct O as [E3 _].
      apply Ascii.eqb_eq in E1, E2, E3. subst. apply NC. now exists "", t.
    + simpl in O. apply OccursAt_S in O. apply (IH k); auto.
      * intros (a & b & ->). apply NC. now exists (String c a), b.
      * simpl in Hk. lia.
Qed.

Lemma allOf_dot_no_LF (t : string) :
  allOf Re.dot t = true -> ~ Contains t (sepStr LF).
Proof.
  induction t as [|c t IH]; simpl; [intros _; apply not_Contains_nil|].
  rewrite andb_true_iff. intros [D A] H. apply Contains_cons in H.
  destruct H as [->|H]; [discriminate|]. now apply IH.
Qed.

(** X18.  The redirect format round trip.  A text made of the line "---",
    the line "redirect: " followed by a target, the line "---" and then
    any body is parsed back into that target and that body, for every
    target that is non-empty, has no white space at either end, no line
    terminator and no "---" inside.  The body is returned as it is, even
    when it contains "---" or begins with a line break. *)
Theorem redirect_round_trip (target text : string) :
  target <> "" -> JS.trim target = target ->
  allOf Re.dot target = true -> ~ Contains target "---" ->
  parseFrontmatter
    ("---" ++ nl ++ "redirect: " ++ target ++ nl ++ "---" ++ nl ++ text)
  = {| redirect := Some target; body := text |}.
Proof.
  intros NE TR Dot NC.
  assert (parseFrontmatter
            ("---" ++ (nl ++ "redirect: " ++ target ++ nl) ++ "---" ++ nl ++ text)
          = {| redirect :=
                 firstRedirect (JS.split LF (nl ++ "redirect: " ++ target ++ nl));
               body := stripLeadingNewline (nl ++ text) |}) as P.
  { apply parseFrontmatter_block. intros n Hn O.
    replace n with (3 + (n - 3))%nat in O by lia.
    apply OccursAt_drop in O; [|simpl; lia].
    cbn [JS.drop append] in O.
    assert (n - 3 < String.length target + 12)%nat as Hm.
    { unfold nl in Hn. rewrite !length_append in Hn. simpl in Hn. lia. }
    remember (n - 3)%nat as m eqn:Em. clear Em Hn. unfold nl in O.
    do 11 (destruct m as [|m];
           [apply OccursAt_0 in O; discriminate
           |cbn [append] in O; apply OccursAt_S in O]).
    rewrite append_assoc in O. cbn [append] in O.
    assert (m <= String.length target)%nat as Le by lia.
    exact (no_rule_before_newline target _ m NC Le O). }
  rewrite !append_assoc in P. rewrite P. f_equal.
  assert (~ Contains ("redirect: " ++ target) (sepStr LF)) as NoLF.
  { change ("redirect: " ++ target)%string
      with (String "r" (String "e" (String "d" (String "i" (String "r"
             (String "e" (String "c" (String "t" (String ":" (String " "
               target)))))))))).
    intros H.
    do 10 (apply Contains_cons in H; destruct H as [H|H]; [discriminate|]).
    revert H. now apply allOf_dot_no_LF. }
  change (nl ++ "redirect: " ++ target ++ nl)%string
    with (String LF (("redirect: " ++ target) ++ String LF "")).
  change (JS.split LF (String LF (("redirect: " ++ target) ++ String LF "")))
    with ("" :: JS.split LF (("redirect: " ++ target) ++ String LF "")).
  rewrite (split_append LF ("redirect: " ++ target) "" NoLF).
  cbn [firstRedirect]. change (matchRedirect "") with (@None string).
  cbv iota.
  assert (JS.trim (" " ++ target) = target) as T by exact TR.
  change (matchRedirect ("redirect: " ++ target))
    with (matchRedirect ("" ++ "redirect" ++ "" ++ ":" ++ " " ++ target)).
  rewrite (matchRedirect_value "" "" (" " ++ target)); rewrite ?T; auto.
Qed.

Lemma redirect_round_trip_witness :
  parseFrontmatter
    ("---" ++ nl ++ "redirect: " ++ "/docs/intro" ++ nl ++ "---" ++ nl
     ++ "--- not a rule")
  = {| redirect := Some "/docs/intro"; body := "--- not a rule" |}.
Proof.
  apply (redirect_round_trip "/docs/intro" "--- not a rule").
  - discriminate.
  - reflexivity.
  - reflexivity.
  - intros H. apply includes_iff in H. vm_compute in H. discriminate.
Defined.

(* ================================================================== *)
(** * The llms.txt helpers *)
(* ================================================================== *)

Example routePathToUrl_examples :
  routePathToUrl "" = "/"
  /\ routePathToUrl "(main-layout)/pricing" = "/pricing"
  /\ routePathToUrl "(main-layout)/(marketing)/about" = "/about"
  /\ routePathToUrl "docs/getting-started" = "/docs/getting-started"
  /\ routePathToUrl "(homepage)" = "/"
  /\ routePathToUrl "(main-layout)/docs/(reference)/api" = "/docs/api".
Proof. repeat split; vm_compute; reflexivity. Qed.

Example extractTitle_examples :
  extractTitle ("# Hello World" ++ nl ++ nl ++ "Some content") = Some "Hello World"
  /\ extractTitle "Just some text" = None
  /\ extractTitle ("Some preamble" ++ nl ++ nl ++ "# The Title" ++ nl ++ nl ++ "Content")
     = Some "The Title"
  /\ extractTitle ("## Not a title" ++ nl ++ nl ++ "Content") = None
  /\ extractTitle ("#" ++ nl ++ nl ++ "Body text") = Some "Body text"
  /\ extractTitle "# " = None
  /\ extractTitle "#  " = Some "".
Proof. repeat split; vm_compute; reflexivity. Qed.

Example extractDescription_examples :
  extractDescription ("# Title" ++ nl ++ nl ++ "This is the description.")
  = Some "This is the description."
  /\ extractDescription ("# Title" ++ nl ++ "> Quote" ++ nl ++ nl ++ "Actual description")
     = Some "Actual description"
  /\ extractDescription ("# Title" ++ nl ++ "- Item" ++ nl ++ nl ++ "Description after list")
     = Some "Description after list"
  /\ extractDescription "" = None
  /\ extractDescription "# Just a Heading" = None.
Proof. repeat split; vm_compute; reflexivity. Qed.

Lemma RouteGroup_iff (s : string) :
  JS.startsWith s "(" && JS.endsWith s ")" = true <-> RouteGroup s.
Proof.
  unfold RouteGroup. now rewrite andb_true_iff, startsWith_iff, endsWith_iff.
Qed.

Lemma keep_iff (s : string) :
  negb (JS.startsWith s "(") || negb (JS.endsWith s ")") = true
  <-> ~ RouteGroup s.
Proof.
  rewrite <- negb_andb, negb_true_iff, <- RouteGroup_iff.
  now destruct (_ && _).
Qed.

Lemma filter_all {A : Type} (f : A -> bool) (l : list A) :
  Forall (fun x => f x = true) l -> filter f l = l.
Proof.
  induction 1 as [|x l H F IH]; auto. simpl. now rewrite H, IH.
Qed.


Lemma firstParagraph_skip (line : string) (rest : list string) :
  ~ Paragraph line -> firstParagraph (line :: rest) = firstParagraph rest.
Proof.
  intros NP. cbn [firstParagraph]. cbv zeta.
  destruct (JS.truthy (JS.trim line)) eqn:T; cbn [negb]; auto.
  destruct (JS.startsWith (JS.trim line) "#") eqn:S1; auto.
  destruct (JS.startsWith (JS.trim line) ">") eqn:S2; auto.
  destruct (JS.startsWith (JS.trim line) "-") eqn:S3; cbn [orb]; auto.
  destruct (JS.startsWith (JS.trim line) "*") eqn:S4; auto.
  destruct (JS.startsWith (JS.trim line) "```") eqn:S5; auto.
  exfalso. apply NP. unfold Paragraph. cbv zeta.
  rewrite <- !startsWith_iff, S1, S2, S3, S4, S5. apply truthy_iff in T.
  repeat split; auto; discriminate.
Qed.

Lemma firstParagraph_take (line : string) (rest : list string) :
  Paragraph line -> firstParagraph (line :: rest) = Some (JS.trim line).
Proof.
  unfold Paragraph. cbv zeta. rewrite <- !startsWith_iff.
  intros (NE & S1 & S2 & S3 & S4 & S5). cbn [firstParagraph]. cbv zeta.
  apply truthy_iff in NE. rewrite NE. cbn [negb].
  apply not_true_is_false in S1, S2, S3, S4, S5.
  rewrite S1, S2, S3, S4, S5. cbn [orb].
  destruct (JS.startsWith (JS.trim line) "---") eqn:S6; auto.
  exfalso. apply startsWith_iff in S6. destruct S6 as [t S6].
  rewrite S6 in S3. discriminate.
Qed.

Lemma Paragraph_dec (line : string) : {Paragraph line} + {~ Paragraph line}.
Proof.
  destruct (firstParagraph [line]) as [d|] eqn:E.
  - left. destruct (JS.truthy (JS.trim line)) eqn:T.
    + unfold Paragraph. cbv zeta. rewrite <- !startsWith_iff.
      cbn [firstParagraph] in E. cbv zeta in E. rewrite T in E.
      cbn [negb] in E.
      destruct (JS.startsWith (JS.trim line) "#"); [discriminate|].
      destruct (JS.startsWith (JS.trim line) ">"); [discriminate|].
      destruct (JS.startsWith (JS.trim line) "-"); [discriminate|].
      destruct (JS.startsWith (JS.trim line) "*"); [discriminate|].
      destruct (JS.startsWith (JS.trim line) "```"); [discriminate|].
      apply truthy_iff in T. repeat split; auto; discriminate.
    + cbn [firstParagraph] in E. cbv zeta in E. rewrite T in E. discriminate.
  - right. intros P. rewrite (firstParagraph_take _ _ P) in E. discriminate.
Qed.

(** X20.  The description is the first paragraph line.  [extractDescription]
    returns the first line of the markdown that, once trimmed, is not
    empty and does not begin with "#", ">", "-", "*" or three backquotes,
    and returns it trimmed; without such a line it returns nothing.  (The
    test for "---" in the source never decides: the test for "-" comes
    first.) *)
Theorem extractDescription_first (markdown : string) :
  (forall d, extractDescription markdown = Some d
             <-> exists line, FirstWith Paragraph (JS.split LF markdown) line
                              /\ d = JS.trim line)
  /\ (extractDescription markdown = None
      <-> Forall (fun line => ~ Paragraph line) (JS.split LF markdown)).
Proof.
  unfold extractDescription. generalize (JS.split LF markdown) as lines.
  intros lines.
  assert (forall line, FirstWith Paragraph lines line ->
                       firstParagraph lines = Some (JS.trim line)) as Hit.
  { intros line (pre & post & -> & F & P).
    induction F as [|l pre NP F IH]; simpl app.
    - now apply firstParagraph_take.
    - rewrite firstParagraph_skip; auto. }
  assert (Forall (fun line => ~ Paragraph line) lines ->
          firstParagraph lines = None) as Miss.
  { clear Hit. induction 1 as [|l ls NP F IH]; auto.
    rewrite firstParagraph_skip; auto. }
  destruct (first_or_none Paragraph Paragraph_dec lines) as [(line & FW)|F].
  - rewrite (Hit line FW). split.
    + intros d. split.
      * intros [= <-]. eauto.
      * intros (line' & FW' & ->). now rewrite <- (Hit line' FW'), (Hit line FW).
    + split; [discriminate|]. intros F. destruct FW as (pre & post & -> & _ & P).
      apply Forall_app in F. destruct F as [_ F]. inversion F. contradiction.
  - rewrite (Miss F). split.
    + intros d. split; [discriminate|].
      intros (line & (pre & post & -> & _ & P) & _).
      apply Forall_app in F. destruct F as [_ F]. inversion F. contradiction.
    + tauto.
Qed.

(** A greedy capture of a run that ends where the class ends takes the
    whole run. *)
Lemma plusGreedy_run {A : Type} (k : string -> string -> option A)
    (t rest : string) (r : A) :
  forall acc,
    allOf Re.dot t = true -> t <> "" ->
    (forall c u, rest = String c u -> Re.dot c = false) ->
    k (acc ++ t)%string rest = Some r ->
    ReM.plusGreedy Re.dot k acc (t ++ rest) = Some r.
Proof.
  induction t as [|c t IH]; intros acc D NE R K; [congruence|].
  simpl in D. apply andb_true_iff in D. destruct D as [Dc D].
  cbn [append ReM.plusGreedy]. rewrite Dc.
  destruct t as [|c' t'].
  - cbn [append]. destruct rest as [|c2 u]; cbn [ReM.plusGreedy].
    + exact K.
    + rewrite (R c2 u eq_refl). exact K.
  - rewrite (IH (acc ++ String c "")%string D); auto; [discriminate|].
    now rewrite append_assoc.
Qed.

(** X21.  The title of a heading line.  For a markdown that begins with
    "#", white space, and a text that is not blank and runs to the end of
    its line, [extractTitle] returns that text, trimmed. *)
Theorem extractTitle_heading (ws T rest : string) :
  ws <> "" -> allOf JS.isWhiteSpace ws = true ->
  allOf Re.dot T = true -> ~ Blank T ->
  (forall c u, rest = String c u -> JS.isLineTerminator c = true) ->
  extractTitle ("#" ++ ws ++ T ++ rest) = Some (JS.trim T).
Proof.
  intros NW W D NB R.
  destruct (trimStart_split T) as (lead & ET & WL).
  destruct (JS.trimStart T) as [|c' t''] eqn:TS.
  { exfalso. apply NB. unfold Blank. rewrite ET, append_nil_r. exact WL. }
  pose proof (trimStart_head _ _ _ TS) as NWc.
  assert (allOf Re.dot (String c' t'') = true) as D'.
  { rewrite ET, allOf_append in D. now apply andb_true_iff in D. }
  assert (ReM.plusGreedy Re.dot (fun captured => ReM.eol captured) ""
            (String c' t'' ++ rest) = Some (String c' t'')) as Cap.
  { apply plusGreedy_run; auto; [discriminate| |].
    - intros c u E. unfold Re.dot. now rewrite (R c u E).
    - cbn [append]. destruct rest as [|c u]; [reflexivity|].
      cbn [ReM.eol]. now rewrite (R c u eq_refl). }
  assert (matchHeading ("#" ++ ws ++ T ++ rest) = Some (String c' t'')) as M.
  { unfold matchHeading.
    set (k := ReM.plus JS.isWhiteSpace
                (ReM.plusGreedy Re.dot (fun captured => ReM.eol captured) "")).
    change ("#" ++ ws ++ T ++ rest)%string with (String "#" (ws ++ T ++ rest)).
    cbn [ReM.search].
    assert (Re.lit "#" k (String "#" (ws ++ T ++ rest)) = k (ws ++ T ++ rest))
      as -> by apply (lit_append "#").
    unfold k. destruct ws as [|c ws']; [congruence|].
    simpl in W. apply andb_true_iff in W. destruct W as [Wc W].
    cbn [append ReM.plus]. rewrite Wc.
    rewrite ET, <- !append_assoc, (append_assoc (ws' ++ lead)).
    rewrite (star_greedy JS.isWhiteSpace _ (ws' ++ lead) (String c' t'' ++ rest)
               (String c' t'')); auto.
    - now rewrite allOf_append, W, WL.
    - cbn [append]. now intros c0 t0 [= <- <-]. }
  unfold extractTitle. rewrite M. f_equal.
  unfold JS.trim. rewrite TS. cbn [JS.trimStart]. now rewrite NWc.
Qed.

Lemma extractTitle_heading_witness :
  extractTitle ("#" ++ " " ++ "The Title " ++ (nl ++ nl ++ "Content"))
  = Some "The Title".
Proof.
  apply (extractTitle_heading " " "The Title " (nl ++ nl ++ "Content")).
  - discriminate.
  - reflexivity.
  - reflexivity.
  - intros B. vm_compute in B. discriminate.
  - intros c u [= <- _]. reflexivity.
Defined.

Lemma whenTruthy_nonempty (w : World) (f : string) :
  (forall f c, readFile w f = Some c -> c <> "") ->
  whenTruthy (readFile w f) = readFile w f.
Proof.
  intros NE. destruct (readFile w f) as [c|] eqn:R; auto.
  cbn [whenTruthy]. apply NE, truthy_iff in R. now rewrite R.
Qed.

Lemma readRouteGroups_agrees (w : World) (appDir : string)
    (segments groups : list string) :
  (forall f c, readFile w f = Some c -> c <> "") ->
  readRouteGroups w appDir segments groups
  = scanRouteGroups w appDir segments groups.
Proof.
  intros NE. induction groups as [|g groups IH]; auto.
  cbn [readRouteGroups scanRouteGroups].
  destruct (isPathWithinDirectory _ appDir); cbn [negb]; auto.
  unfold tryReadFile, bind, emit, ret. rewrite (whenTruthy_nonempty w _ NE).
  destruct (readFile w _); auto. now rewrite IH.
Qed.

(** The segments the two lookups derive from a path have a [.] or [..]
    among them exactly when the path has. *)
Lemma dot_segments (path : string) :
  let normalizedPath :=
    if String.eqb path "/" then "" else stripLeadingSlash path in
  let segments :=
    if JS.truthy normalizedPath then JS.split "/" normalizedPath else [] in
  JS.some (fun s => String.eqb s ".." || String.eqb s ".") segments = true
  <-> In "." (JS.split "/" path) \/ In ".." (JS.split "/" path).
Proof.
  cbv zeta. rewrite some_exists.
  assert (forall l : list string,
            (exists x, In x l /\ (String.eqb x ".." || String.eqb x ".") = true)
            <-> In "." l \/ In ".." l) as Dots.
  { intros l. split.
    - intros (x & I & E). apply orb_true_iff in E.
      destruct E as [E|E]; apply String.eqb_eq in E; subst; auto.
    - intros [I|I]; eexists; split; eauto. }
  rewrite Dots. clear Dots.
  destruct (String.eqb path "/") eqn:E.
  - apply String.eqb_eq in E. subst path. simpl.
    split; intros [H|H]; try tauto;
      repeat (destruct H as [H|H]; try discriminate); tauto.
  - destruct path as [|c t].
    + simpl. split; intros [H|H]; try tauto;
        repeat (destruct H as [H|H]; try discriminate); tauto.
    + destruct (Ascii.eqb c "/") eqn:C.
      * apply Ascii.eqb_eq in C. subst c. cbn [stripLeadingSlash].
        change (JS.split "/" (String "/" t)) with ("" :: JS.split "/" t).
        destruct (JS.truthy t) eqn:T.
        -- simpl. split; intros [H|H]; auto; destruct H as [H|H]; auto;
             discriminate.
        -- apply negb_false_iff, String.eqb_eq in T. subst t. simpl.
           split; intros [H|H]; try tauto;
             repeat (destruct H as [H|H]; try discriminate); tauto.
      * assert (stripLeadingSlash (String c t) = String c t) as ->.
        { unfold stripLeadingSlash.
          destruct c as [[] [] [] [] [] [] [] []]; try reflexivity.
          discriminate. }
        change (JS.truthy (String c t)) with true. cbv iota. tauto.
Qed.

(** X22.  The two lookups agree.  [readPageMd], the lookup behind
    llms-full.txt, touches nothing and finds nothing when the path has a
    "." or ".." segment.  On any other path, in the default content root,
    and as long as no file is empty, it makes the same reads in the same
    order as [findPageMd], the lookup of the handler, and returns the same
    content. *)
Theorem readPageMd_agrees (w : World) (path : string) :
  (forall appDir,
     In "." (JS.split "/" path) \/ In ".." (JS.split "/" path) ->
     readPageMd w appDir path = ret None)
  /\ (~ (In "." (JS.split "/" path) \/ In ".." (JS.split "/" path)) ->
      (forall f c, readFile w f = Some c -> c <> "") ->
      readPageMd w (appDirOf w) path = findPageMd w path).
Proof.
  split.
  - intros appDir Dots. apply dot_segments in Dots. unfold readPageMd.
    now rewrite Dots.
  - intros NoDots NE. unfold readPageMd, findPageMd. fold (appDirOf w).
    destruct (JS.some _ _) eqn:S.
    { exfalso. apply NoDots. now apply dot_segments. }
    destruct (isPathWithinDirectory _ (appDirOf w)); cbn [negb]; auto.
    unfold tryReadFile, bind, emit, ret. rewrite (whenTruthy_nonempty w _ NE).
    destruct (readFile w _); auto.
    destruct (readdir w (appDirOf w)); auto.
    now rewrite readRouteGroups_agrees.
Qed.

Lemma readPageMd_agrees_witness :
  readPageMd Demo.world "/srv/app" "/../../etc/passwd" = ret None
  /\ readPageMd Demo.world (appDirOf Demo.world) "/docs"
     = findPageMd Demo.world "/docs".
Proof.
  destruct (readPageMd_agrees Demo.world "/../../etc/passwd") as [Guard _].
  destruct (readPageMd_agrees Demo.world "/docs") as [_ Same].
  split.
  - apply Guard. right. vm_compute. auto.
  - apply Same.
    + intros [H|H]; vm_compute in H;
        repeat (destruct H as [H|H]; try discriminate); auto.
    + intros f c R. unfold Demo.world, readFile in R. unfold Demo.files in R.
      cbn [Demo.lookup] in R.
      repeat (match type of R with
              | (if ?b then _ else _) = _ => destruct b
              end; [injection R as <-; discriminate|]).
      discriminate.
Defined.

Lemma Plain_slash_free (segs : list string) :
  Forall Plain segs -> Forall (fun s => ~ Contains s (sepStr "/")) segs.
Proof.
  intros F. rewrite Forall_forall in *. intros s I. apply Plain_no_slash.
  right. auto.
Qed.

Lemma split_join_plain (segs : list string) :
  segs <> [] -> Forall Plain segs -> JS.split "/" (JS.join "/" segs) = segs.
Proof.
  intros NE F. apply (split_join_unique "/" segs NE). now apply Plain_slash_free.
Qed.

Lemma join_plain_nonempty (segs : list string) :
  segs <> [] -> Forall Plain segs -> JS.join "/" segs <> "".
Proof.
  intros NE F E. pose proof (split_join_plain segs NE F) as S.
  rewrite E in S. simpl in S. subst segs. inversion F as [|? ? P _].
  now destruct P.
Qed.

(** A path made of plain segments passes the validation. *)
Lemma valid_of_plain (segs : list string) :
  Forall Plain segs -> isValidPath ("/" ++ JS.join "/" segs) = true.
Proof.
  intros F. destruct segs as [|s0 segs]; [reflexivity|].
  assert (JS.split "/" ("/" ++ JS.join "/" (s0 :: segs)) = "" :: s0 :: segs) as S.
  { change (JS.split "/" ("/" ++ JS.join "/" (s0 :: segs)))
      with ("" :: JS.split "/" (JS.join "/" (s0 :: segs))).
    now rewrite split_join_plain. }
  assert (~ In "" (s0 :: segs)) as NoEmpty.
  { intros I. rewrite Forall_forall in F. now destruct (F _ I). }
  apply isValidPath_true_iff. split; [split|split].
  - now exists (JS.join "/" (s0 :: segs)).
  - intros [t E]. apply (f_equal (JS.split "/")) in E. rewrite S in E.
    change (JS.split "/" ("//" ++ t)) with ("" :: "" :: JS.split "/" t) in E.
    injection E as E _. apply NoEmpty. left. auto.
  - intros (a & b & E). apply (f_equal (JS.split "/")) in E. rewrite S in E.
    change (a ++ "://" ++ b)%string
      with (a ++ String ":" (String "/" (String "/" b)))%string in E.
    replace (a ++ String ":" (String "/" (String "/" b)))%string
      with ((a ++ ":") ++ String "/" (String "/" b))%string in E
      by (now rewrite append_assoc).
    rewrite split_app_sep in E.
    change (JS.split "/" (String "/" b)) with ("" :: JS.split "/" b) in E.
    pose proof (split_nonempty "/" (a ++ ":")) as NE.
    destruct (JS.split "/" (a ++ ":")) as [|x0 xs]; [congruence|].
    simpl in E. injection E as _ E. apply NoEmpty. rewrite E.
    apply in_or_app. right. now left.
  - intros segs' Sg. apply Segments_split in Sg. rewrite S in Sg. subst segs'.
    rewrite Forall_forall in F.
    split; intros [H|H]; try discriminate; destruct (F _ H) as (_ & N1 & N2 & _);
      congruence.
Qed.

(** The segments the lookup derives from a path made of plain segments are
    those segments. *)
Lemma lookup_segments (segs : list string) :
  Forall Plain segs ->
  let requestPath := ("/" ++ JS.join "/" segs)%string in
  let normalizedPath :=
    if String.eqb requestPath "/" then "" else stripLeadingSlash requestPath in
  (if JS.truthy normalizedPath then JS.split "/" normalizedPath else []) = segs.
Proof.
  intros F. cbv zeta. destruct segs as [|s0 segs]; [reflexivity|].
  pose proof (join_plain_nonempty (s0 :: segs) ltac:(discriminate) F) as NE.
  assert (String.eqb ("/" ++ JS.join "/" (s0 :: segs)) "/" = false) as ->.
  { apply String.eqb_neq. intros E. apply NE. now injection E. }
  change (stripLeadingSlash ("/" ++ JS.join "/" (s0 :: segs)))
    with (JS.join "/" (s0 :: segs)).
  apply truthy_iff in NE. rewrite NE. apply split_join_plain; auto.
  discriminate.
Qed.

Lemma RouteGroup_plain (g : string) :
  RouteGroup g -> ~ Contains g "/" -> Plain g.
Proof.
  intros [[t ->] _] NS. repeat split; auto; discriminate.
Qed.

(** The candidates of the lookup for a path made of plain segments. *)
Lemma candidate_paths (w : World) (segs : list string) :
  StartsWith (cwd w) "/" -> Forall Plain segs ->
  Path.resolve (cwd w) ([appDirOf w] ++ segs ++ ["page.md"])
  = (appDirOf w ++ "/" ++ JS.join "/" (segs ++ ["page.md"]))%string
  /\ forall g, Plain g ->
       Path.resolve (cwd w) ([appDirOf w; g] ++ segs ++ ["page.md"])
       = (appDirOf w ++ "/" ++ JS.join "/" (g :: segs ++ ["page.md"]))%string.
Proof.
  intros C F. destruct (appDir_shape w C) as (dirSegs & A & PD).
  assert (Forall Plain (dirSegs ++ ["app"])) as PA.
  { apply Forall_app. split; auto. constructor; auto. apply Plain_app. }
  assert ((dirSegs ++ ["app"])%list <> []) as NA by now destruct dirSegs.
  assert (Forall Plain (segs ++ ["page.md"])) as PS.
  { apply Forall_app. split; auto. constructor; auto. apply Plain_page_md. }
  assert (forall args, Forall Plain args -> args <> [] ->
            Path.resolve (cwd w) (appDirOf w :: args)
            = (appDirOf w ++ "/" ++ JS.join "/" args)%string) as R.
  { intros args P NE. rewrite A.
    rewrite (resolve_under (cwd w) (dirSegs ++ ["app"]) args NA PA).
    - now rewrite (Plain_truthy _ P).
    - rewrite Forall_forall in *. auto.
    - now rewrite (Plain_truthy _ P). }
  split.
  - apply R; auto. now destruct segs.
  - intros g Pg. apply (R (g :: segs ++ ["page.md"])); [|discriminate].
    now constructor.
Qed.

Lemma scanRouteGroups_finds (w : World) (segs groups : list string)
    (g c : string) :
  StartsWith (cwd w) "/" -> Forall Plain segs -> Plain g ->
  let file :=
    (appDirOf w ++ "/" ++ JS.join "/" (g :: segs ++ ["page.md"]))%string in
  readFile w file = Some c ->
  (forall f, f <> file -> readFile w f = None) ->
  In g groups ->
  value (scanRouteGroups w (appDirOf w) segs groups) = Some c.
Proof.
  intros C F Pg file R Only I.
  destruct (candidate_paths w segs C F) as [_ GP].
  assert (forall f rest,
            value (scanRouteGroups w (appDirOf w) segs rest) = Some c ->
            value (bind (tryReadFile w f)
                     (fun content =>
                        match content with
                        | Some c => ret (Some c)
                        | None => scanRouteGroups w (appDirOf w) segs rest
                        end)) = Some c) as Step.
  { intros f rest IH. rewrite value_bind. unfold tryReadFile.
    rewrite value_bind. cbn [ret value fst].
    destruct (string_dec f file) as [->|NF].
    - now rewrite R.
    - now rewrite (Only f NF). }
  induction groups as [|g' groups IH]; [destruct I|].
  cbn [scanRouteGroups].
  destruct (string_dec g' g) as [->|NG].
  - rewrite (GP g Pg). fold file.
    assert (isPathWithinDirectory file (appDirOf w) = true) as ->.
    { apply isPathWithinDirectory_iff. right.
      exists (JS.join "/" (g :: segs ++ ["page.md"])). unfold file.
      now rewrite append_assoc. }
    cbn [negb]. unfold tryReadFile, bind, emit, ret. now rewrite R.
  - assert (In g groups) as I' by (destruct I; congruence).
    destruct (isPathWithinDirectory _ (appDirOf w)) eqn:W; cbn [negb]; auto.
Qed.

(** X23.  A page in a top-level route group is found under the URL that
    lists it.  Take, under an absolute working directory, a page.md in the
    directory [(group)/seg1/.../segN] of the content root ([N] may be 0),
    the segments being plain and not route groups, and suppose it is the
    only readable file.  [routePathToUrl] maps that directory to the URL
    path [/seg1/.../segN]; that path passes the validation of the handler;
    and, when the listing of the content root has the group, [findPageMd]
    finds the content of the page for it. *)
Theorem group_page_resolves (w : World) (g : string) (segs topDirs : list string)
    (c : string) :
  StartsWith (cwd w) "/" ->
  RouteGroup g -> ~ Contains g "/" ->
  Forall Plain segs -> Forall (fun s => ~ RouteGroup s) segs ->
  let rel := JS.join "/" (g :: segs) in
  let file := (appDirOf w ++ "/" ++ rel ++ "/page.md")%string in
  readdir w (appDirOf w) = Some topDirs -> In g topDirs ->
  readFile w file = Some c ->
  (forall f, f <> file -> readFile w f = None) ->
  routePathToUrl rel = ("/" ++ JS.join "/" segs)%string
  /\ isValidPath (routePathToUrl rel) = true
  /\ value (findPageMd w (routePathToUrl rel)) = Some c.
Proof.
  intros C G NS F NG rel file RD I R Only.
  pose proof (RouteGroup_plain g G NS) as Pg.
  assert (Forall Plain (g :: segs)) as PGS by now constructor.
  assert (routePathToUrl rel = ("/" ++ JS.join "/" segs)%string) as U.
  { unfold routePathToUrl, rel.
    pose proof (join_plain_nonempty (g :: segs) ltac:(discriminate) PGS) as NE.
    apply truthy_iff in NE. rewrite NE. cbn [negb].
    rewrite (split_join_plain (g :: segs)) by (auto; discriminate).
    cbn [filter]. pose proof G as G'. apply RouteGroup_iff in G'.
    apply andb_true_iff in G'. destruct G' as [G1 G2]. rewrite G1, G2.
    cbn [negb orb]. rewrite filter_all; auto.
    rewrite Forall_forall in *. intros s Is. apply keep_iff. auto. }
  split; [exact U|]. rewrite U. split; [now apply valid_of_plain|].
  assert (file = (appDirOf w ++ "/"
                  ++ JS.join "/" (g :: segs ++ ["page.md"]))%string) as EF.
  { unfold file, rel.
    change (g :: segs ++ ["page.md"])%list with ((g :: segs) ++ ["page.md"])%list.
    rewrite join_app by discriminate. reflexivity. }
  rewrite EF in R, Only. clear EF file.
  unfold findPageMd. fold (appDirOf w).
  rewrite (lookup_segments segs F).
  destruct (candidate_paths w segs C F) as [DP _]. rewrite DP.
  assert (isPathWithinDirectory
            (appDirOf w ++ "/" ++ JS.join "/" (segs ++ ["page.md"]))
            (appDirOf w) = true) as ->.
  { apply isPathWithinDirectory_iff. right.
    exists (JS.join "/" (segs ++ ["page.md"])). now rewrite append_assoc. }
  cbn [negb]. rewrite value_bind. unfold tryReadFile at 1.
  rewrite value_bind. cbn [ret value fst].
  destruct (string_dec
              (appDirOf w ++ "/" ++ JS.join "/" (segs ++ ["page.md"]))
              (appDirOf w ++ "/" ++ JS.join "/" (g :: segs ++ ["page.md"])))
    as [E|NE].
  - rewrite E, R. reflexivity.
  - rewrite (Only _ NE), value_bind, RD. cbn [emit value fst].
    apply (scanRouteGroups_finds w segs _ g c C F Pg R Only).
    apply filter_In. split; auto. now apply RouteGroup_iff.
Qed.

Lemma group_page_resolves_witness :
  routePathToUrl (JS.join "/" ["(main)"; "docs"]) = "/docs"
  /\ isValidPath "/docs" = true
  /\ value (findPageMd
              {| cwd := "/srv";
                 readFile := fun f =>
                   if String.eqb f "/srv/app/(main)/docs/page.md"
                   then Some "# Docs" else None;
                 readdir := readdir Demo.world;
                 newURL := newURL Demo.world;
                 fetch := fetch Demo.world;
                 htmlToMarkdown := htmlToMarkdown Demo.world |}
              "/docs") = Some "# Docs".
Proof.
  set (w := {| cwd := "/srv";
               readFile := fun f =>
                 if String.eqb f "/srv/app/(main)/docs/page.md"
                 then Some "# Docs" else None;
               readdir := readdir Demo.world;
               newURL := newURL Demo.world;
               fetch := fetch Demo.world;
               htmlToMarkdown := htmlToMarkdown Demo.world |}).
  assert (StartsWith (cwd w) "/") as C by (now exists "srv").
  assert (RouteGroup "(main)") as G
    by (split; [now exists "main)"|now exists "(main"]).
  assert (~ Contains "(main)" "/") as NS
    by (intros H; apply includes_iff in H; vm_compute in H; discriminate).
  assert (Forall Plain ["docs"]) as F.
  { repeat constructor; try discriminate.
    intros H. apply includes_iff in H. vm_compute in H. discriminate. }
  assert (Forall (fun s => ~ RouteGroup s) ["docs"]) as NG.
  { repeat constructor. intros [[t H] _]. discriminate. }
  assert (forall f,
            f <> (appDirOf w ++ "/" ++ JS.join "/" ["(main)"; "docs"]
                  ++ "/page.md")%string ->
            readFile w f = None) as Only.
  { intros f NE. unfold w, readFile.
    destruct (String.eqb f "/srv/app/(main)/docs/page.md") eqn:E; auto.
    apply String.eqb_eq in E. subst f. exfalso. apply NE. reflexivity. }
  exact (group_page_resolves w "(main)" ["docs"]
           ["(main)"; "pricing"; "home"; "a"; "b"; "c"; "layout.tsx"]
           "# Docs" C G NS F NG eq_refl (or_introl eq_refl) eq_refl Only).
Defined.

(* ================================================================== *)
(** * The configuration wrapper *)
(* ================================================================== *)

Example wrappedHeaders_examples :
  Config.wrappedHeaders []
  = [{| Config.source := "/:path*";
        Config.headers := Some [{| Config.key := "Vary"; Config.value := "Accept" |}] |}]
  /\ Config.wrappedHeaders
       [{| Config.source := "/:path*";
           Config.headers :=
             Some [{| Config.key := "vary"; Config.value := "Cookie" |}] |}]
     = [{| Config.source := "/:path*";
           Config.headers :=
             Some [{| Config.key := "vary"; Config.value := "Cookie, Accept" |}] |}]
  /\ Config.wrappedHeaders
       [{| Config.source := "/:path*";
           Config.headers :=
             Some [{| Config.key := "Vary"; Config.value := "Cookie , ACCEPT" |}] |}]
     = [{| Config.source := "/:path*";
           Config.headers :=
             Some [{| Config.key := "Vary"; Config.value := "Cookie , ACCEPT" |}] |}]
  /\ Config.wrappedHeaders
       [{| Config.source := "/docs"; Config.headers := None |};
        {| Config.source := "/:path*"; Config.headers := None |}]
     = [{| Config.source := "/docs"; Config.headers := None |};
        {| Config.source := "/:path*";
           Config.headers :=
             Some [{| Config.key := "Vary"; Config.value := "Accept" |}] |}].
Proof. repeat split; vm_compute; reflexivity. Qed.

Lemma findIndex_some {A : Type} (p : A -> bool) (xs : list A) (i : nat) :
  Config.findIndex p xs = Some i ->
  exists x, nth_error xs i = Some x /\ p x = true
            /\ forall j y, (j < i)%nat -> nth_error xs j = Some y -> p y = false.
Proof.
  revert i. induction xs as [|x xs IH]; intros i; simpl; [discriminate|].
  destruct (p x) eqn:P.
  - intros [= <-]. exists x. repeat split; auto. intros j y Hj. lia.
  - destruct (Config.findIndex p xs) as [k|]; [|discriminate].
    intros [= <-]. destruct (IH k eq_refl) as (y & N & Py & Before).
    exists y. repeat split; auto. intros [|j] z Hj Nz.
    + simpl in Nz. now injection Nz as <-.
    + simpl in Nz. apply (Before j z); auto. lia.
Qed.

Lemma findIndex_none {A : Type} (p : A -> bool) (xs : list A) :
  Config.findIndex p xs = None -> Forall (fun x => p x = false) xs.
Proof.
  induction xs as [|x xs IH]; simpl; [constructor|].
  destruct (p x) eqn:P; [discriminate|].
  destruct (Config.findIndex p xs); [discriminate|]. auto.
Qed.

Lemma findIndex_app_none {A : Type} (p : A -> bool) (xs : list A) (x : A) :
  Config.findIndex p xs = None -> p x = true ->
  Config.findIndex p (xs ++ [x]) = Some (List.length xs).
Proof.
  intros N P. induction xs as [|y xs IH]; simpl; [now rewrite P|].
  simpl in N. destruct (p y); [discriminate|].
  destruct (Config.findIndex p xs); [discriminate|]. now rewrite IH.
Qed.

Lemma findIndex_setAt {A : Type} (p : A -> bool) (xs : list A) (i : nat)
    (x : A) :
  Config.findIndex p xs = Some i -> p x = true ->
  Config.findIndex p (Config.setAt i x xs) = Some i.
Proof.
  revert i. induction xs as [|y xs IH]; intros i; simpl; [discriminate|].
  destruct (p y) eqn:P.
  - intros [= <-] Px. simpl. now rewrite Px.
  - destruct (Config.findIndex p xs) as [k|]; [|discriminate].
    intros [= <-] Px. simpl. now rewrite P, (IH k eq_refl Px).
Qed.

Lemma nth_setAt {A : Type} (xs : list A) (i : nat) (x y : A) :
  nth_error xs i = Some y -> nth_error (Config.setAt i x xs) i = Some x.
Proof.
  revert i. induction xs as [|z xs IH]; intros [|i]; simpl; try discriminate;
    auto.
Qed.

Lemma nth_setAt_other {A : Type} (xs : list A) (i j : nat) (x : A) :
  i <> j -> nth_error (Config.setAt i x xs) j = nth_error xs j.
Proof.
  revert i j. induction xs as [|z xs IH]; intros [|i] [|j] N; simpl; auto;
    try congruence.
Qed.

Lemma setAt_same {A : Type} (xs : list A) (i : nat) (x : A) :
  nth_error xs i = Some x -> Config.setAt i x xs = xs.
Proof.
  revert i. induction xs as [|z xs IH]; intros [|i]; simpl; try discriminate.
  - now intros [= ->].
  - intros N. now rewrite IH.
Qed.

Lemma length_setAt {A : Type} (xs : list A) (i : nat) (x : A) :
  List.length (Config.setAt i x xs) = List.length xs.
Proof.
  revert i. induction xs as [|z xs IH]; intros [|i]; simpl; auto.
Qed.

Lemma existsb_accept (values : list string) :
  existsb (String.eqb "accept") values = true <-> In "accept" values.
Proof.
  rewrite existsb_exists. split.
  - intros (x & I & E). apply String.eqb_eq in E. now subst.
  - intros I. exists "accept". split; [exact I|apply String.eqb_refl].
Qed.

(** Merging makes the entry vary on Accept, keeps its source, and changes
    nothing in an entry that already does. *)
Lemma mergeVary_spec (entry : Config.Entry) :
  Config.VariesOnAccept (Config.mergeVary entry)
  /\ Config.source (Config.mergeVary entry) = Config.source entry
  /\ (Config.VariesOnAccept entry -> Config.mergeVary entry = entry).
Proof.
  unfold Config.mergeVary.
  destruct (Config.headers entry) as [hs|] eqn:H.
  - destruct (Config.findIndex Config.isVary hs) as [i|] eqn:FI.
    + destruct (findIndex_some _ _ _ FI) as (h & N & V & _). rewrite N.
      destruct (existsb _ (Config.varyValues h)) eqn:E.
      * split; [|split; auto]. exists hs, i, h. repeat split; auto.
        now apply existsb_accept.
      * split; [|split; auto].
        -- exists (Config.setAt i {| Config.key := Config.key h;
                                     Config.value := Config.value h ++ ", Accept" |} hs),
             i, {| Config.key := Config.key h;
                   Config.value := Config.value h ++ ", Accept" |}.
           repeat split; auto.
           ++ now apply findIndex_setAt.
           ++ eapply nth_setAt; eauto.
           ++ unfold Config.varyValues. cbn [Config.value].
              change (Config.value h ++ ", Accept")%string
                with (Config.value h ++ String "," " Accept")%string.
              rewrite split_app_sep, map_app. apply in_or_app. right.
              now left.
        -- intros (hs' & i' & h' & H' & FI' & N' & I').
           rewrite H in H'. injection H' as <-. rewrite FI in FI'.
           injection FI' as <-. rewrite N in N'. injection N' as <-.
           apply existsb_accept in I'. congruence.
    + split; [|split; auto].
      * exists (hs ++ [Config.varyHeader])%list, (List.length hs), Config.varyHeader.
        repeat split; auto.
        -- now apply findIndex_app_none.
        -- rewrite nth_error_app2 by lia. now rewrite Nat.sub_diag.
        -- now left.
      * intros (hs' & i' & h' & H' & FI' & _).
        rewrite H in H'. injection H' as <-. congruence.
  - split; [|split; auto].
    + exists [Config.varyHeader], 0%nat, Config.varyHeader.
      repeat split; auto. now left.
    + intros (hs' & i' & h' & H' & _). congruence.
Qed.

Lemma wrappedHeaders_cases (existing : list Config.Entry) :
  (exists i entry,
     Config.findIndex Config.isCatchAll existing = Some i
     /\ nth_error existing i = Some entry
     /\ Config.wrappedHeaders existing
        = Config.setAt i (Config.mergeVary entry) existing)
  \/ (Config.findIndex Config.isCatchAll existing = None
      /\ Config.wrappedHeaders existing
         = (existing ++ [{| Config.source := "/:path*";
                            Config.headers := Some [Config.varyHeader] |}])%list).
Proof.
  unfold Config.wrappedHeaders.
  destruct (Config.findIndex Config.isCatchAll existing) as [i|] eqn:FI.
  - destruct (findIndex_some _ _ _ FI) as (entry & N & _). rewrite N.
    left. exists i, entry. auto.
  - right. auto.
Qed.

(** Wrapping leaves alone a list whose first catch-all entry already
    varies on Accept. *)
Lemma wrappedHeaders_fixed (existing : list Config.Entry) (i : nat)
    (entry : Config.Entry) :
  Config.findIndex Config.isCatchAll existing = Some i ->
  nth_error existing i = Some entry -> Config.VariesOnAccept entry ->
  Config.wrappedHeaders existing = existing.
Proof.
  intros FI N V. unfold Config.wrappedHeaders. rewrite FI, N.
  destruct (mergeVary_spec entry) as (_ & _ & Fix).
  rewrite (Fix V). now apply setAt_same.
Qed.

(** X24.  The wrapped configuration varies on Accept.  The headers given
    by a configuration wrapped with [withGeo] have a catch-all entry,
    source "/:path*", and the first such entry makes responses vary on
    Accept.  Every entry the wrapped configuration had is still there, at
    its place and with its source, the entries other than the first
    catch-all one unchanged, and at most one entry is added.  Wrapping
    twice changes nothing more. *)
Theorem wrappedHeaders_vary (existing : list Config.Entry) :
  let wrapped := Config.wrappedHeaders existing in
  (exists i entry,
     Config.findIndex Config.isCatchAll wrapped = Some i
     /\ nth_error wrapped i = Some entry
     /\ Config.VariesOnAccept entry
     /\ (forall j e, j <> i -> nth_error existing j = Some e ->
                     nth_error wrapped j = Some e))
  /\ map Config.source (firstn (List.length existing) wrapped)
     = map Config.source existing
  /\ (List.length wrapped <= S (List.length existing))%nat
  /\ Config.wrappedHeaders wrapped = wrapped.
Proof.
  cbv zeta.
  destruct (wrappedHeaders_cases existing)
    as [(i & entry & FI & N & ->)|(FI & ->)].
  - destruct (mergeVary_spec entry) as (V & S & Fix).
    assert (Config.isCatchAll (Config.mergeVary entry) = true) as CA'.
    { destruct (findIndex_some _ _ _ FI) as (e & N0 & C0 & _).
      rewrite N in N0. injection N0 as <-.
      unfold Config.isCatchAll in *. now rewrite S. }
    pose proof (findIndex_setAt _ _ _ _ FI CA') as FI'.
    pose proof (nth_setAt _ _ (Config.mergeVary entry) _ N) as N'.
    split; [|split; [|split]].
    + exists i, (Config.mergeVary entry). repeat split; auto.
      intros j e NJ Ne. rewrite nth_setAt_other; auto.
    + rewrite <- (length_setAt existing i (Config.mergeVary entry)).
      rewrite firstn_all. clear FI FI' N' CA' V Fix. revert i N.
      induction existing as [|z xs IH]; intros [|i] N; simpl in *;
        try discriminate; auto.
      * injection N as ->. now rewrite S.
      * now rewrite (IH i N).
    + rewrite length_setAt. lia.
    + eapply wrappedHeaders_fixed; eauto.
  - set (added := {| Config.source := "/:path*";
                     Config.headers := Some [Config.varyHeader] |}).
    assert (Config.findIndex Config.isCatchAll (existing ++ [added])
            = Some (List.length existing)) as FI'
      by (now apply findIndex_app_none).
    assert (nth_error (existing ++ [added]) (List.length existing) = Some added)
      as N' by (rewrite nth_error_app2 by lia; now rewrite Nat.sub_diag).
    assert (Config.VariesOnAccept added) as V.
    { exists [Config.varyHeader], 0%nat, Config.varyHeader.
      repeat split; auto. now left. }
    split; [|split; [|split]].
    + exists (List.length existing), added. repeat split; auto.
      intros j e _ Ne. rewrite nth_error_app1; auto.
      apply nth_error_Some. congruence.
    + rewrite firstn_app, firstn_all, Nat.sub_diag. simpl.
      now rewrite app_nil_r.
    + rewrite length_app. simpl. lia.
    + eapply wrappedHeaders_fixed; eauto.
Qed.

(* ================================================================== *)
(** * The converter *)
(* ================================================================== *)

Example extractElement_examples :
  Convert.extractElement "<html><body><main><h1>Hello</h1></main></body></html>" "main"
  = Some "<h1>Hello</h1>"
  /\ Convert.extractElement "<MAIN class='x'>a</Main><main>b</main>" "main" = Some "a"
  /\ Convert.extractElement "<main>a</main>b</main>" "main" = Some "a"
  /\ Convert.extractElement "<mainframe>a</main>" "main" = Some "a"
  /\ Convert.extractElement "<main>a" "main" = None
  /\ Convert.extractElement "<p>x</p>" "main" = None
  /\ Convert.extractElement "<main></main><article>y</article>" "main" = Some "".
Proof. repeat split; vm_compute; reflexivity. Qed.

Example collapse_examples :
  Html.collapse ("a" ++ nl ++ nl ++ nl ++ nl ++ "b" ++ nl ++ nl ++ "c" ++ nl ++ "d")
  = ("a" ++ nl ++ nl ++ "b" ++ nl ++ nl ++ "c" ++ nl ++ "d")%string
  /\ Html.collapse (nl ++ nl ++ nl) = (nl ++ nl)%string
  /\ Html.collapse "" = "".
Proof. repeat split; vm_compute; reflexivity. Qed.

Example htmlToMarkdown_examples :
  Convert.htmlToMarkdown (fun h => Some ("md:" ++ h))
    "<html><head><title> My Page </title></head><body><nav>n</nav><main><p>x</p></main></body></html>"
  = Some ("# My Page" ++ nl ++ nl ++ "md:<p>x</p>")%string
  /\ Convert.htmlToMarkdown (fun h => Some ("# " ++ h))
       "<title>T</title><article>a</article><body>b</body>"
     = Some "# a"
  /\ Convert.htmlToMarkdown (fun h => Some h) "<main></main><article>y</article>"
     = Some "y"
  /\ Convert.htmlToMarkdown (fun h => Some h) "plain" = Some "plain"
  /\ Convert.htmlToMarkdown (fun _ => None) "plain" = None.
Proof. repeat split; vm_compute; reflexivity. Qed.

Lemma litCI_inv {A : Type} (l : string) (k : string -> option A) (s : string)
    (r : A) :
  Html.litCI l k s = Some r ->
  exists m rest, s = (m ++ rest)%string
    /\ JS.toLowerCase m = JS.toLowerCase l /\ k rest = Some r.
Proof.
  revert s. induction l as [|p l IH]; intros s; cbn [Html.litCI].
  - intros K. exists "", s. auto.
  - destruct s as [|c s]; [discriminate|].
    destruct (Ascii.eqb (JS.lowerChar c) (JS.lowerChar p)) eqn:E; [|discriminate].
    intros H. destruct (IH s H) as (m & rest & -> & L & K).
    exists (String c m), rest. repeat split; auto.
    apply Ascii.eqb_eq in E. simpl. now rewrite E, L.
Qed.

Lemma litCI_complete {A : Type} (l m : string) (k : string -> option A)
    (rest : string) :
  JS.toLowerCase m = JS.toLowerCase l ->
  Html.litCI l k (m ++ rest) = k rest.
Proof.
  revert m. induction l as [|p l IH]; intros [|c m] L; simpl in L;
    try discriminate; auto.
  injection L as Ec L. cbn [append Html.litCI]. rewrite Ec, Ascii.eqb_refl.
  now apply IH.
Qed.

Lemma litCI_none {A : Type} (l : string) (k : string -> option A) (s : string) :
  ~ StartsWithCI s l -> Html.litCI l k s = None.
Proof.
  intros N. destruct (Html.litCI l k s) as [r|] eqn:E; auto.
  exfalso. apply N. apply litCI_inv in E.
  destruct E as (m & rest & -> & L & _). now exists m, rest.
Qed.

Lemma starLazy_inv {A : Type} (k : string -> string -> option A)
    (s : string) (r : A) :
  forall acc,
    Html.starLazy Html.any k acc s = Some r ->
    exists c rest,
      s = (c ++ rest)%string /\ k (acc ++ c)%string rest = Some r
      /\ forall c1 c2, c = (c1 ++ c2)%string -> c2 <> "" ->
           k (acc ++ c1)%string (c2 ++ rest)%string = None.
Proof.
  induction s as [|ch s IH]; intros acc; cbn [Html.starLazy].
  - destruct (k acc "") as [r'|] eqn:K; [|discriminate].
    intros [= <-]. exists "", "".
    split; [reflexivity|split; [now rewrite append_nil_r|]].
    intros c1 c2 E. destruct c1; destruct c2; try discriminate. congruence.
  - destruct (k acc (String ch s)) as [r'|] eqn:K.
    + intros [= <-]. exists "", (String ch s).
      split; [reflexivity|split; [now rewrite append_nil_r|]].
      intros c1 c2 E. destruct c1; destruct c2; try discriminate. congruence.
    + cbn [Html.any]. intros H.
      destruct (IH _ H) as (c & rest & -> & Kc & Min).
      exists (String ch c), rest. rewrite append_assoc in Kc.
      split; [reflexivity|split; [exact Kc|]].
      intros [|c0 c1] c2 E NE.
      * simpl in E. subst c2. now rewrite append_nil_r.
      * simpl in E. injection E as <- ->.
        specialize (Min c1 c2 eq_refl NE). now rewrite append_assoc in Min.
Qed.

Lemma starLazy_complete {A : Type} (k : string -> string -> option A)
    (c rest : string) (r : A) :
  forall acc,
    (forall c1 c2, c = (c1 ++ c2)%string -> c2 <> "" ->
       k (acc ++ c1)%string (c2 ++ rest)%string = None) ->
    k (acc ++ c)%string rest = Some r ->
    Html.starLazy Html.any k acc (c ++ rest) = Some r.
Proof.
  induction c as [|ch c IH]; intros acc Min K.
  - rewrite append_nil_r in K. cbn [append].
    destruct rest; cbn [Html.starLazy]; now rewrite K.
  - cbn [append Html.starLazy].
    pose proof (Min "" (String ch c) eq_refl ltac:(discriminate)) as N.
    rewrite append_nil_r in N. cbn [append] in N. rewrite N. cbn [Html.any].
    apply IH.
    + intros c1 c2 E NE. rewrite append_assoc. cbn [append].
      apply (Min (String ch c1) c2); auto. simpl. now rewrite E.
    + now rewrite append_assoc.
Qed.

Lemma search_inv {A : Type} (m : string -> option A) (s : string) (r : A) :
  Html.search m s = Some r ->
  exists pre rest, s = (pre ++ rest)%string /\ m rest = Some r.
Proof.
  induction s as [|c s IH]; cbn [Html.search].
  - destruct (m "") eqn:E; [|discriminate]. intros [= <-]. now exists "", "".
  - destruct (m (String c s)) eqn:E.
    + intros [= <-]. now exists "", (String c s).
    + intros H. destruct (IH H) as (pre & rest & -> & M).
      now exists (String c pre), rest.
Qed.

Lemma search_complete {A : Type} (m : string -> option A) (pre rest : string)
    (r : A) :
  (forall p1 p2, pre = (p1 ++ p2)%string -> p2 <> "" ->
     m (p2 ++ rest)%string = None) ->
  m rest = Some r -> Html.search m (pre ++ rest) = Some r.
Proof.
  induction pre as [|c pre IH]; intros Min M.
  - cbn [append]. destruct rest; cbn [Html.search]; now rewrite M.
  - cbn [append Html.search].
    pose proof (Min "" (String c pre) eq_refl ltac:(discriminate)) as N.
    cbn [append] in N. rewrite N. apply IH; auto.
    intros p1 p2 E NE. apply (Min (String c p1) p2); auto. simpl. now rewrite E.
Qed.

Lemma allOf_notGt (w : string) :
  allOf Html.notGt w = true <-> ~ Contains w ">".
Proof.
  induction w as [|c w IH]; simpl.
  - split; auto. intros _ H. now apply (not_Contains_nil ">").
  - rewrite andb_true_iff, IH. unfold Html.notGt at 1.
    rewrite negb_true_iff, Ascii.eqb_neq.
    pose proof (Contains_cons ">" c w) as CC. change (sepStr ">") with ">" in CC.
    rewrite CC. tauto.
Qed.

Lemma lowerChar_lt (c : ascii) :
  JS.lowerChar c = JS.lowerChar "<" -> c = "<"%char.
Proof.
  destruct c as [[] [] [] [] [] [] [] []]; vm_compute; intros H;
    try discriminate; reflexivity.
Qed.

(** X25.  What [extractElement] extracts.  When it returns a content, the
    HTML has, somewhere, an opening tag of the given name (any letter
    case, followed by any text without ">", so "<mainframe>" opens "main"
    as well), then that content, then a closing tag of the name, and this
    closing tag is the first one after the opening tag.  Conversely, for
    such an element with no "<" before it, that content is returned. *)
Theorem extractElement_shape (html tag c : string) :
  (Convert.extractElement html tag = Some c ->
   exists pre attrs post, ElementAt html tag pre attrs c post)
  /\ (forall pre attrs post,
        ElementAt html tag pre attrs c post -> ~ Contains pre "<" ->
        Convert.extractElement html tag = Some c).
Proof.
  unfold Convert.extractElement, Convert.matchElement. split.
  - intros H. apply search_inv in H. destruct H as (pre & s1 & -> & H).
    apply litCI_inv in H. destruct H as (open & s2 & -> & LO & H).
    apply star_inv in H. destruct H as (attrs & s3 & -> & NG & H).
    apply lit_inv in H. destruct H as (s4 & -> & H).
    apply starLazy_inv in H. destruct H as (c' & s5 & -> & H & Min).
    cbn [append] in H. apply litCI_inv in H.
    destruct H as (close & post & -> & LC & [= <-]).
    exists pre, attrs, post, open, close. repeat split; auto.
    + now apply allOf_notGt.
    + intros c1 c2 E NE (m & rest & Em & Lm).
      specialize (Min c1 c2 E NE). cbn [append] in Min.
      rewrite Em, (litCI_complete _ m _ rest Lm) in Min. discriminate.
  - intros pre attrs post (open & close & -> & LO & LC & NG & Min) NoLt.
    apply search_complete.
    + intros p1 p2 -> NE. destruct p2 as [|ch p2]; [congruence|].
      cbn [append Html.litCI].
      destruct (Ascii.eqb (JS.lowerChar ch) (JS.lowerChar "<")) eqn:E; auto.
      exfalso. apply Ascii.eqb_eq, lowerChar_lt in E. subst ch.
      apply NoLt. now exists p1, p2.
    + rewrite (litCI_complete _ open _ _ LO).
      rewrite (star_greedy Html.notGt _ attrs (">" ++ c ++ close ++ post) c);
        auto.
      * now apply allOf_notGt.
      * cbn [append]. now intros c0 t0 [= <- <-].
      * rewrite lit_append. apply starLazy_complete.
        -- intros c1 c2 E NE. cbn [append]. apply litCI_none.
           exact (Min c1 c2 E NE).
        -- cbn [append]. now rewrite (litCI_complete _ close _ post LC).
Qed.

Lemma extractElement_shape_witness :
  Convert.extractElement "<body><MAIN id='m'><p>Hi</p></main></body>" "main"
  = Some "<p>Hi</p>"
  /\ exists pre attrs post,
       ElementAt "<body><MAIN id='m'><p>Hi</p></main></body>" "main"
         pre attrs "<p>Hi</p>" post.
Proof.
  assert (Convert.extractElement "<body><MAIN id='m'><p>Hi</p></main></body>"
            "main" = Some "<p>Hi</p>") as E by (vm_compute; reflexivity).
  split; [exact E|].
  exact (proj1 (extractElement_shape _ "main" "<p>Hi</p>") E).
Defined.










(* ================================================================== *)
(** * llms.txt: discovery, merging and the caches *)
(* ================================================================== *)

Example discover_examples :
  value (Llms.discoverPageMdFiles 5 Site.world Site.isDirectory "/srv/app" "")
  = Done [{| Llms.path := "/"; Llms.title := "Welcome";
             Llms.description := Some "The home page." |};
          {| Llms.path := "/docs"; Llms.title := "Docs";
             Llms.description := Some "All the docs." |};
          {| Llms.path := "/pricing"; Llms.title := "/pricing";
             Llms.description := Some "Plans and prices." |}]
  /\ trace (Llms.discoverPageMdFiles 5 Site.world Site.isDirectory "/srv/app" "")
     = [EvReaddir "/srv/app"; EvReadFile "/srv/app/page.md";
        EvReaddir "/srv/app/(main)"; EvReaddir "/srv/app/(main)/docs";
        EvReadFile "/srv/app/(main)/docs/page.md";
        EvReaddir "/srv/app/pricing"; EvReadFile "/srv/app/pricing/page.md";
        EvReaddir "/srv/app/home"; EvReadFile "/srv/app/home/page.md"]
  /\ value (Llms.discoverPageMdFiles 2 Site.world Site.isDirectory "/srv/app" "")
     = OutOfFuel.
Proof. repeat split; vm_compute; reflexivity. Qed.

Example llmsTxt_examples :
  value (Llms.llmsTxtGET 5 Site.world Site.isDirectory Site.compare Site.config
           1000 Site.empty)
  = Done (Llms.textResponse Site.listing 3600,
          {| Llms.llmsTxtCache :=
               Some {| Llms.content := Site.listing;
                       Llms.expiresAt := 3601000 |};
             Llms.llmsFullTxtCache := None |})
  /\ headersOut (Llms.textResponse Site.listing 3600)
     = [("Content-Type", "text/plain; charset=utf-8");
        ("Cache-Control", "public, max-age=3600")]
  /\ option_map (fun r => payload (fst r))
       (match value (Llms.llmsFullTxtGET 5 Site.world Site.isDirectory
                       Site.compare Site.config 1000 Site.empty) with
        | Done r => Some r
        | OutOfFuel => None
        end)
     = Some ("# Acme" ++ nl ++ nl ++ "> Things for people." ++ nl ++ nl
             ++ "---" ++ nl ++ nl ++ "# Welcome" ++ nl ++ nl ++ "The home page."
             ++ nl ++ nl ++ "---" ++ nl ++ nl ++ "# Docs" ++ nl ++ nl
             ++ "All the docs." ++ nl ++ nl ++ "---" ++ nl ++ nl
             ++ "Plans and prices.")%string.
Proof. repeat split; vm_compute; reflexivity. Qed.






Lemma mapSet_paths (byPath : list Llms.LlmsTxtEntry) (x : Llms.LlmsTxtEntry) :
  map Llms.path (Llms.mapSet byPath x)
  = if existsb (fun e => String.eqb (Llms.path e) (Llms.path x)) byPath
    then map Llms.path byPath
    else (map Llms.path byPath ++ [Llms.path x])%list.
Proof.
  induction byPath as [|y l IH]; [reflexivity|]. cbn [Llms.mapSet existsb].
  destruct (String.eqb (Llms.path y) (Llms.path x)) eqn:E; cbn [orb map].
  - apply String.eqb_eq in E. now rewrite E.
  - rewrite IH. now destruct (existsb _ l).
Qed.

Lemma mapSet_NoDup (byPath : list Llms.LlmsTxtEntry) (x : Llms.LlmsTxtEntry) :
  NoDup (map Llms.path byPath) ->
  NoDup (map Llms.path (Llms.mapSet byPath x)).
Proof.
  intros ND. rewrite mapSet_paths.
  destruct (existsb _ byPath) eqn:E; auto.
  apply NoDup_app; auto.
  - repeat constructor. now intros [].
  - intros p I [<-|[]]. apply in_map_iff in I. destruct I as (e & Pe & Ie).
    assert (existsb (fun e => String.eqb (Llms.path e) (Llms.path x)) byPath
            = true); [|congruence].
    apply existsb_exists. exists e. split; auto. now apply String.eqb_eq.
Qed.

Lemma mapSet_In (byPath : list Llms.LlmsTxtEntry) (x e : Llms.LlmsTxtEntry) :
  NoDup (map Llms.path byPath) ->
  (In e (Llms.mapSet byPath x)
   <-> e = x \/ (In e byPath /\ Llms.path e <> Llms.path x)).
Proof.
  induction byPath as [|y l IH]; intros ND; cbn [Llms.mapSet].
  - simpl. intuition.
  - inversion ND as [|? ? NI ND']. subst.
    destruct (String.eqb (Llms.path y) (Llms.path x)) eqn:E.
    + apply String.eqb_eq in E. simpl. split.
      * intros [<-|I]; auto. right. split; auto. intros P. apply NI.
        rewrite E, <- P. now apply in_map.
      * intros [->|[[<-|I] P]]; auto. congruence.
    + apply String.eqb_neq in E. simpl. rewrite (IH ND'). split.
      * intros [<-|[->|[I P]]]; auto.
      * intros [->|[[<-|I] P]]; auto.
Qed.

Lemma LastWithPath_cons (x e : Llms.LlmsTxtEntry) (xs : list Llms.LlmsTxtEntry) :
  LastWithPath (x :: xs) e
  <-> (e = x /\ Forall (fun y => Llms.path y <> Llms.path e) xs)
      \/ LastWithPath xs e.
Proof.
  split.
  - intros ([|p pre] & post & E & F); simpl in E; injection E as -> ->.
    + left. auto.
    + right. now exists pre, post.
  - intros [[-> F]|(pre & post & -> & F)].
    + now exists [], xs.
    + now exists (x :: pre), post.
Qed.

Lemma fold_mapSet (xs : list Llms.LlmsTxtEntry) :
  forall acc,
    NoDup (map Llms.path acc) ->
    NoDup (map Llms.path (fold_left Llms.mapSet xs acc))
    /\ forall e,
         In e (fold_left Llms.mapSet xs acc)
         <-> LastWithPath xs e
             \/ (In e acc /\ Forall (fun y => Llms.path y <> Llms.path e) xs).
Proof.
  induction xs as [|x xs IH]; intros acc ND; cbn [fold_left].
  - split; auto. intros e. split; auto.
    intros [(pre & post & E & _)|[I _]]; auto. now destruct pre.
  - destruct (IH (Llms.mapSet acc x) (mapSet_NoDup acc x ND)) as [ND' In'].
    split; auto. intros e. rewrite In', LastWithPath_cons, (mapSet_In acc x e ND).
    split.
    + intros [L|[[->|[I P]] F]].
      * left. now right.
      * left. left. auto.
      * right. split; auto.
    + intros [[[-> F]|L]|[I F]].
      * right. split; auto.
      * now left.
      * inversion F. subst. right. split; auto.
Qed.

Lemma insertSorted_In (cmp : string -> string -> Z) (x e : Llms.LlmsTxtEntry)
    (l : list Llms.LlmsTxtEntry) :
  In e (Llms.insertSorted cmp x l) <-> e = x \/ In e l.
Proof.
  induction l as [|y l IH]; cbn [Llms.insertSorted]; [simpl; intuition|].
  destruct (0 <? cmp (Llms.path x) (Llms.path y)); simpl; rewrite ?IH;
    intuition.
Qed.

Lemma insertSorted_NoDup (cmp : string -> string -> Z) (x : Llms.LlmsTxtEntry)
    (l : list Llms.LlmsTxtEntry) :
  NoDup (Llms.path x :: map Llms.path l) ->
  NoDup (map Llms.path (Llms.insertSorted cmp x l)).
Proof.
  induction l as [|y l IH]; cbn [Llms.insertSorted]; intros ND.
  - exact ND.
  - destruct (0 <? cmp (Llms.path x) (Llms.path y)); [|exact ND].
    cbn [map]. inversion ND as [|? ? NI ND']. inversion ND' as [|? ? NI' ND''].
    subst. constructor.
    + intros I. apply in_map_iff in I. destruct I as (e & P & I).
      apply insertSorted_In in I. destruct I as [->|I].
      * apply NI. left. auto.
      * apply NI'. rewrite <- P. now apply in_map.
    + apply IH. constructor; auto. intros I. apply NI. now right.
Qed.

Lemma insertSorted_sorted (cmp : string -> string -> Z) (x : Llms.LlmsTxtEntry)
    (l : list Llms.LlmsTxtEntry) :
  Consistent cmp ->
  StronglySorted (fun a b => cmp (Llms.path a) (Llms.path b) <= 0) l ->
  StronglySorted (fun a b => cmp (Llms.path a) (Llms.path b) <= 0)
    (Llms.insertSorted cmp x l).
Proof.
  intros [Anti Trans] S. induction S as [|y l S IH F]; cbn [Llms.insertSorted].
  - repeat constructor.
  - destruct (0 <? cmp (Llms.path x) (Llms.path y)) eqn:E.
    + apply Z.ltb_lt in E. constructor; auto.
      apply Forall_forall. intros e I. apply insertSorted_In in I.
      destruct I as [->|I]; [now apply Anti|].
      rewrite Forall_forall in F. auto.
    + apply Z.ltb_ge in E. constructor; [constructor; auto|].
      constructor; auto. rewrite Forall_forall in *. intros e I.
      eapply Trans; eauto.
Qed.

Lemma sortByPath_spec (cmp : string -> string -> Z)
    (l : list Llms.LlmsTxtEntry) :
  (forall e, In e (Llms.sortByPath cmp l) <-> In e l)
  /\ (NoDup (map Llms.path l) -> NoDup (map Llms.path (Llms.sortByPath cmp l)))
  /\ (Consistent cmp ->
      StronglySorted (fun a b => cmp (Llms.path a) (Llms.path b) <= 0)
        (Llms.sortByPath cmp l)).
Proof.
  unfold Llms.sortByPath.
  induction l as [|x l (I & N & S)]; cbn [fold_right].
  - repeat split; auto. constructor.
  - split; [|split].
    + intros e. rewrite insertSorted_In, I. simpl. intuition.
    + cbn [map]. intros ND. inversion ND as [|? ? NI ND']. subst.
      apply insertSorted_NoDup. constructor; auto.
      intros H. apply NI. apply in_map_iff in H. destruct H as (e & P & H).
      apply I in H. rewrite <- P. now apply in_map.
    + intros C. apply insertSorted_sorted; auto.
Qed.

(** X28.  The entries of llms.txt.  Whenever the discovery returns,
    [gatherEntries] returns, having done nothing but the discovery.  Its
    entries have pairwise distinct paths; they are, for each path, the
    last entry with that path in the discovered entries followed by the
    manual ones, so a manual entry replaces a discovered one of the same
    path; and for a consistent comparison they are ordered by path. *)
Theorem gatherEntries_merge (fuel : nat) (w : World)
    (isDirectory : string -> option bool)
    (localeCompare : string -> string -> Z) (config : Llms.LlmsTxtConfig)
    (discovered : list Llms.LlmsTxtEntry) :
  let appDir := orDefault (Path.join [cwd w; "app"]) (Llms.appDir config) in
  let manual := orDefault [] (Llms.entries config) in
  value (Llms.discoverPageMdFiles fuel w isDirectory appDir "") = Done discovered ->
  exists es,
    value (Llms.gatherEntries fuel w isDirectory localeCompare config) = Done es
    /\ trace (Llms.gatherEntries fuel w isDirectory localeCompare config)
       = trace (Llms.discoverPageMdFiles fuel w isDirectory appDir "")
    /\ NoDup (map Llms.path es)
    /\ (forall e, In e es <-> LastWithPath (discovered ++ manual) e)
    /\ (Consistent localeCompare ->
        StronglySorted
          (fun a b => localeCompare (Llms.path a) (Llms.path b) <= 0) es).
Proof.
  intros appDir manual D. unfold Llms.gatherEntries. fold appDir. fold manual.
  rewrite value_bind, trace_bind, D. cbn [ret value trace fst snd].
  rewrite app_nil_r, <- fold_left_app.
  eexists. split; [reflexivity|]. split; [reflexivity|].
  destruct (fold_mapSet (discovered ++ manual) [] ltac:(constructor))
    as [ND In'].
  destruct (sortByPath_spec localeCompare
              (fold_left Llms.mapSet (discovered ++ manual) []))
    as (I & N & S).
  split; [auto|]. split; [|exact S].
  intros e. rewrite I, In'. split; auto. intros [L|[[] _]]. exact L.
Qed.

Lemma gatherEntries_merge_witness :
  value (Llms.gatherEntries 5 Site.world Site.isDirectory Site.compare Site.config)
  = Done [{| Llms.path := "/"; Llms.title := "Welcome";
             Llms.description := Some "The home page." |};
          {| Llms.path := "/blog"; Llms.title := "Blog";
             Llms.description := None |};
          {| Llms.path := "/docs"; Llms.title := "Docs";
             Llms.description := Some "All the docs." |};
          {| Llms.path := "/pricing"; Llms.title := "Pricing";
             Llms.description := Some "What it costs" |}].
Proof.
  destruct (gatherEntries_merge 5 Site.world Site.isDirectory Site.compare
              Site.config
              [{| Llms.path := "/"; Llms.title := "Welcome";
                  Llms.description := Some "The home page." |};
               {| Llms.path := "/docs"; Llms.title := "Docs";
                  Llms.description := Some "All the docs." |};
               {| Llms.path := "/pricing"; Llms.title := "/pricing";
                  Llms.description := Some "Plans and prices." |}])
    as (es & V & _).
  - vm_compute. reflexivity.
  - rewrite V. f_equal. vm_compute in V. now injection V as <-.
Defined.
Lemma Allowed_test (name : string) :
  JS.startsWith name "_" || String.eqb name "api"
    || String.eqb name "node_modules" = false
  <-> Allowed name.
Proof.
  unfold Allowed. rewrite !orb_false_iff, !String.eqb_neq.
  rewrite <- (startsWith_iff name "_").
  destruct (JS.startsWith name "_"); intuition congruence.
Qed.









Lemma truthy_nonempty (s : string) : JS.truthy s = true <-> s <> "".
Proof. destruct s; cbv; split; congruence. Qed.

(** The loop over the names of a directory returns when its recursive
    calls do, with what had been found before and what each call found. *)
Lemma discoverChildren_returns
    (recurse : string -> M (result (list Llms.LlmsTxtEntry)))
    (isDirectory : string -> option bool) (appDir rel : string)
    (names : list string) :
  (forall name, In name names -> Allowed name ->
     isDirectory (Path.join [appDir; Llms.childPath rel name]) = Some true ->
     exists ce, value (recurse (Llms.childPath rel name)) = Done ce) ->
  forall entries : list Llms.LlmsTxtEntry,
    exists es,
      value (Llms.discoverChildren recurse isDirectory appDir rel names entries)
      = Done es
      /\ incl entries es
      /\ forall name ce, In name names -> Allowed name ->
           isDirectory (Path.join [appDir; Llms.childPath rel name]) = Some true ->
           value (recurse (Llms.childPath rel name)) = Done ce ->
           incl ce es.
Proof.
  induction names as [|name rest IH]; intros Hrec entries.
  - exists entries. split; [reflexivity|]. split; [apply incl_refl|].
    intros ? ? [].
  - cbn [Llms.discoverChildren].
    assert (Hrest : forall n, In n rest -> Allowed n ->
      isDirectory (Path.join [appDir; Llms.childPath rel n]) = Some true ->
      exists ce, value (recurse (Llms.childPath rel n)) = Done ce)
      by (intros n I; apply Hrec; now right).
    destruct (JS.startsWith name "_" || String.eqb name "api"
              || String.eqb name "node_modules") eqn:T.
    + destruct (IH Hrest entries) as (es & E & I & C).
      exists es. split; [exact E|]. split; [exact I|].
      intros n ce [<-|In_] A D V.
      * apply Allowed_test in A. congruence.
      * eapply C; eauto.
    + destruct (isDirectory (Path.join [appDir; Llms.childPath rel name]))
        as [[|]|] eqn:D.
      2,3: destruct (IH Hrest entries) as (es & E & I & C);
           exists es; (split; [exact E|]); (split; [exact I|]);
           intros n ce [<-|In_] A D' V; [congruence | eapply C; eauto].
      apply Allowed_test in T.
      destruct (Hrec name (or_introl eq_refl) T D) as [ce0 V0].
      rewrite value_bind, V0.
      destruct (IH Hrest (entries ++ ce0)%list) as (es & E & I & C).
      exists es. split; [exact E|]. split.
      * intros e He. apply I, in_or_app. now left.
      * intros n ce [<-|In_] A D' V.
        -- rewrite V0 in V. injection V as <-.
           intros e He. apply I, in_or_app. now right.
        -- eapply C; eauto.
Qed.

Lemma discoverPageMdFiles_complete (w : World)
    (isDirectory : string -> option bool) (appDir : string) (fuel : nat) :
  forall (n : nat) (rel : string),
    Shallow w isDirectory appDir n rel -> (n <= fuel)%nat ->
    exists es,
      value (Llms.discoverPageMdFiles fuel w isDirectory appDir rel) = Done es
      /\ forall r dirEntries content,
           Walk w isDirectory appDir rel r ->
           readdir w (Path.join [appDir; r]) = Some dirEntries ->
           In "page.md" dirEntries ->
           readFile w (Path.join [Path.join [appDir; r]; "page.md"])
           = Some content ->
           content <> "" ->
           incl (Llms.entryOf r content) es.
Proof.
  induction fuel as [|fuel IH]; intros n rel Sh Le.
  - inversion Sh; subst. lia.
  - inversion Sh as [n' rel' Hch]; subst.
    cbn [Llms.discoverPageMdFiles]. rewrite value_bind.
    cbn [emit value fst].
    destruct (readdir w (Path.join [appDir; rel])) as [ds|] eqn:Rd.
    2:{ exists []. split; [reflexivity|].
        intros r dirEntries content Wk. inversion Wk; subst; congruence. }
    rewrite value_bind.
    set (here := if existsb (String.eqb "page.md") ds then _ else _).
    destruct (discoverChildren_returns
                (Llms.discoverPageMdFiles fuel w isDirectory appDir)
                isDirectory appDir rel ds) with (entries := value here)
      as (es & E & I & C).
    { intros name In_ A D.
      destruct (IH n' (Llms.childPath rel name)) as (ce & V & _);
        [eapply Hch; eauto | lia |]. now exists ce. }
    exists es. split; [exact E|].
    intros r dirEntries content Wk Rd' Pm Rf Ne.
    inversion Wk as [|rel0 name r0 ds' Rd0 In0 A0 D0 Wk0]; subst.
    + rewrite Rd in Rd'. injection Rd' as <-.
      intros e He. apply I. subst here.
      assert (X : existsb (String.eqb "page.md") ds = true)
        by (apply existsb_exists; exists "page.md"; split;
            [exact Pm | apply String.eqb_refl]).
      rewrite X, value_bind.
      cbn [tryReadFile emit ret bind value fst snd].
      rewrite Rf. cbn [whenTruthy].
      apply truthy_nonempty in Ne. rewrite Ne. exact He.
    + rewrite Rd in Rd0. injection Rd0 as <-.
      destruct (IH n' (Llms.childPath rel name)) as (ce & V & Cc);
        [eapply Hch; eauto | lia |].
      intros e He. eapply C; eauto.
      eapply Cc; eauto.
Qed.

(** X30: the discovery finds every page.  When the tree of directories
    below the start is less deep than the fuel, the discovery returns, and
    its entries include the entry of every non-empty page.md in a directory
    that is listed, allowed and found to be a directory at each step from
    the start. *)
Theorem discovery_complete (fuel n : nat) (w : World)
    (isDirectory : string -> option bool) (appDir rel : string) :
  Shallow w isDirectory appDir n rel -> (n <= fuel)%nat ->
  exists es,
    value (Llms.discoverPageMdFiles fuel w isDirectory appDir rel) = Done es
    /\ forall r dirEntries content,
         Walk w isDirectory appDir rel r ->
         readdir w (Path.join [appDir; r]) = Some dirEntries ->
         In "page.md" dirEntries ->
         readFile w (Path.join [Path.join [appDir; r]; "page.md"])
         = Some content ->
         content <> "" ->
         incl (Llms.entryOf r content) es.
Proof. apply discoverPageMdFiles_complete. Qed.

Ltac shallow_step :=
  constructor;
  let ds := fresh "ds" in let name := fresh "name" in
  let Hrd := fresh "Hrd" in let Hin := fresh "Hin" in
  let Hdir := fresh "Hdir" in
  intros ds name Hrd Hin _ Hdir;
  vm_compute in Hrd;
  first [ discriminate Hrd
        | injection Hrd as <-; simpl in Hin;
          repeat (destruct Hin as [<-|Hin]); try contradiction;
          vm_compute in Hdir; try discriminate Hdir ].

Lemma discovery_complete_witness :
  Shallow Site.world Site.isDirectory "/srv/app" 3 ""
  /\ (3 <= 4)%nat
  /\ exists es,
       value (Llms.discoverPageMdFiles 4 Site.world Site.isDirectory
                "/srv/app" "") = Done es
       /\ forall r dirEntries content,
            Walk Site.world Site.isDirectory "/srv/app" "" r ->
            readdir Site.world (Path.join ["/srv/app"; r]) = Some dirEntries ->
            In "page.md" dirEntries ->
            readFile Site.world (Path.join [Path.join ["/srv/app"; r]; "page.md"])
            = Some content ->
            content <> "" ->
            incl (Llms.entryOf r content) es.
Proof.
  assert (Sh : Shallow Site.world Site.isDirectory "/srv/app" 3 "").
  { shallow_step; shallow_step; shallow_step. }
  split; [exact Sh|]. split; [lia|].
  apply (discovery_complete 4 3); [exact Sh | lia].
Defined.
